(** * The reactive store of [src/core/state-manager.ts]

    A shallow embedding of [createStateManager] and of the closures it
    returns: the atom registry, [applyChange] with its middleware pipeline,
    [updateAtom], transactions, the selector cache and the debug API; and,
    beside the store, of the setter of the [useAtom] hook, the namespaced
    sync adapter of [src/utils/state-utils.ts], the in-memory storage
    adapter and the message queue of the WebSocket adapter.

    Conventions of the embedding.
    - The closure state of one store instance ([state], [timeline],
      [isPaused], the subscription maps, ...) is the record [Store]; every
      operation runs in the monad [Js], which threads the store, collects the
      calls made to the outside world (storage and sync adapters, subscriber
      callbacks, the console) as a list of [Effect]s in program order, and
      carries JavaScript exceptions.
    - The snapshot [state], a plain object, is a [gmap string _] read with
      the prototype chain in mind ([js_in], [js_get]); [Map] and [Set]
      instances and the [atoms] object, whose iteration order the code
      relies on, are insertion ordered lists ([JsMap], [JsSet]).
    - Callbacks are known by their identity only; what a callback does when it
      is invoked is outside the store, so an invocation is recorded as an
      effect. A middleware is the list of calls it makes to [next]. *)

From stdpp Require Import base strings list gmap.
From Stdlib Require Import ZArith DecimalString.

(** ** The JavaScript runtime the store runs on *)

(** What the embedding needs from the host: the [undefined] value, the
    members every plain object inherits from [Object.prototype], and the two
    impure primitives [nanoid()] and [Date.now()], read as streams. *)
Class JsRuntime (Value : Type) := {
  undefined : Value;
  object_prototype : string → option Value;
  nanoid : nat → string;
  date_now : nat → Z;
}.

(** Exceptions the store can raise. *)
Inductive Exn :=
  | ZodError
  | TypeError
  | Error (message : string).

(** How a call ends. *)
Inductive Completion (A : Type) :=
  | Normal (a : A)
  | Throw (e : Exn).
Arguments Normal {A} a.
Arguments Throw {A} e.

(** ** Insertion ordered [Map] and [Set] *)

Module JsMap.
Section JsMap.
Context {V : Type}.

Definition t := list (string * V).

Fixpoint get (k : string) (m : list (string * V)) : option V :=
  match m with
  | [] => None
  | (k', v) :: rest => if bool_decide (k' = k) then Some v else get k rest
  end.

Definition has (k : string) (m : list (string * V)) : bool :=
  match get k m with Some _ => true | None => false end.

(** [Map.prototype.set]: an existing key keeps its position. *)
Fixpoint set (k : string) (v : V) (m : list (string * V)) : list (string * V) :=
  match m with
  | [] => [(k, v)]
  | (k', v') :: rest =>
      if bool_decide (k' = k) then (k, v) :: rest else (k', v') :: set k v rest
  end.

Fixpoint delete (k : string) (m : list (string * V)) : list (string * V) :=
  match m with
  | [] => []
  | (k', v') :: rest =>
      if bool_decide (k' = k) then rest else (k', v') :: delete k rest
  end.
End JsMap.
Arguments t : clear implicits.
End JsMap.

Module JsSet.
Definition t := list nat.

Definition add (x : nat) (s : list nat) : list nat :=
  if bool_decide (x ∈ s) then s else s ++ [x].

Definition delete (x : nat) (s : list nat) : list nat :=
  filter (λ y, y ≠ x) s.

Fixpoint add_string (x : string) (s : list string) : list string :=
  match s with
  | [] => [x]
  | y :: rest => if bool_decide (y = x) then s else y :: add_string x rest
  end.

Definition of_strings (l : list string) : list string :=
  foldl (λ s x, add_string x s) [] l.
End JsSet.

(** ** Plain objects *)

Section Objects.
Context {Value : Type} `{!JsRuntime Value}.

(** [key in obj]: own keys and the inherited ones. *)
Definition js_in (obj : gmap string Value) (key : string) : bool :=
  match obj !! key with
  | Some _ => true
  | None => match object_prototype key with Some _ => true | None => false end
  end.

(** [obj[key]]. *)
Definition js_get (obj : gmap string Value) (key : string) : Value :=
  match obj !! key with
  | Some v => v
  | None => match object_prototype key with Some f => f | None => undefined end
  end.
End Objects.

(** ** Data model ([src/types/index.ts]) *)

(** A subscriber callback, by identity. *)
Definition Callback := nat.

(** What an adapter method hands back: the interface allows
    [Promise<void> | void]. *)
Inductive Returns :=
  | ReturnsPromise
  | ReturnsVoid.

#[global] Instance Returns_eq_dec : EqDecision Returns.
Proof. solve_decision. Defined.

Inductive StorageAdapterType :=
  | localStorage
  | sessionStorage
  | memory
  | indexedDB.

Inductive SyncAdapterType :=
  | broadcastChannel
  | websocket
  | sharedWorker.

(** [set] of the adapters in [src/adapters/storage-adapters.ts]: only the
    IndexedDB one is an [async] function. *)
Definition createStorageAdapter (type : StorageAdapterType) : Returns :=
  match type with
  | localStorage => ReturnsVoid
  | sessionStorage => ReturnsVoid
  | memory => ReturnsVoid
  | indexedDB => ReturnsPromise
  end.

(** [sendChange] of the adapters in [src/adapters/sync-adapters.ts]: all
    three are declared [: void]. The factory is called without a [url]. *)
Definition createSyncAdapter (type : SyncAdapterType) : Completion Returns :=
  match type with
  | broadcastChannel => Normal ReturnsVoid
  | websocket => Throw (Error "URL is required for websocket sync adapter")
  | sharedWorker => Normal ReturnsVoid
  end.

Inductive ConsoleMethod :=
  | console_error
  | console_group
  | console_log
  | console_groupEnd.

Section Model.
Context {Value : Type} `{!JsRuntime Value}.

Record Atom := {
  atom_id : string;
  atom_default : Value;
  atom_validate : Value → option Value;
}.

Record StateChangeEvent := {
  atomId : string;
  prevValue : Value;
  newValue : Value;
  timestamp : Z;
  changeId : string;
  source : string;
  optimistic : bool;
}.

Record TimelineEntry := {
  entry_timestamp : Z;
  entry_snapshot : gmap string Value;
  entry_change : StateChangeEvent;
  entry_id : string;
}.

Record DebugOptions := {
  debug_enabled : bool;
  debug_logChanges : bool;
  debug_timeTravel : bool;
}.

(** A selector reads properties of the state object it is given and
    returns a result. *)
Inductive Selector :=
| SelReturn (result : Value)
| SelRead (prop : string) (k : Value → Selector).

(** [selector(target)]. *)
Fixpoint select (sel : Selector) (target : gmap string Value) : Value :=
  match sel with
  | SelReturn r => r
  | SelRead prop k => select (k (js_get target prop)) target
  end.

(** [selector(stateProxy)]: the [get] trap adds every property read to
    [deps]. *)
Fixpoint select_tracked (sel : Selector) (target : gmap string Value)
    (deps : list string) : list string :=
  match sel with
  | SelReturn _ => deps
  | SelRead prop k =>
      select_tracked (k (js_get target prop)) target (JsSet.add_string prop deps)
  end.

Record CachedSelector := {
  deps : list string;
  compute : Selector;
}.

(** A middleware, by identity and by the calls it makes to [next]. *)
Record Middleware := {
  mw_id : nat;
  mw_run : StateChangeEvent → list StateChangeEvent;
}.

Inductive Effect :=
| StorageGet (key : string)
| StorageSet (key : string) (value : Value)
| SyncInitialize
| SyncSubscribe
| SyncSend (change : StateChangeEvent)
| SyncClose
| AtomNotify (subscriber : Callback) (change : StateChangeEvent)
| SelectorCompute (selectorId : string) (snapshot : gmap string Value) (result : Value)
| SelectorNotify (selectorId : string) (subscriber : Callback) (value : Value)
| Console (method : ConsoleMethod) (message : string).

(** The variables [createStateManager] closes over. [idsDrawn] and
    [clockReads] count the calls to [nanoid()] and [Date.now()]. *)
Record Store := {
  clientId : string;
  atoms : JsMap.t Atom;
  state : gmap string Value;
  atomSubscriptions : JsMap.t JsSet.t;
  selectorSubscriptions : JsMap.t JsSet.t;
  selectorCache : JsMap.t CachedSelector;
  timeline : list TimelineEntry;
  isPaused : bool;
  storage : option Returns;
  sync : option Returns;
  middlewares : list Middleware;
  debug : option DebugOptions;
  idsDrawn : nat;
  clockReads : nat;
}.

(** Assignments to the closure variables. *)
Definition set_state (s : gmap string Value) (st : Store) : Store :=
  {| clientId := clientId st; atoms := atoms st; state := s;
     atomSubscriptions := atomSubscriptions st;
     selectorSubscriptions := selectorSubscriptions st;
     selectorCache := selectorCache st; timeline := timeline st;
     isPaused := isPaused st; storage := storage st; sync := sync st;
     middlewares := middlewares st; debug := debug st;
     idsDrawn := idsDrawn st; clockReads := clockReads st |}.

Definition set_atomSubscriptions (m : JsMap.t JsSet.t) (st : Store) : Store :=
  {| clientId := clientId st; atoms := atoms st; state := state st;
     atomSubscriptions := m;
     selectorSubscriptions := selectorSubscriptions st;
     selectorCache := selectorCache st; timeline := timeline st;
     isPaused := isPaused st; storage := storage st; sync := sync st;
     middlewares := middlewares st; debug := debug st;
     idsDrawn := idsDrawn st; clockReads := clockReads st |}.

Definition set_selectorSubscriptions (m : JsMap.t JsSet.t) (st : Store) : Store :=
  {| clientId := clientId st; atoms := atoms st; state := state st;
     atomSubscriptions := atomSubscriptions st;
     selectorSubscriptions := m;
     selectorCache := selectorCache st; timeline := timeline st;
     isPaused := isPaused st; storage := storage st; sync := sync st;
     middlewares := middlewares st; debug := debug st;
     idsDrawn := idsDrawn st; clockReads := clockReads st |}.

Definition set_selectorCache (m : JsMap.t CachedSelector) (st : Store) : Store :=
  {| clientId := clientId st; atoms := atoms st; state := state st;
     atomSubscriptions := atomSubscriptions st;
     selectorSubscriptions := selectorSubscriptions st;
     selectorCache := m; timeline := timeline st;
     isPaused := isPaused st; storage := storage st; sync := sync st;
     middlewares := middlewares st; debug := debug st;
     idsDrawn := idsDrawn st; clockReads := clockReads st |}.

Definition set_timeline (t : list TimelineEntry) (st : Store) : Store :=
  {| clientId := clientId st; atoms := atoms st; state := state st;
     atomSubscriptions := atomSubscriptions st;
     selectorSubscriptions := selectorSubscriptions st;
     selectorCache := selectorCache st; timeline := t;
     isPaused := isPaused st; storage := storage st; sync := sync st;
     middlewares := middlewares st; debug := debug st;
     idsDrawn := idsDrawn st; clockReads := clockReads st |}.

Definition set_isPaused (b : bool) (st : Store) : Store :=
  {| clientId := clientId st; atoms := atoms st; state := state st;
     atomSubscriptions := atomSubscriptions st;
     selectorSubscriptions := selectorSubscriptions st;
     selectorCache := selectorCache st; timeline := timeline st;
     isPaused := b; storage := storage st; sync := sync st;
     middlewares := middlewares st; debug := debug st;
     idsDrawn := idsDrawn st; clockReads := clockReads st |}.

Definition set_middlewares (m : list Middleware) (st : Store) : Store :=
  {| clientId := clientId st; atoms := atoms st; state := state st;
     atomSubscriptions := atomSubscriptions st;
     selectorSubscriptions := selectorSubscriptions st;
     selectorCache := selectorCache st; timeline := timeline st;
     isPaused := isPaused st; storage := storage st; sync := sync st;
     middlewares := m; debug := debug st;
     idsDrawn := idsDrawn st; clockReads := clockReads st |}.

Definition set_idsDrawn (n : nat) (st : Store) : Store :=
  {| clientId := clientId st; atoms := atoms st; state := state st;
     atomSubscriptions := atomSubscriptions st;
     selectorSubscriptions := selectorSubscriptions st;
     selectorCache := selectorCache st; timeline := timeline st;
     isPaused := isPaused st; storage := storage st; sync := sync st;
     middlewares := middlewares st; debug := debug st;
     idsDrawn := n; clockReads := clockReads st |}.

Definition set_clockReads (n : nat) (st : Store) : Store :=
  {| clientId := clientId st; atoms := atoms st; state := state st;
     atomSubscriptions := atomSubscriptions st;
     selectorSubscriptions := selectorSubscriptions st;
     selectorCache := selectorCache st; timeline := timeline st;
     isPaused := isPaused st; storage := storage st; sync := sync st;
     middlewares := middlewares st; debug := debug st;
     idsDrawn := idsDrawn st; clockReads := n |}.

(** ** The monad of store operations *)

(** A computation maps the mutable state before to a completion, the state
    after and the effects performed, oldest first. [S] is [Store] for the
    store's own functions and [Store * Transaction] for the methods of a
    transaction object. *)
Definition Js (S A : Type) : Type := S → Completion A * S * list Effect.

Definition ret {S A} (a : A) : Js S A := λ st, (Normal a, st, []).

Definition bind {S A B} (m : Js S A) (f : A → Js S B) : Js S B := λ st,
  match m st with
  | (Normal a, st1, t1) =>
      match f a st1 with
      | (r, st2, t2) => (r, st2, t1 ++ t2)
      end
  | (Throw e, st1, t1) => (Throw e, st1, t1)
  end.

Definition throw {S A} (e : Exn) : Js S A := λ st, (Throw e, st, []).

Definition get_state {S} : Js S S := λ st, (Normal st, st, []).

Definition modify {S} (f : S → S) : Js S unit := λ st, (Normal tt, f st, []).

Definition emit {S} (e : Effect) : Js S unit := λ st, (Normal tt, st, [e]).

(** [try { body } catch (error) { handler(error) }]. *)
Definition try_catch {S A} (body : Js S A) (handler : Exn → Js S A) : Js S A := λ st,
  match body st with
  | (Normal a, st1, t1) => (Normal a, st1, t1)
  | (Throw e, st1, t1) =>
      match handler e st1 with
      | (r, st2, t2) => (r, st2, t1 ++ t2)
      end
  end.

Definition when {S} (b : bool) (m : Js S unit) : Js S unit :=
  if b then m else ret tt.

Notation "'let!' x ':=' m 'in' k" := (bind m (λ x, k))
  (at level 10, x name, m at level 100, k at level 200).
Notation "m '>>' k" := (bind m (λ _, k))
  (at level 100, k at level 200, right associativity).

(** [for (const x of xs) body(x)]. *)
Fixpoint for_each {S A} (xs : list A) (body : A → Js S unit) : Js S unit :=
  match xs with
  | [] => ret tt
  | x :: rest => body x >> for_each rest body
  end.

(** [nanoid()] and [Date.now()]. *)
Definition fresh_id : Js Store string := λ st,
  (Normal (nanoid (idsDrawn st)), set_idsDrawn (S (idsDrawn st)) st, []).

Definition now : Js Store Z := λ st,
  (Normal (date_now (clockReads st)), set_clockReads (S (clockReads st)) st, []).

(** [result.catch(handler)] on what an adapter method returned: a property
    read on [undefined] when the method returned nothing. Rejections of the
    promise happen later and outside the store. *)
Definition promise_catch (result : Returns) : Js Store unit :=
  match result with
  | ReturnsPromise => ret tt
  | ReturnsVoid => throw TypeError
  end.

Definition timeTravel (st : Store) : bool :=
  match debug st with Some d => debug_timeTravel d | None => false end.

Definition logChanges (st : Store) : bool :=
  match debug st with Some d => debug_logChanges d | None => false end.

(** ** [updateSelectors] (lines 285-310) *)

(** The first loop: ids of the cached selectors whose [deps] contain
    [atomId], in cache order. *)
Definition affectedSelectors (atomId : string)
    (cache : JsMap.t CachedSelector) : list string :=
  foldl (λ affected entry,
           if bool_decide (atomId ∈ deps (snd entry))
           then JsSet.add_string (fst entry) affected
           else affected)
        [] cache.

Definition updateSelectors (atomId : string) : Js Store unit :=
  let! st := get_state in
  for_each (affectedSelectors atomId (selectorCache st)) (λ selectorId,
    let! st := get_state in
    match JsMap.get selectorId (selectorCache st) with
    | None => ret tt
    | Some cachedSelector =>
        let newValue := select (compute cachedSelector) (state st) in
        emit (SelectorCompute selectorId (state st) newValue) >>
        match JsMap.get selectorId (selectorSubscriptions st) with
        | Some subscribers =>
            for_each subscribers (λ subscriber,
              emit (SelectorNotify selectorId subscriber newValue))
        | None => ret tt
        end
    end).

(** ** [applyChange] (lines 124-208) *)

(** [{ ...currentChange, prevValue, newValue }]. *)
Definition with_values (c : StateChangeEvent) (prev new : Value) : StateChangeEvent :=
  {| atomId := atomId c; prevValue := prev; newValue := new;
     timestamp := timestamp c; changeId := changeId c; source := source c;
     optimistic := optimistic c |}.

Definition push_timeline (currentChange : StateChangeEvent) : Js Store unit :=
  let! ts := now in
  let! st := get_state in
  let snapshot := state st in
  let! id := fresh_id in
  modify (λ st, set_timeline
    (timeline st ++ [{| entry_timestamp := ts; entry_snapshot := snapshot;
                        entry_change := currentChange; entry_id := id |}]) st).

(** The branch [index >= middlewares.length]: all middlewares applied.
    The field and the [optimistic] flag are read from the change
    [applyChange] was called with, the value from the change the pipeline
    delivered. *)
Definition applyFinal (change currentChange : StateChangeEvent) : Js Store unit :=
  let! st := get_state in
  let atomKey := atomId change in
  if negb (js_in (state st) atomKey) then ret tt else
  let prevValue := js_get (state st) atomKey in
  modify (set_state (<[atomKey := newValue currentChange]> (state st))) >>
  match storage st with
  | Some adapter =>
      emit (StorageSet ("state:" +:+ atomKey) (newValue currentChange)) >>
      promise_catch adapter
  | None => ret tt
  end >>
  match sync st with
  | Some adapter =>
      when (negb (optimistic change))
        (emit (SyncSend currentChange) >> promise_catch adapter)
  | None => ret tt
  end >>
  when (timeTravel st) (push_timeline currentChange) >>
  (let! st := get_state in
   match JsMap.get atomKey (atomSubscriptions st) with
   | Some subscribers =>
       for_each subscribers (λ subscriber,
         let! st := get_state in
         emit (AtomNotify subscriber
                 (with_values currentChange prevValue (js_get (state st) atomKey))))
   | None => ret tt
   end) >>
  updateSelectors atomKey >>
  when (logChanges st)
    (emit (Console console_group "State change") >>
     emit (Console console_log "Atom:") >>
     emit (Console console_log "Previous:") >>
     emit (Console console_log "New:") >>
     emit (Console console_log "Change:") >>
     emit (Console console_groupEnd "")).

(** [applyMiddlewares(index, currentChange)], with [mws] the middlewares
    from [index] on: the middleware at [index] is run on [currentChange]
    and each of its calls [next(nextChange)] continues at [index + 1]. *)
Fixpoint applyMiddlewares (mws : list Middleware)
    (change currentChange : StateChangeEvent) : Js Store unit :=
  match mws with
  | [] => applyFinal change currentChange
  | mw :: rest =>
      for_each (mw_run mw currentChange) (λ nextChange,
        applyMiddlewares rest change nextChange)
  end.

Definition applyChange (change : StateChangeEvent) : Js Store unit :=
  let! st := get_state in
  if isPaused st then ret tt
  else applyMiddlewares (middlewares st) change change.

(** The changes that reach the final branch, in order. *)
Fixpoint pipeline (mws : list Middleware) (currentChange : StateChangeEvent)
    : list StateChangeEvent :=
  match mws with
  | [] => [currentChange]
  | mw :: rest => mw_run mw currentChange ≫= pipeline rest
  end.

(** ** The transport subscription (lines 112-120) *)

(** The callback handed to [sync.subscribeToChanges]. *)
Definition onSyncChange (change : StateChangeEvent) : Js Store unit :=
  let! st := get_state in
  if bool_decide (source change = clientId st) then ret tt
  else applyChange change.

(** ** [createChangeEvent] and [updateAtom] (lines 211-249) *)

Definition createChangeEvent (atomId : string) (newValue : Value)
    (optimistic : bool) : Js Store StateChangeEvent :=
  let! st := get_state in
  let prev := js_get (state st) atomId in
  let! ts := now in
  let! id := fresh_id in
  ret {| atomId := atomId; prevValue := prev; newValue := newValue;
         timestamp := ts; changeId := id; source := clientId st;
         optimistic := optimistic |}.

(** [atoms[atomId].validate(value)]: a [TypeError] when [atoms] has no
    such atom, the validator's error when it rejects the value. *)
Definition validate (atomId : string) (value : Value) : Js Store Value :=
  let! st := get_state in
  match JsMap.get atomId (atoms st) with
  | None => throw TypeError
  | Some atom =>
      match atom_validate atom value with
      | Some validated => ret validated
      | None => throw ZodError
      end
  end.

(** The argument of [updateAtom]: [T | ((current: T) => T)]. *)
Inductive UpdateArg :=
| Direct (value : Value)
| Updater (f : Value → Value).

(** [typeof value === 'function' ? value(currentValue) : value]. *)
Definition proposed (value : UpdateArg) (currentValue : Value) : Value :=
  match value with
  | Updater f => f currentValue
  | Direct v => v
  end.

Definition updateAtom (atomId : string) (value : UpdateArg)
    (optimistic : bool) : Js Store unit :=
  let! st := get_state in
  let currentValue := js_get (state st) atomId in
  let newValue := proposed value currentValue in
  try_catch
    (let! validatedValue := validate atomId newValue in
     let! change := createChangeEvent atomId validatedValue optimistic in
     applyChange change)
    (λ error,
       emit (Console console_error ("Invalid value for atom " +:+ atomId +:+ ":")) >>
       throw error).

(** ** Transactions (lines 252-282) *)

(** The two maps a transaction object closes over. *)
Record Transaction := {
  changes : JsMap.t Value;
  previousValues : JsMap.t Value;
}.

Definition createTransaction : Transaction :=
  {| changes := []; previousValues := [] |}.

(** A method of a transaction sees the store and its own maps. *)
Definition lift_store {A} (m : Js Store A) : Js (Store * Transaction) A := λ s,
  match m (fst s) with
  | (r, st', t) => (r, (st', snd s), t)
  end.

Definition modify_tx (f : Transaction → Transaction)
    : Js (Store * Transaction) unit :=
  modify (λ s, (fst s, f (snd s))).

Definition tx_update (atomId : string) (value : Value)
    : Js (Store * Transaction) unit :=
  let! s := get_state in
  when (negb (JsMap.has atomId (previousValues (snd s))))
    (modify_tx (λ tx,
       {| changes := changes tx;
          previousValues :=
            JsMap.set atomId (js_get (state (fst s)) atomId) (previousValues tx) |})) >>
  let! validated := lift_store (validate atomId value) in
  modify_tx (λ tx,
    {| changes := JsMap.set atomId validated (changes tx);
       previousValues := previousValues tx |}).

Definition tx_commit : Js (Store * Transaction) unit :=
  let! s := get_state in
  for_each (changes (snd s)) (λ entry,
    lift_store (updateAtom (fst entry) (Direct (snd entry)) false)) >>
  modify_tx (λ _, {| changes := []; previousValues := [] |}).

Definition tx_rollback : Js (Store * Transaction) unit :=
  modify_tx (λ _, {| changes := []; previousValues := [] |}).

(** ** Selectors (lines 313-400) *)

(** A selector function handed to the store: one returned by
    [createSelector] carries its [id], any other function does not. *)
Inductive SelectorRef :=
| Created (selectorId : string) (selector : Selector)
| Plain (selector : Selector).

Definition createSelector (selector : Selector)
    (explicitDeps : option (list string)) : Js Store SelectorRef :=
  let! selectorId := fresh_id in
  let! st := get_state in
  let declared := JsSet.of_strings (default [] explicitDeps) in
  let deps :=
    match explicitDeps with
    | Some (_ :: _) => declared
    | _ => select_tracked selector (state st) declared
    end in
  modify (λ st, set_selectorCache
    (JsMap.set selectorId {| deps := deps; compute := selector |}
       (selectorCache st)) st) >>
  ret (Created selectorId selector).

(** [subscribeToSelector] once the selector has an id. *)
Definition subscribeToCreated (selectorId : string) (callback : Callback)
    : Js Store unit :=
  let! st := get_state in
  let subscribers := default [] (JsMap.get selectorId (selectorSubscriptions st)) in
  modify (set_selectorSubscriptions
    (JsMap.set selectorId (JsSet.add callback subscribers)
       (selectorSubscriptions st))) >>
  match JsMap.get selectorId (selectorCache st) with
  | Some cachedSelector =>
      let! st := get_state in
      let value := select (compute cachedSelector) (state st) in
      emit (SelectorCompute selectorId (state st) value) >>
      emit (SelectorNotify selectorId callback value)
  | None => ret tt
  end.

(** Returns the id under which the callback was subscribed. *)
Definition subscribeToSelector (selector : SelectorRef) (callback : Callback)
    : Js Store string :=
  match selector with
  | Created selectorId _ =>
      subscribeToCreated selectorId callback >> ret selectorId
  | Plain sel =>
      let! newSelector := createSelector sel None in
      match newSelector with
      | Created selectorId _ =>
          subscribeToCreated selectorId callback >> ret selectorId
      | Plain _ => throw TypeError
      end
  end.

(** The function [subscribeToSelector] returns. *)
Definition unsubscribeFromSelector (selectorId : string) (callback : Callback)
    : Js Store unit :=
  let! st := get_state in
  match JsMap.get selectorId (selectorSubscriptions st) with
  | Some subscribers =>
      let remaining := JsSet.delete callback subscribers in
      modify (set_selectorSubscriptions
        (match remaining with
         | [] => JsMap.delete selectorId (selectorSubscriptions st)
         | _ => JsMap.set selectorId remaining (selectorSubscriptions st)
         end))
  | None => ret tt
  end.

(** ** The public API (lines 403-464) *)

Definition getState : Js Store (gmap string Value) :=
  let! st := get_state in ret (state st).

Definition subscribe (atomId : string) (callback : Callback) : Js Store unit :=
  let! st := get_state in
  let subscribers := default [] (JsMap.get atomId (atomSubscriptions st)) in
  modify (set_atomSubscriptions
    (JsMap.set atomId (JsSet.add callback subscribers) (atomSubscriptions st))).

(** The function [subscribe] returns. *)
Definition unsubscribe (atomId : string) (callback : Callback) : Js Store unit :=
  let! st := get_state in
  match JsMap.get atomId (atomSubscriptions st) with
  | Some subscribers =>
      modify (set_atomSubscriptions
        (JsMap.set atomId (JsSet.delete callback subscribers)
           (atomSubscriptions st)))
  | None => ret tt
  end.

Definition resetState : Js Store unit :=
  let! st := get_state in
  for_each (atoms st) (λ entry,
    updateAtom (fst entry) (Direct (atom_default (snd entry))) false).

Definition dispose : Js Store unit :=
  modify (set_atomSubscriptions []) >>
  modify (set_selectorSubscriptions []) >>
  let! st := get_state in
  match sync st with
  | Some _ => emit SyncClose
  | None => ret tt
  end.

(** ** The debug API (lines 467-517) *)

Definition travelTo (entryId : string) : Js Store unit :=
  let! st := get_state in
  match list_find (λ e, entry_id e = entryId) (timeline st) with
  | Some (_, entry) =>
      modify (set_state (entry_snapshot entry)) >>
      for_each (atomSubscriptions st) (λ subscription,
        for_each (snd subscription) (λ subscriber,
          let! st := get_state in
          let value := js_get (state st) (fst subscription) in
          let! ts := now in
          let! id := fresh_id in
          emit (AtomNotify subscriber
                  {| atomId := fst subscription; prevValue := undefined;
                     newValue := value; timestamp := ts; changeId := id;
                     source := clientId st; optimistic := false |}))) >>
      updateSelectors "*"
  | None => ret tt
  end.

Definition clearTimeline : Js Store unit :=
  modify (set_timeline []).

Definition togglePause : Js Store bool :=
  modify (λ st, set_isPaused (negb (isPaused st)) st) >>
  let! st := get_state in ret (isPaused st).

Definition addMiddleware (middleware : Middleware) : Js Store unit :=
  modify (λ st, set_middlewares (middlewares st ++ [middleware]) st).

(** The function [addMiddleware] returns: [indexOf] then [splice]. *)
Fixpoint remove_first (id : nat) (mws : list Middleware) : list Middleware :=
  match mws with
  | [] => []
  | mw :: rest =>
      if bool_decide (mw_id mw = id) then rest else mw :: remove_first id rest
  end.

Definition removeMiddleware (middleware : Middleware) : Js Store unit :=
  modify (λ st, set_middlewares (remove_first (mw_id middleware) (middlewares st)) st).

(** ** [createStateManager] (lines 20-121) *)

Record StateManagerConfig := {
  config_schema : list (string * (Value → option Value));
  config_initialState : option (list (string * Value));
  config_storageAdapter : option (StorageAdapterType + Returns);
  config_syncAdapter : option (SyncAdapterType + Returns);
  config_debug : option DebugOptions;
}.

(** The loop over [Object.entries(config.schema)]: [None] when a schema
    rejects [undefined], which makes [createStateManager] throw. *)
Fixpoint init_atoms (schema : list (string * (Value → option Value)))
    (atoms : JsMap.t Atom) (initialState : gmap string Value)
    (subscriptions : JsMap.t JsSet.t)
    : option (JsMap.t Atom * gmap string Value * JsMap.t JsSet.t) :=
  match schema with
  | [] => Some (atoms, initialState, subscriptions)
  | (key, parse) :: rest =>
      match parse undefined with
      | None => None
      | Some defaultValue =>
          init_atoms rest
            (JsMap.set key {| atom_id := key; atom_default := defaultValue;
                              atom_validate := parse |} atoms)
            (<[key := defaultValue]> initialState)
            (JsMap.set key [] subscriptions)
      end
  end.

(** The loop over [Object.entries(config.initialState)]. *)
Fixpoint apply_overrides (atoms : JsMap.t Atom) (overrides : list (string * Value))
    (initialState : gmap string Value) : gmap string Value * list Effect :=
  match overrides with
  | [] => (initialState, [])
  | (key, value) :: rest =>
      if js_in initialState key then
        match JsMap.get key atoms with
        | Some atom =>
            match atom_validate atom value with
            | Some validated =>
                apply_overrides atoms rest (<[key := validated]> initialState)
            | None =>
                let '(s, t) := apply_overrides atoms rest initialState in
                (s, Console console_error ("Invalid initial value for atom " +:+ key +:+ ":") :: t)
            end
        | None =>
            let '(s, t) := apply_overrides atoms rest initialState in
            (s, Console console_error ("Invalid initial value for atom " +:+ key +:+ ":") :: t)
        end
      else apply_overrides atoms rest initialState
  end.

Definition createStateManager (config : StateManagerConfig)
    : Completion Store * list Effect :=
  match init_atoms (config_schema config) [] ∅ [] with
  | None => (Throw ZodError, [])
  | Some (atoms, initialState, subscriptions) =>
      let '(initialState, logged) :=
        apply_overrides atoms (default [] (config_initialState config)) initialState in
      let storage :=
        match config_storageAdapter config with
        | Some (inl type) => Some (createStorageAdapter type)
        | Some (inr adapter) => Some adapter
        | None => None
        end in
      let sync :=
        match config_syncAdapter config with
        | Some (inl type) =>
            match createSyncAdapter type with
            | Normal adapter => Normal (Some adapter)
            | Throw e => Throw e
            end
        | Some (inr adapter) => Normal (Some adapter)
        | None => Normal None
        end in
      match sync with
      | Throw e => (Throw e, logged)
      | Normal sync =>
          (Normal {| clientId := nanoid 0; atoms := atoms; state := initialState;
                     atomSubscriptions := subscriptions;
                     selectorSubscriptions := []; selectorCache := [];
                     timeline := []; isPaused := false;
                     storage := storage; sync := sync; middlewares := [];
                     debug := config_debug config;
                     idsDrawn := 1; clockReads := 0 |},
           logged
           ++ match storage, config_schema config with
              | Some _, (key, _) :: _ => [StorageGet ("state:" +:+ key)]
              | _, _ => []
              end
           ++ match sync with
              | Some _ => [SyncInitialize; SyncSubscribe]
              | None => []
              end)
      end
  end.

(** One turn of the loop of [loadFromStorage] once [storage.get] has
    answered for [key]: [None] is [null]. The assignment is to a property
    of the current [state] object. *)
Definition storageLoaded (key : string) (storedValue : option Value)
    : Js Store unit :=
  match storedValue with
  | None => ret tt
  | Some value =>
      try_catch
        (let! validated := validate key value in
         modify (λ st, set_state (<[key := validated]> (state st)) st))
        (λ _, emit (Console console_error
                      ("Failed to load state for " +:+ key +:+ " from storage:")))
  end.

(** ** What a completed [applyFinal] amounts to *)

(** The effects of [updateSelectors atomId] in store [st]. *)
Definition selector_effects (atomId : string) (st : Store) : list Effect :=
  affectedSelectors atomId (selectorCache st) ≫= λ selectorId,
    match JsMap.get selectorId (selectorCache st) with
    | None => []
    | Some cachedSelector =>
        let newValue := select (compute cachedSelector) (state st) in
        SelectorCompute selectorId (state st) newValue ::
        (default [] (JsMap.get selectorId (selectorSubscriptions st)) ≫= λ subscriber,
           [SelectorNotify selectorId subscriber newValue])
    end.

(** The invocations of the subscribers of [atomKey] with [event]. *)
Definition notified (st : Store) (atomKey : string) (event : StateChangeEvent)
    : list Effect :=
  default [] (JsMap.get atomKey (atomSubscriptions st)) ≫= λ subscriber,
    [AtomNotify subscriber event].

(** The event the subscribers are handed. *)
Definition delivered_event (st : Store) (change currentChange : StateChangeEvent)
    : StateChangeEvent :=
  with_values currentChange (js_get (state st) (atomId change)) (newValue currentChange).

(** The store after [applyFinal change currentChange] ran to its end. *)
Definition applied_store (st : Store) (change currentChange : StateChangeEvent)
    : Store :=
  let st1 := set_state (<[atomId change := newValue currentChange]> (state st)) st in
  if timeTravel st then
    set_timeline
      (timeline st ++
         [{| entry_timestamp := date_now (clockReads st);
             entry_snapshot := state st1;
             entry_change := currentChange;
             entry_id := nanoid (idsDrawn st) |}])
      (set_idsDrawn (S (idsDrawn st)) (set_clockReads (S (clockReads st)) st1))
  else st1.

(** The effects of [applyFinal change currentChange] when it ran to its
    end. *)
Definition applied_trace (st : Store) (change currentChange : StateChangeEvent)
    : list Effect :=
  match storage st with
  | Some _ => [StorageSet ("state:" +:+ atomId change) (newValue currentChange)]
  | None => []
  end
  ++ match sync st with
     | Some _ => if optimistic change then [] else [SyncSend currentChange]
     | None => []
     end
  ++ notified st (atomId change) (delivered_event st change currentChange)
  ++ selector_effects (atomId change) (applied_store st change currentChange)
  ++ (if logChanges st then
        [Console console_group "State change"; Console console_log "Atom:";
         Console console_log "Previous:"; Console console_log "New:";
         Console console_log "Change:"; Console console_groupEnd ""]
      else []).

(** The store once [createChangeEvent] has read the clock and drawn an
    id, and the event it returns. *)
Definition stamped (st : Store) : Store :=
  set_idsDrawn (S (idsDrawn st)) (set_clockReads (S (clockReads st)) st).

Definition created_event (st : Store) (atomId : string) (newValue : Value)
    (optimistic : bool) : StateChangeEvent :=
  {| atomId := atomId; prevValue := js_get (state st) atomId;
     newValue := newValue; timestamp := date_now (clockReads st);
     changeId := nanoid (idsDrawn st); source := clientId st;
     optimistic := optimistic |}.

(** The calls of [.catch] that [applyFinal] reaches for [change] succeed:
    no adapter method it calls hands back [undefined]. *)
Definition catch_safe (st : Store) (change : StateChangeEvent) : Prop :=
  storage st ≠ Some ReturnsVoid ∧
  (optimistic change = true ∨ sync st ≠ Some ReturnsVoid).

(** The conditions under which every change handed to [applyChange] runs
    to the end of the final branch: the store is not paused, the
    middlewares pass each change on once and as it is, and no adapter
    method hands back [undefined]. *)
Definition runs_clean (st : Store) : Prop :=
  isPaused st = false
  ∧ (∀ change, pipeline (middlewares st) change = [change])
  ∧ storage st ≠ Some ReturnsVoid
  ∧ sync st ≠ Some ReturnsVoid.

(** [tx.update(k1, v1). ... .update(kn, vn)]. *)
Definition tx_updates (updates : list (string * Value))
    : Js (Store * Transaction) unit :=
  for_each updates (λ u, tx_update (fst u) (snd u)).

(** ** Reading a trace *)

Definition sync_sends (t : list Effect) : list StateChangeEvent :=
  omap (λ e, match e with SyncSend c => Some c | _ => None end) t.

Definition storage_sets (t : list Effect) : list (string * Value) :=
  omap (λ e, match e with StorageSet k v => Some (k, v) | _ => None end) t.

Definition atom_notifications (t : list Effect)
    : list (Callback * StateChangeEvent) :=
  omap (λ e, match e with AtomNotify s c => Some (s, c) | _ => None end) t.

Definition selector_computes (t : list Effect)
    : list (string * gmap string Value * Value) :=
  omap (λ e, match e with
             | SelectorCompute id snapshot v => Some (id, snapshot, v)
             | _ => None
             end) t.

Definition selector_notifications (t : list Effect)
    : list (string * Callback * Value) :=
  omap (λ e, match e with
             | SelectorNotify id s v => Some (id, s, v)
             | _ => None
             end) t.

Definition console_calls (t : list Effect) : list (ConsoleMethod * string) :=
  omap (λ e, match e with Console m msg => Some (m, msg) | _ => None end) t.

(** The outcome of a computation, taken apart. *)
Definition completion_of {S A} (r : Completion A * S * list Effect) : Completion A :=
  fst (fst r).
Definition state_of {S A} (r : Completion A * S * list Effect) : S :=
  snd (fst r).
Definition trace_of {S A} (r : Completion A * S * list Effect) : list Effect :=
  snd r.

Global Arguments updateSelectors : simpl never.
Global Arguments validate : simpl never.
Global Arguments applyFinal : simpl never.
Global Arguments applyChange : simpl never.
Global Arguments updateAtom : simpl never.
Global Arguments tx_update : simpl never.
Global Arguments tx_commit : simpl never.
Global Arguments applied_trace : simpl never.
Global Arguments applied_store : simpl never.
Global Arguments selector_effects : simpl never.

End Model.

Notation "'let!' x ':=' m 'in' k" := (bind m (λ x, k))
  (at level 10, x name, m at level 100, k at level 200).
Notation "m '>>' k" := (bind m (λ _, k))
  (at level 100, k at level 200, right associativity).

Arguments Atom : clear implicits.
Arguments StateChangeEvent : clear implicits.
Arguments TimelineEntry : clear implicits.
Arguments Selector : clear implicits.
Arguments CachedSelector : clear implicits.
Arguments Middleware : clear implicits.
Arguments Effect : clear implicits.
Arguments Store : clear implicits.
Arguments Transaction : clear implicits.
Arguments UpdateArg : clear implicits.
Arguments SelectorRef : clear implicits.
Arguments StateManagerConfig : clear implicits.
Arguments Js : clear implicits.

(** ** Views of the model used to state its properties *)

Section Views.
Context {Value : Type} `{!JsRuntime Value}.

(** The properties [selector(target)] reads, in the order it reads them. *)
Fixpoint reads (sel : Selector Value) (target : gmap string Value) : list string :=
  match sel with
  | SelReturn _ => []
  | SelRead prop k => prop :: reads (k (js_get target prop)) target
  end.

(** What a subscriber invocation carries, without the stamp of the event. *)
Definition atom_deliveries (t : list (Effect Value))
    : list (Callback * string * Value * Value) :=
  omap (λ e, match e with
             | AtomNotify s c => Some (s, atomId c, prevValue c, newValue c)
             | _ => None
             end) t.

(** The entry of the timeline [travelTo] finds. *)
Definition find_entry (entryId : string) (entries : list (TimelineEntry Value))
    : option (TimelineEntry Value) :=
  snd <$> list_find (λ e, entry_id e = entryId) entries.

(** The store after the changes [changes] went through [applyChange] one
    after the other, however each call ended. *)
Definition applyChanges (changes : list (StateChangeEvent Value)) (st : Store Value)
    : Store Value :=
  foldl (λ s change, state_of (applyChange change s)) st changes.

(** The loop of [travelTo] over [atomSubscriptions.entries()], as entered
    from the store [st0]. *)
Definition notify_all_subscribers (st0 : Store Value) : Js Value (Store Value) unit :=
  for_each (atomSubscriptions st0) (λ subscription,
    for_each (snd subscription) (λ subscriber,
      let! st := get_state in
      let value := js_get (state st) (fst subscription) in
      let! ts := now in
      let! id := fresh_id in
      emit (AtomNotify subscriber
              {| atomId := fst subscription; prevValue := undefined;
                 newValue := value; timestamp := ts; changeId := id;
                 source := clientId st; optimistic := false |}))).

(** Everything of the store but its snapshot, its timeline and the two
    counters: what [applyChange] never assigns. *)
Definition wiring (st : Store Value) :=
  (clientId st, atoms st, atomSubscriptions st, selectorSubscriptions st,
   selectorCache st, isPaused st, storage st, sync st, middlewares st, debug st).

End Views.

(** ** The setter of [useAtom] ([src/hooks/use-atom.ts], lines 36-53) *)

Section Hooks.
Context {Value : Type} `{!JsRuntime Value}.

(** [const transaction = stateManager.transaction(); ...]: the calls on a
    transaction created for the occasion and dropped afterwards. *)
Definition with_transaction {A} (m : Js Value (Store Value * Transaction Value) A)
    : Js Value (Store Value) A := λ st,
  match m (st, createTransaction) with
  | (r, s, t) => (r, fst s, t)
  end.

(** [updateAtom] of the hook: the new value goes through a transaction of
    one update. *)
Definition useAtom_updateAtom (atom : Atom Value) (newValue : UpdateArg Value)
    : Js Value (Store Value) unit :=
  let! st := get_state in
  let currentValue := js_get (state st) (atom_id atom) in
  let valueToSet := proposed newValue currentValue in
  with_transaction (tx_update (atom_id atom) valueToSet >> tx_commit).

End Hooks.

(** ** Namespaced synchronisation ([src/utils/state-utils.ts], lines 229-251) *)

(** [s.startsWith(p)]. *)
Fixpoint startsWith (p s : string) : bool :=
  match p, s with
  | EmptyString, _ => true
  | String a p', String b s' => bool_decide (a = b) && startsWith p' s'
  | String _ _, EmptyString => false
  end.

(** [s.substring(start)]. *)
Fixpoint substring (start : nat) (s : string) : string :=
  match start, s with
  | O, _ => s
  | S n, String _ s' => substring n s'
  | S _, EmptyString => EmptyString
  end.

Section Namespaces.
Context {Value : Type}.

(** [{ ...change, atomId }]. *)
Definition with_atomId (change : StateChangeEvent Value) (id : string)
    : StateChangeEvent Value :=
  {| atomId := id; prevValue := prevValue change; newValue := newValue change;
     timestamp := timestamp change; changeId := changeId change;
     source := source change; optimistic := optimistic change |}.

(** [sendChange] of the adapter handed to the sub-store: the change the
    parent's adapter is asked to send. *)
Definition namespaced_sendChange (namespace : string) (change : StateChangeEvent Value)
    : StateChangeEvent Value :=
  with_atomId change (namespace +:+ ":" +:+ atomId change).

(** The filter installed by [subscribeToChanges]: the change the
    sub-store's callback is called with, if it is called. *)
Definition namespaced_onChange (namespace : string) (change : StateChangeEvent Value)
    : option (StateChangeEvent Value) :=
  if startsWith (namespace +:+ ":") (atomId change)
  then Some (with_atomId change
               (substring (String.length namespace + 1) (atomId change)))
  else None.

End Namespaces.

(** ** The in-memory storage adapter ([src/adapters/storage-adapters.ts],
    lines 108-143) *)

Section MemoryStorage.
Context {Value : Type}.

(** The host's [null], [JSON.stringify] (which yields [undefined] for what
    JSON cannot express and throws on cycles) and [JSON.parse]. *)
Variable null : Value.
Variable JSON_stringify : Value → Completion (option string).
Variable JSON_parse : string → Completion Value.

(** The [Map<string, string>] of the adapter; an entry holds [undefined]
    when [JSON.stringify] returned it. *)
Definition MemoryStorage := JsMap.t (option string).

Definition memory_get (key : string) (storage : MemoryStorage)
    : Value * list (Effect Value) :=
  match JsMap.get key storage with
  | Some (Some (String a item)) =>
      match JSON_parse (String a item) with
      | Normal value => (value, [])
      | Throw _ =>
          (null, [Console console_error
                    ("Error retrieving " +:+ key +:+ " from memory storage:")])
      end
  | _ => (null, [])
  end.

Definition memory_set (key : string) (value : Value) (storage : MemoryStorage)
    : MemoryStorage * list (Effect Value) :=
  match JSON_stringify value with
  | Normal item => (JsMap.set key item storage, [])
  | Throw _ =>
      (storage, [Console console_error
                   ("Error storing " +:+ key +:+ " in memory storage:")])
  end.

(** [for (const key of storage.keys()) if (key.startsWith('state:'))
    storage.delete(key)]. *)
Definition memory_clear (storage : MemoryStorage) : MemoryStorage :=
  foldl (λ remaining key,
           if startsWith "state:" key then JsMap.delete key remaining
           else remaining)
        storage (storage.*1).

End MemoryStorage.

(** ** The queue of the WebSocket adapter ([src/adapters/sync-adapters.ts],
    lines 65-176) *)

Section WebSocket.
Context {Value : Type}.

(** Whether [JSON.stringify(change)] returns; it throws on a [BigInt] and
    on a cyclic value. [socket.send] itself is taken not to throw on an
    open socket. *)
Variable serializable : StateChangeEvent Value → bool.

(** What the adapter does to the outside. *)
Inductive SocketEffect :=
| SocketSend (change : StateChangeEvent Value)
| SocketError (message : string).

(** The variables [websocketAdapter] closes over that [sendChange] and
    [onopen] use: whether [socket] is set, [isConnected], and
    [pendingMessages]. *)
Record WebSocketAdapter := {
  ws_socket : bool;
  ws_isConnected : bool;
  ws_pendingMessages : list (StateChangeEvent Value);
}.

Definition ws_push (change : StateChangeEvent Value) (a : WebSocketAdapter)
    : WebSocketAdapter :=
  {| ws_socket := ws_socket a; ws_isConnected := ws_isConnected a;
     ws_pendingMessages := ws_pendingMessages a ++ [change] |}.

Definition ws_sendChange (change : StateChangeEvent Value) (a : WebSocketAdapter)
    : WebSocketAdapter * list SocketEffect :=
  if negb (ws_socket a) || negb (ws_isConnected a) then (ws_push change a, [])
  else if serializable change then (a, [SocketSend change])
  else (ws_push change a, [SocketError "Failed to send change via WebSocket:"]).

(** [while (pendingMessages.length > 0) { const message =
    pendingMessages.shift(); if (message) sendChange(message); }], run for
    at most [fuel] turns: [None] when the loop has not ended by then. *)
Fixpoint ws_flush (fuel : nat) (a : WebSocketAdapter)
    : option (WebSocketAdapter * list SocketEffect) :=
  match ws_pendingMessages a with
  | [] => Some (a, [])
  | message :: rest =>
      match fuel with
      | O => None
      | S fuel' =>
          let '(a1, t1) :=
            ws_sendChange message
              {| ws_socket := ws_socket a; ws_isConnected := ws_isConnected a;
                 ws_pendingMessages := rest |} in
          match ws_flush fuel' a1 with
          | Some (a2, t2) => Some (a2, t1 ++ t2)
          | None => None
          end
      end
  end.

(** [socket.onopen]. *)
Definition ws_onopen (fuel : nat) (a : WebSocketAdapter)
    : option (WebSocketAdapter * list SocketEffect) :=
  ws_flush fuel {| ws_socket := ws_socket a; ws_isConnected := true;
                   ws_pendingMessages := ws_pendingMessages a |}.

(** [sendChange] called with each of [changes] in turn. *)
Definition ws_sendChanges (changes : list (StateChangeEvent Value))
    (a : WebSocketAdapter) : WebSocketAdapter * list SocketEffect :=
  foldl (λ r change,
           let '(a1, t1) := ws_sendChange change (fst r) in (a1, snd r ++ t1))
        (a, []) changes.

End WebSocket.

Arguments SocketEffect : clear implicits.
Arguments WebSocketAdapter : clear implicits.

(** ** A concrete runtime and concrete stores *)

Module Demo.

(** JSON-like values, and built-in function objects by name. *)
Inductive JsValue :=
| JsUndefined
| JsNumber (n : Z)
| JsString (s : string)
| JsNative (name : string).

Definition prototype_members : list string :=
  ["constructor"; "hasOwnProperty"; "isPrototypeOf"; "propertyIsEnumerable";
   "toLocaleString"; "toString"; "valueOf"; "__proto__";
   "__defineGetter__"; "__defineSetter__"; "__lookupGetter__";
   "__lookupSetter__"].

#[export] Instance runtime : JsRuntime JsValue := {|
  undefined := JsUndefined;
  object_prototype := λ key,
    if bool_decide (key ∈ prototype_members) then Some (JsNative key) else None;
  nanoid := λ n, String.append "id" (String (Ascii.ascii_of_nat (48 + n)) EmptyString);
  date_now := λ n, (1700000000000 + Z.of_nat n)%Z;
|}.

(** [z.number().min(0).default(0)]. *)
Definition count_schema (raw : JsValue) : option JsValue :=
  match raw with
  | JsUndefined => Some (JsNumber 0)
  | JsNumber n => if (0 <=? n)%Z then Some (JsNumber n) else None
  | _ => None
  end.

(** [z.string().default("")]. *)
Definition name_schema (raw : JsValue) : option JsValue :=
  match raw with
  | JsUndefined => Some (JsString "")
  | JsString s => Some (JsString s)
  | _ => None
  end.

Definition config (storage : option (StorageAdapterType + Returns))
    (sync : option (SyncAdapterType + Returns)) : StateManagerConfig JsValue :=
  {| config_schema := [("count", count_schema); ("name", name_schema)];
     config_initialState := None;
     config_storageAdapter := storage;
     config_syncAdapter := sync;
     config_debug := None |}.

(** The store a configuration yields; [createStateManager] does not throw
    on the configurations used below. *)
Definition create (storage : option (StorageAdapterType + Returns))
    (sync : option (SyncAdapterType + Returns)) : Store JsValue :=
  match fst (createStateManager (config storage sync)) with
  | Normal st => st
  | Throw _ =>
      {| clientId := ""; atoms := []; state := ∅; atomSubscriptions := [];
         selectorSubscriptions := []; selectorCache := []; timeline := [];
         isPaused := false; storage := None; sync := None; middlewares := [];
         debug := None; idsDrawn := 0; clockReads := 0 |}
  end.

(** Runs a sequence of set-up calls and keeps the store. *)
Definition after {A} (m : Js JsValue (Store JsValue) A) (st : Store JsValue)
    : Store JsValue :=
  snd (fst (m st)).

Definition count_atom : Atom JsValue :=
  {| atom_id := "count"; atom_default := JsNumber 0; atom_validate := count_schema |}.

Definition name_atom : Atom JsValue :=
  {| atom_id := "name"; atom_default := JsString ""; atom_validate := name_schema |}.

(** [state => state.count]. *)
Definition count_selector : Selector JsValue :=
  SelRead "count" (λ v, SelReturn v).

(** No adapter at all; callback 7 subscribed to [count], callback 8 to
    [name]. *)
Definition plain_store : Store JsValue :=
  after (subscribe "count" 7 >> subscribe "name" 8) (create None None).

(** Adapters supplied by the caller, whose methods are [async]. *)
Definition async_store : Store JsValue :=
  after (subscribe "count" 7 >> subscribe "name" 8)
    (create (Some (inr ReturnsPromise)) (Some (inr ReturnsPromise))).

(** The configuration of the README:
    [storageAdapter: 'localStorage', syncAdapter: 'broadcastChannel']. *)
Definition readme_store : Store JsValue :=
  after (subscribe "count" 7 >> subscribe "name" 8)
    (create (Some (inl localStorage)) (Some (inl broadcastChannel))).

(** [selectors.create(state => state.count, ['count'])], then
    [selectors.subscribe] of callback 9, on a store. *)
Definition with_count_selector (st : Store JsValue) : Store JsValue :=
  after (let! created := createSelector count_selector (Some ["count"]) in
         subscribeToSelector created 9) st.

(** A change as a peer would send it. *)
Definition peer_change (field : string) (value : JsValue) (optimistic : bool)
    : StateChangeEvent JsValue :=
  {| atomId := field; prevValue := JsUndefined; newValue := value;
     timestamp := 1700000000500; changeId := "peer-change"; source := "peer";
     optimistic := optimistic |}.

(** The echo of a change of the store's own. *)
Definition echoed_change (st : Store JsValue) : StateChangeEvent JsValue :=
  {| atomId := "count"; prevValue := JsNumber 0; newValue := JsNumber 3;
     timestamp := 1700000000500; changeId := "own-change";
     source := clientId st; optimistic := false |}.

(** A store with the debug API: time travel on, logging off. *)
Definition debug_config : StateManagerConfig JsValue :=
  {| config_schema := [("count", count_schema); ("name", name_schema)];
     config_initialState := None;
     config_storageAdapter := None;
     config_syncAdapter := None;
     config_debug := Some {| debug_enabled := true; debug_logChanges := false;
                             debug_timeTravel := true |} |}.

Definition debug_store : Store JsValue :=
  match fst (createStateManager debug_config) with
  | Normal st => after (subscribe "count" 7 >> subscribe "name" 8) st
  | Throw _ => plain_store
  end.

(** A middleware that never calls [next]. *)
Definition veto : Middleware JsValue := {| mw_id := 1; mw_run := λ _, [] |}.

(** [z.number().max(9).transform(n => n + 10).default(0)]: what it
    returns it does not accept. *)
Definition level_schema (raw : JsValue) : option JsValue :=
  match raw with
  | JsUndefined => Some (JsNumber 10)
  | JsNumber n => if (n <=? 9)%Z then Some (JsNumber (n + 10)) else None
  | _ => None
  end.

Definition level_atom : Atom JsValue :=
  {| atom_id := "level"; atom_default := JsNumber 10; atom_validate := level_schema |}.

Definition level_config : StateManagerConfig JsValue :=
  {| config_schema := [("count", count_schema); ("level", level_schema)];
     config_initialState := None;
     config_storageAdapter := None;
     config_syncAdapter := None;
     config_debug := None |}.

Definition level_store : Store JsValue :=
  match fst (createStateManager level_config) with
  | Normal st => after (subscribe "count" 7) st
  | Throw _ => plain_store
  end.

(** [state => state.count === 0 ? state.count : state.name]: what it
    reads depends on what it finds. *)
Definition conditional_selector : Selector JsValue :=
  SelRead "count" (λ v,
    match v with
    | JsNumber 0 => SelReturn v
    | _ => SelRead "name" (λ w, SelReturn w)
    end).

(** [z.number()]: a schema without a default. *)
Definition required_schema (raw : JsValue) : option JsValue :=
  match raw with
  | JsNumber n => Some (JsNumber n)
  | _ => None
  end.

Definition required_config : StateManagerConfig JsValue :=
  {| config_schema := [("count", count_schema); ("total", required_schema)];
     config_initialState := None;
     config_storageAdapter := None;
     config_syncAdapter := None;
     config_debug := None |}.

(** [initialState: { count: 3, name: 1 }]: the second value is not a
    string. *)
Definition overriding_config : StateManagerConfig JsValue :=
  {| config_schema := [("count", count_schema); ("name", name_schema)];
     config_initialState := Some [("count", JsNumber 3); ("name", JsNumber 1)];
     config_storageAdapter := None;
     config_syncAdapter := None;
     config_debug := None |}.

(** The store with the debug API after [count] was set to 5 and then to
    8: its timeline has two entries. *)
Definition travelled_store : Store JsValue :=
  after (updateAtom "count" (Direct (JsNumber 5)) false >>
         updateAtom "count" (Direct (JsNumber 8)) false) debug_store.

(** [JSON.stringify] and [JSON.parse] where the values are [null] and the
    integers. Texts that denote other values do not arise: the map of the
    adapter holds what [JSON.stringify] returned. *)
Definition json_stringify (value : option Z) : Completion (option string) :=
  Normal (Some match value with
               | Some n => NilZero.string_of_int (Z.to_int n)
               | None => "null"
               end).

Definition json_parse (item : string) : Completion (option Z) :=
  if bool_decide (item = "null") then Normal None
  else match NilZero.int_of_string item with
       | Some n =>
           if bool_decide (NilZero.string_of_int (Z.to_int (Z.of_int n)) = item)
           then Normal (Some (Z.of_int n))
           else Throw (Error "Unexpected token")
       | None => Throw (Error "Unexpected token")
       end.

(** A change whose value is the [BigInt] [n]: [JSON.stringify] throws on
    every one of them. *)
Definition bigint_change (n : Z) : StateChangeEvent Z :=
  {| atomId := "total"; prevValue := 0%Z; newValue := n;
     timestamp := 1700000000500; changeId := "big"; source := "peer";
     optimistic := false |}.

End Demo.

(** ** The specification's wording of the statements the code departs from *)

Section Wording.
Context {Value : Type} `{!JsRuntime Value}.

(** As the specification words it: a change received from the transport
    whose source differs from the local identity is never passed to the
    transport's [sendChange]. *)
Definition never_rebroadcast (st : Store Value) (change : StateChangeEvent Value)
    : Prop :=
  source change ≠ clientId st →
  change ∉ sync_sends (trace_of (onSyncChange change st)).

(** As the specification words it: the persistence collaborator's [set] is
    called for an applied change exactly when the change is not
    optimistic. *)
Definition persisted_unless_optimistic (st : Store Value)
    (change : StateChangeEvent Value) : Prop :=
  storage_sets (trace_of (applyChange change st))
  = if optimistic change then []
    else [("state:" +:+ atomId change, newValue change)].

(** As the specification words it: a change to a field the schema does
    not have is dropped and logged; snapshot and timeline stay, nobody is
    notified, nothing is persisted or sent. *)
Definition dropped_and_logged (st : Store Value) (change : StateChangeEvent Value)
    : Prop :=
  JsMap.get (atomId change) (atoms st) = None →
  state (state_of (applyChange change st)) = state st
  ∧ timeline (state_of (applyChange change st)) = timeline st
  ∧ atom_notifications (trace_of (applyChange change st)) = []
  ∧ selector_notifications (trace_of (applyChange change st)) = []
  ∧ storage_sets (trace_of (applyChange change st)) = []
  ∧ sync_sends (trace_of (applyChange change st)) = []
  ∧ console_calls (trace_of (applyChange change st)) ≠ [].

End Wording.

(** * Properties *)

#[local] Set Warnings "-clear-no-such-hyp".

Create HintDb js discriminated.
#[global] Hint Unfold ret bind throw get_state modify emit when try_catch
  promise_catch modify_tx lift_store : js.

(** Runs the monad operations at the head of the goal. *)
Ltac js_run := autounfold with js; cbn [fst snd].

Section Laws.
Context {Value : Type} `{!JsRuntime Value}.

Local Abbreviation Js := (Js Value).
Local Abbreviation Store := (Store Value).
Local Abbreviation Effect := (Effect Value).
Local Abbreviation StateChangeEvent := (StateChangeEvent Value).

(** *** The monad and its loops *)

Lemma bind_assoc {S A B C} (m : Js S A) (f : A → Js S B) (g : B → Js S C) st :
  bind (bind m f) g st = bind m (λ a, bind (f a) g) st.
Proof.
  unfold bind. destruct (m st) as [[[a|e] st1] t1]; [|done].
  destruct (f a st1) as [[[b|e] st2] t2]; [|done].
  destruct (g b st2) as [[r st3] t3]. by rewrite (assoc_L (++)).
Qed.

Lemma for_each_ext {S A} (xs : list A) (f g : A → Js S unit) :
  (∀ x st, f x st = g x st) → ∀ st, for_each xs f st = for_each xs g st.
Proof.
  intros Hfg. induction xs as [|x xs IH]; intros st; [done|].
  cbn [for_each]. unfold bind. rewrite Hfg.
  destruct (g x st) as [[[[]|e] st1] t1]; [|done]. by rewrite IH.
Qed.

Lemma for_each_app {S A} (xs ys : list A) (f : A → Js S unit) st :
  for_each (xs ++ ys) f st = bind (for_each xs f) (λ _, for_each ys f) st.
Proof.
  revert st. induction xs as [|x xs IH]; intros st.
  - cbn [app for_each]. unfold bind, ret. by destruct (for_each ys f st) as [[r st1] t1].
  - cbn [app for_each]. rewrite bind_assoc.
    set (k1 := λ _ : unit, for_each (xs ++ ys) f).
    set (k2 := λ _ : unit, bind (for_each xs f) (λ _, for_each ys f)).
    unfold bind. destruct (f x st) as [[[[]|e] st1] t1]; [|done].
    subst k1 k2. cbn beta. by rewrite IH.
Qed.

Lemma for_each_nested {S A B} (xs : list A) (g : A → list B) (f : B → Js S unit) st :
  for_each (xs ≫= g) f st = for_each xs (λ x, for_each (g x) f) st.
Proof.
  revert st. induction xs as [|x xs IH]; intros st; [done|].
  rewrite bind_cons, for_each_app. cbn [for_each].
  unfold bind. destruct (for_each (g x) f st) as [[[[]|e] st1] t1]; [|done].
  by rewrite IH.
Qed.

(** A loop whose body only performs effects. *)
Lemma for_each_effects {S A} (xs : list A) (body : A → Js S unit)
    (h : A → list Effect) st :
  (∀ x, body x st = (Normal tt, st, h x)) →
  for_each xs body st = (Normal tt, st, xs ≫= h).
Proof.
  intros Hbody. induction xs as [|x xs IH]; [done|].
  cbn [for_each]. unfold bind. rewrite Hbody, IH. by rewrite bind_cons.
Qed.

(** A loop whose body does nothing at all. *)
Lemma for_each_skip {S A} (xs : list A) (body : A → Js S unit) st :
  (∀ x, body x st = (Normal tt, st, [])) →
  for_each xs body st = (Normal tt, st, []).
Proof.
  intros Hbody. rewrite (for_each_effects xs body (λ _, [])); [|done].
  f_equal. induction xs as [|x xs IH]; [done|]. by rewrite bind_cons.
Qed.

(** *** The middleware pipeline *)

Lemma applyMiddlewares_pipeline (mws : list (Middleware Value))
    (change currentChange : StateChangeEvent) st :
  applyMiddlewares mws change currentChange st
  = for_each (pipeline mws currentChange) (applyFinal change) st.
Proof.
  revert currentChange st. induction mws as [|mw rest IH]; intros cur st.
  - cbn [applyMiddlewares pipeline for_each]. unfold bind, ret.
    destruct (applyFinal change cur st) as [[[[]|e] st1] t1]; [|done].
    by rewrite (right_id_L [] (++)).
  - cbn [applyMiddlewares pipeline]. rewrite for_each_nested.
    by apply for_each_ext.
Qed.

Lemma applyChange_delivered (change delivered : StateChangeEvent) st :
  isPaused st = false →
  pipeline (middlewares st) change = [delivered] →
  applyChange change st = applyFinal change delivered st.
Proof.
  intros Hrun Hpipe. unfold applyChange, bind at 1, get_state.
  rewrite Hrun, applyMiddlewares_pipeline, Hpipe. cbn [for_each].
  destruct (applyFinal change delivered st) as [[r st1] t1] eqn:E.
  unfold bind, ret. rewrite E. destruct r as [[]|e]; [|done].
  by rewrite (right_id_L [] (++)).
Qed.

(** *** [updateSelectors] and [applyFinal] *)

Lemma updateSelectors_run (atomKey : string) (st : Store) :
  updateSelectors atomKey st = (Normal tt, st, selector_effects atomKey st).
Proof.
  unfold updateSelectors, selector_effects, bind at 1, get_state.
  rewrite (for_each_effects _ _ (λ selectorId,
    match JsMap.get selectorId (selectorCache st) with
    | None => []
    | Some cachedSelector =>
        let newValue := select (compute cachedSelector) (state st) in
        SelectorCompute selectorId (state st) newValue ::
        (default [] (JsMap.get selectorId (selectorSubscriptions st)) ≫= λ subscriber,
           [SelectorNotify selectorId subscriber newValue])
    end)); [done|].
  intros selectorId. js_run.
  destruct (JsMap.get selectorId (selectorCache st)) as [cached|]; [|done].
  cbn. destruct (JsMap.get selectorId (selectorSubscriptions st)) as [subscribers|].
  - rewrite (for_each_effects _ _ (λ subscriber,
      [SelectorNotify selectorId subscriber (select (compute cached) (state st))]));
      done.
  - done.
Qed.

Lemma js_get_insert (obj : gmap string Value) (key : string) (v : Value) :
  js_get (<[key := v]> obj) key = v.
Proof. unfold js_get. by rewrite lookup_insert_eq. Qed.

Lemma applyFinal_unknown (change currentChange : StateChangeEvent) st :
  js_in (state st) (atomId change) = false →
  applyFinal change currentChange st = (Normal tt, st, []).
Proof. intros Hin. unfold applyFinal, bind, get_state. by rewrite Hin. Qed.

Lemma applyFinal_run (change currentChange : StateChangeEvent) st :
  js_in (state st) (atomId change) = true →
  catch_safe st change →
  applyFinal change currentChange st
  = (Normal tt, applied_store st change currentChange,
     applied_trace st change currentChange).
Proof.
  intros Hin [Hstorage Hsync].
  unfold applyFinal, applied_trace, applied_store, push_timeline, now, fresh_id.
  unfold bind at 1, get_state. rewrite Hin. cbn [negb].
  unfold timeTravel, logChanges, notified, delivered_event.
  destruct (storage st) as [[|]|] eqn:Es; [|done|];
    (destruct (sync st) as [[|]|] eqn:Ey;
     [|destruct Hsync as [Hopt|]; [|done]|]);
    destruct (optimistic change) eqn:Eo; try done.
  all: destruct (debug st) as [[en [|] [|]]|] eqn:Ed.
  all: js_run; cbn.
  all: destruct (JsMap.get (atomId change) (atomSubscriptions st)) as [subscribers|];
    cbn [default mbind list_bind].
  all: try (erewrite for_each_effects; [|intros subscriber; reflexivity]); cbn.
  all: rewrite ?js_get_insert, updateSelectors_run; cbn.
  all: rewrite ?(right_id_L [] (++)); reflexivity.
Qed.

(** [.catch] on the [undefined] a storage adapter's [set] returned. *)
Lemma applyFinal_storage_void (change currentChange : StateChangeEvent) st :
  js_in (state st) (atomId change) = true →
  storage st = Some ReturnsVoid →
  applyFinal change currentChange st
  = (Throw TypeError,
     set_state (<[atomId change := newValue currentChange]> (state st)) st,
     [StorageSet ("state:" +:+ atomId change) (newValue currentChange)]).
Proof.
  intros Hin Hstorage. unfold applyFinal, bind at 1, get_state.
  rewrite Hin, Hstorage. reflexivity.
Qed.

(** [.catch] on the [undefined] a sync adapter's [sendChange] returned. *)
Lemma applyFinal_sync_void (change currentChange : StateChangeEvent) st :
  js_in (state st) (atomId change) = true →
  storage st ≠ Some ReturnsVoid →
  sync st = Some ReturnsVoid →
  optimistic change = false →
  applyFinal change currentChange st
  = (Throw TypeError,
     set_state (<[atomId change := newValue currentChange]> (state st)) st,
     match storage st with
     | Some _ => [StorageSet ("state:" +:+ atomId change) (newValue currentChange)]
     | None => []
     end ++ [SyncSend currentChange]).
Proof.
  intros Hin Hstorage Hsync Hopt. unfold applyFinal, bind at 1, get_state.
  rewrite Hin, Hsync, Hopt. by destruct (storage st) as [[|]|].
Qed.

(** *** Projections of the trace of a completed [applyFinal] *)

Lemma omap_bind_nil {A B C} (g : B → option C) (h : A → list B) (xs : list A) :
  (∀ x, omap g (h x) = []) → omap g (xs ≫= h) = [].
Proof.
  intros Hh. induction xs as [|x xs IH]; [done|].
  by rewrite bind_cons, omap_app, Hh, IH.
Qed.

Lemma omap_bind_singleton {A B C} (g : B → option C) (h : A → B) (k : A → C)
    (xs : list A) :
  (∀ x, g (h x) = Some (k x)) → omap g (xs ≫= λ x, [h x]) = k <$> xs.
Proof.
  intros Hh. induction xs as [|x xs IH]; [done|].
  rewrite bind_cons, omap_app, IH. cbn. by rewrite Hh.
Qed.

Lemma selector_effects_no (g : Effect → option StateChangeEvent) atomKey st :
  (∀ id snapshot v, g (SelectorCompute id snapshot v) = None) →
  (∀ id s v, g (SelectorNotify id s v) = None) →
  omap g (selector_effects atomKey st) = [].
Proof.
  intros Hc Hn. unfold selector_effects. apply omap_bind_nil. intros id.
  destruct (JsMap.get id (selectorCache st)) as [cached|]; [|done].
  cbn. rewrite Hc. apply omap_bind_nil. intros s. cbn. by rewrite Hn.
Qed.

Lemma sync_sends_applied st (change currentChange : StateChangeEvent) :
  sync_sends (applied_trace st change currentChange)
  = match sync st with
    | Some _ => if optimistic change then [] else [currentChange]
    | None => []
    end.
Proof.
  unfold applied_trace, sync_sends. rewrite !omap_app.
  rewrite (selector_effects_no _ _ _ (λ _ _ _, eq_refl) (λ _ _ _, eq_refl)).
  unfold notified. rewrite omap_bind_nil by done.
  destruct (storage st), (sync st), (optimistic change), (logChanges st); done.
Qed.

Lemma storage_sets_applied st (change currentChange : StateChangeEvent) :
  storage_sets (applied_trace st change currentChange)
  = match storage st with
    | Some _ => [("state:" +:+ atomId change, newValue currentChange)]
    | None => []
    end.
Proof.
  unfold applied_trace, storage_sets. rewrite !omap_app.
  unfold notified, selector_effects. rewrite omap_bind_nil by done.
  rewrite (omap_bind_nil _ _ (affectedSelectors _ _)).
  - destruct (storage st), (sync st), (optimistic change), (logChanges st); done.
  - intros id. destruct (JsMap.get id _); [|done]. cbn. by apply omap_bind_nil.
Qed.

Lemma atom_notifications_applied st (change currentChange : StateChangeEvent) :
  atom_notifications (applied_trace st change currentChange)
  = (λ subscriber, (subscriber, delivered_event st change currentChange))
    <$> default [] (JsMap.get (atomId change) (atomSubscriptions st)).
Proof.
  unfold applied_trace, atom_notifications. rewrite !omap_app.
  unfold notified, selector_effects.
  rewrite (omap_bind_singleton _ _
    (λ subscriber, (subscriber, delivered_event st change currentChange))) by done.
  rewrite (omap_bind_nil _ _ (affectedSelectors _ _)).
  - destruct (storage st), (sync st), (optimistic change), (logChanges st);
      cbn; by rewrite ?(right_id_L [] (++)).
  - intros id. destruct (JsMap.get id _); [|done]. cbn. by apply omap_bind_nil.
Qed.

Lemma state_applied st (change currentChange : StateChangeEvent) :
  state (applied_store st change currentChange)
  = <[atomId change := newValue currentChange]> (state st).
Proof. unfold applied_store. by destruct (timeTravel st). Qed.

End Laws.

Section Creation.
Context {Value : Type} `{!JsRuntime Value}.

Lemma JsMap_get_set {V} (k k' : string) (v : V) (m : JsMap.t V) :
  JsMap.get k (JsMap.set k' v m)
  = if bool_decide (k' = k) then Some v else JsMap.get k m.
Proof.
  induction m as [|[k0 v0] m IH]; cbn.
  - by case_bool_decide.
  - repeat (case_bool_decide; cbn); subst; try done.
    all: rewrite ?bool_decide_eq_true_2, ?bool_decide_eq_false_2 in IH by done;
      try done; by rewrite ?bool_decide_eq_true_2, ?bool_decide_eq_false_2 by done.
Qed.

(** The first loop of [createStateManager] gives the registry and the
    snapshot one entry per key of the schema. *)
Lemma init_atoms_keys (schema : list (string * (Value → option Value)))
    atoms0 initialState0 subscriptions0 atoms initialState subscriptions :
  init_atoms schema atoms0 initialState0 subscriptions0
    = Some (atoms, initialState, subscriptions) →
  ∀ k,
    (is_Some (initialState !! k) ↔ is_Some (initialState0 !! k) ∨ k ∈ schema.*1)
    ∧ (is_Some (JsMap.get k atoms) ↔ is_Some (JsMap.get k atoms0) ∨ k ∈ schema.*1).
Proof.
  revert atoms0 initialState0 subscriptions0.
  induction schema as [|[key parse] schema IH];
    intros atoms0 initialState0 subscriptions0 Hinit k; cbn in Hinit.
  - injection Hinit as <- <- <-. set_solver.
  - destruct (parse undefined) as [defaultValue|]; [|done].
    destruct (IH _ _ _ Hinit k) as [IHs IHa].
    rewrite IHs, IHa, JsMap_get_set, fmap_cons, elem_of_cons. cbn [fst].
    destruct (decide (key = k)) as [->|Hne].
    + rewrite lookup_insert_eq, bool_decide_eq_true_2 by done.
      split; split; eauto.
    + rewrite lookup_insert_ne, bool_decide_eq_false_2 by done.
      split; split; intros [?|?]; eauto; destruct_or?; eauto; congruence.
Qed.

(** The overrides replace values of fields the registry has. *)
Lemma apply_overrides_keys (atoms : JsMap.t (Atom Value))
    (overrides : list (string * Value)) (initialState : gmap string Value) :
  (∀ k, is_Some (JsMap.get k atoms) → is_Some (initialState !! k)) →
  ∀ k, is_Some ((apply_overrides atoms overrides initialState).1 !! k)
       ↔ is_Some (initialState !! k).
Proof.
  revert initialState.
  induction overrides as [|[key value] overrides IH]; intros initialState Hkeys k;
    cbn; [done|].
  destruct (js_in initialState key); [|by apply IH].
  destruct (JsMap.get key atoms) as [atom|] eqn:Hatom.
  2: { destruct (apply_overrides atoms overrides initialState) as [s t] eqn:E.
       cbn. specialize (IH initialState Hkeys k). by rewrite E in IH. }
  destruct (atom_validate atom value) as [validated|].
  2: { destruct (apply_overrides atoms overrides initialState) as [s t] eqn:E.
       cbn. specialize (IH initialState Hkeys k). by rewrite E in IH. }
  assert (is_Some (initialState !! key)) as Hkey by (apply Hkeys; by rewrite Hatom).
  rewrite IH.
  - destruct (decide (key = k)) as [->|Hne].
    + by rewrite lookup_insert_eq.
    + by rewrite lookup_insert_ne.
  - intros k' Hk'. destruct (decide (key = k')) as [->|Hne].
    + by rewrite lookup_insert_eq.
    + rewrite lookup_insert_ne by done. by apply Hkeys.
Qed.

(** The snapshot invariant at creation: the keys of the snapshot of a new
    store are the keys of the schema, and so are those of its registry. *)
Theorem created_store_keys (config : StateManagerConfig Value) st t :
  createStateManager config = (Normal st, t) →
  ∀ k, (is_Some (state st !! k) ↔ k ∈ (config_schema config).*1)
       ∧ (is_Some (JsMap.get k (atoms st)) ↔ k ∈ (config_schema config).*1).
Proof.
  unfold createStateManager. intros Hcreate k.
  destruct (init_atoms (config_schema config) [] ∅ [])
    as [[[registry initialState] subscriptions]|] eqn:Hinit; [|done].
  pose proof (init_atoms_keys _ _ _ _ _ _ _ Hinit) as Hkeys.
  pose proof (apply_overrides_keys registry
    (default [] (config_initialState config)) initialState) as Hover.
  destruct (apply_overrides registry _ initialState) as [overridden logged].
  cbn [fst] in Hover.
  destruct (match config_syncAdapter config with
            | Some (inl type) => _ | Some (inr adapter) => _ | None => _ end)
    as [syncAdapter|e]; [|done].
  injection Hcreate as <- _. cbn [state atoms].
  rewrite Hover.
  - destruct (Hkeys k) as [-> ->]. rewrite lookup_empty. cbn.
    split; split; intros; destruct_or?; try done; try (by right);
      by match goal with H : is_Some None |- _ => destruct H end.
  - intros k' Hk'. destruct (Hkeys k') as [Hs Ha]. apply Hs. apply Ha in Hk'.
    destruct Hk' as [Hk'|?]; [|by right]. by destruct Hk'.
Qed.

End Creation.

(** * The store against its specification *)

Section Reconciliation.
Context {Value : Type} `{!JsRuntime Value}.

Implicit Types (st : Store Value) (change : StateChangeEvent Value).

(** C4. A change event delivered through the transport subscription whose
    [source] equals the local store identity is discarded: the callback
    returns at once, the store (its snapshot included) is the one it was
    and nothing is performed, so no atom or selector subscriber is
    notified. *)
Theorem loopback_discarded st change :
  source change = clientId st →
  onSyncChange change st = (Normal tt, st, [])
  ∧ state (state_of (onSyncChange change st)) = state st
  ∧ atom_notifications (trace_of (onSyncChange change st)) = []
  ∧ selector_notifications (trace_of (onSyncChange change st)) = [].
Proof.
  intros Hsource.
  assert (onSyncChange change st = (Normal tt, st, [])) as ->; [|done].
  unfold onSyncChange, bind, get_state.
  by rewrite bool_decide_eq_true_2.
Qed.

(** A change whose field passes neither the own-key nor the inherited-key
    test of [in] is dropped whatever the middlewares do with it. *)
Lemma applyChange_unknown st change :
  js_in (state st) (atomId change) = false →
  applyChange change st = (Normal tt, st, []).
Proof.
  intros Hin. unfold applyChange, bind, get_state.
  destruct (isPaused st); [done|].
  rewrite applyMiddlewares_pipeline, for_each_skip; [done|].
  intros delivered. by apply applyFinal_unknown.
Qed.

(** C8, as the code has it. A change event whose [atomId] is neither a key
    of the snapshot nor a name plain objects inherit is dropped in
    silence: the store is unchanged (snapshot and timeline included), no
    subscriber is notified, nothing is persisted or sent, and nothing is
    logged either. *)
Theorem unknown_field_dropped_silently st change :
  state st !! atomId change = None →
  object_prototype (atomId change) = None →
  applyChange change st = (Normal tt, st, [])
  ∧ console_calls (trace_of (applyChange change st)) = [].
Proof.
  intros Hown Hinherited.
  rewrite applyChange_unknown; [done|].
  unfold js_in. by rewrite Hown, Hinherited.
Qed.

(** A remote change goes down the same path as a local one. *)
Lemma onSyncChange_remote st change :
  source change ≠ clientId st →
  onSyncChange change st = applyChange change st.
Proof.
  intros Hsource. unfold onSyncChange, bind at 1, get_state.
  rewrite bool_decide_eq_false_2 by done.
  destruct (applyChange change st) as [[r st1] t1]. by destruct r.
Qed.

(** C1, as the code has it. Take a store with a transport that is not
    paused, and a change event received from the transport whose [source]
    differs from the local identity, whose field the snapshot has and which
    the middlewares deliver once. The change is applied to the snapshot like
    a local one, and it is handed to the transport's [sendChange] exactly
    when it is not marked optimistic and [set] of the storage adapter, if
    there is one, did not return [undefined]: [applyChange] does not look at
    the source, and the only thing that keeps a non-optimistic change from
    being sent is the [TypeError] of line 151, thrown before the send of
    line 158 is reached. *)
Theorem remote_change_forwarded_unless_optimistic st change delivered adapter :
  source change ≠ clientId st →
  isPaused st = false →
  pipeline (middlewares st) change = [delivered] →
  js_in (state st) (atomId change) = true →
  sync st = Some adapter →
  state (state_of (onSyncChange change st))
    = <[atomId change := newValue delivered]> (state st)
  ∧ sync_sends (trace_of (onSyncChange change st))
    = if optimistic change then []
      else if bool_decide (storage st = Some ReturnsVoid) then []
      else [delivered].
Proof.
  intros Hsource Hrun Hpipe Hin Hsync.
  rewrite onSyncChange_remote, (applyChange_delivered _ delivered) by done.
  case_bool_decide as Hstorage.
  { rewrite applyFinal_storage_void by done.
    unfold state_of, trace_of; cbn [fst snd]. split; [done|].
    by destruct (optimistic change). }
  destruct (optimistic change) eqn:Hopt, adapter.
  1,2,3: rewrite applyFinal_run
      by first [done | split; [done|]; first [by left | by right; rewrite Hsync]];
    unfold state_of, trace_of; cbn [fst snd];
    by rewrite state_applied, sync_sends_applied, Hsync, Hopt.
  rewrite applyFinal_sync_void by done. unfold state_of, trace_of; cbn [fst snd].
  split; [done|]. unfold sync_sends. rewrite omap_app. by destruct (storage st).
Qed.

(** C3, as the code has it. With a persistence collaborator configured,
    [set] is called once for every change the store applies, optimistic or
    not, under the key ["state:"] followed by the field id and with the
    value the pipeline delivered; it is not called for a change the store
    drops (paused store, unknown field). *)
Theorem persisted_on_every_applied_change st change delivered adapter :
  storage st = Some adapter →
  pipeline (middlewares st) change = [delivered] →
  storage_sets (trace_of (applyChange change st))
  = if isPaused st then []
    else if js_in (state st) (atomId change)
         then [("state:" +:+ atomId change, newValue delivered)]
         else [].
Proof.
  intros Hstorage Hpipe.
  destruct (isPaused st) eqn:Hrun.
  { unfold applyChange, bind, get_state. by rewrite Hrun. }
  destruct (js_in (state st) (atomId change)) eqn:Hin.
  2: { by rewrite applyChange_unknown. }
  rewrite (applyChange_delivered _ delivered) by done.
  destruct adapter.
  - destruct (sync st) as [[|]|] eqn:Hsync, (optimistic change) eqn:Hopt.
    4: { rewrite applyFinal_sync_void; [| done | by rewrite Hstorage | done | done].
         unfold trace_of; cbn [snd]. rewrite Hstorage. reflexivity. }
    all: rewrite applyFinal_run
      by first [done | split; [by rewrite Hstorage|]; first [by left | by right; rewrite Hsync]];
      unfold trace_of; cbn [snd]; by rewrite storage_sets_applied, Hstorage.
  - by rewrite applyFinal_storage_void.
Qed.

(** On a store as [createStateManager] returned it, the keys of the
    snapshot are those of the schema: a change to a field that is neither
    a key of the schema nor an inherited name is dropped in silence. *)
Corollary unknown_schema_field_dropped (config : StateManagerConfig Value) st t change :
  createStateManager config = (Normal st, t) →
  atomId change ∉ (config_schema config).*1 →
  object_prototype (atomId change) = None →
  applyChange change st = (Normal tt, st, []).
Proof.
  intros Hcreate Hkey Hinherited. apply applyChange_unknown.
  destruct (created_store_keys config st t Hcreate (atomId change)) as [Hstate _].
  assert (state st !! atomId change = None) as Hown.
  { apply eq_None_not_Some. by rewrite Hstate. }
  unfold js_in. by rewrite Hown, Hinherited.
Qed.

End Reconciliation.

Section Validation.
Context {Value : Type} `{!JsRuntime Value}.

Implicit Types (st : Store Value) (tx : Transaction Value).

Lemma validate_rejects st F atom (raw : Value) :
  JsMap.get F (atoms st) = Some atom →
  atom_validate atom raw = None →
  validate F raw st = (Throw ZodError, st, []).
Proof.
  intros Hatom Hraw. unfold validate, bind, get_state. by rewrite Hatom, Hraw.
Qed.

Lemma validate_accepts st F atom (raw validated : Value) :
  JsMap.get F (atoms st) = Some atom →
  atom_validate atom raw = Some validated →
  validate F raw st = (Normal validated, st, []).
Proof.
  intros Hatom Hraw. unfold validate, bind, get_state. by rewrite Hatom, Hraw.
Qed.

(** C7. When the validator of field [F] rejects the input (the value
    given, or the value the updater function computes from the current
    one), [updateAtom] throws the validator's error to its caller, after
    logging it; the store, its snapshot included, is unchanged and no atom
    or selector subscriber is notified. *)
Theorem invalid_update_rejected st F atom (value : UpdateArg Value) optimistic :
  JsMap.get F (atoms st) = Some atom →
  atom_validate atom (proposed value (js_get (state st) F)) = None →
  updateAtom F value optimistic st
    = (Throw ZodError, st,
       [Console console_error ("Invalid value for atom " +:+ F +:+ ":")])
  ∧ state (state_of (updateAtom F value optimistic st)) = state st
  ∧ atom_notifications (trace_of (updateAtom F value optimistic st)) = []
  ∧ selector_notifications (trace_of (updateAtom F value optimistic st)) = [].
Proof.
  intros Hatom Hraw.
  assert (updateAtom F value optimistic st
          = (Throw ZodError, st,
             [Console console_error ("Invalid value for atom " +:+ F +:+ ":")]))
    as ->; [|done].
  unfold updateAtom, bind at 1, get_state, try_catch, bind at 1.
  by rewrite (validate_rejects _ _ atom).
Qed.

(** *** Transactions *)

Lemma for_each_lift_store {A} (xs : list A)
    (body : A → Js Value (Store Value) unit) st tx :
  for_each xs (λ x, lift_store (body x)) (st, tx)
  = match for_each xs body st with
    | (r, st', t) => (r, (st', tx), t)
    end.
Proof.
  revert st. induction xs as [|x xs IH]; intros st; [done|].
  cbn [for_each]. unfold bind, lift_store at 1. cbn [fst snd].
  destruct (body x st) as [[[[]|e] st1] t1]; [|done].
  rewrite IH. by destruct (for_each xs body st1) as [[r st2] t2].
Qed.

Lemma tx_commit_run st tx :
  tx_commit (st, tx)
  = match for_each (changes tx)
            (λ entry, updateAtom (fst entry) (Direct (snd entry)) false) st with
    | (Normal _, st', t) => (Normal tt, (st', createTransaction), t)
    | (Throw e, st', t) => (Throw e, (st', tx), t)
    end.
Proof.
  unfold tx_commit, bind, get_state, modify_tx, modify. cbn [fst snd].
  rewrite for_each_lift_store.
  destruct (for_each (changes tx) _ st) as [[[[]|e] st1] t1]; [|done].
  cbn [fst snd]. by rewrite (right_id_L [] (++)).
Qed.

(** What [commit] does to the store depends on the pending changes only. *)
Lemma tx_commit_pending st tx tx' :
  changes tx = changes tx' →
  completion_of (tx_commit (st, tx)) = completion_of (tx_commit (st, tx'))
  ∧ fst (state_of (tx_commit (st, tx))) = fst (state_of (tx_commit (st, tx')))
  ∧ trace_of (tx_commit (st, tx)) = trace_of (tx_commit (st, tx')).
Proof.
  intros Hpending. rewrite !tx_commit_run, Hpending.
  destruct (for_each (changes tx') _ st) as [[[[]|e] st1] t1]; done.
Qed.

(** C10. When the validator of field [A] rejects [v], the transaction's
    [update(A, v)] throws the validator's error at once; the store is not
    touched and the pending changes of the transaction are the ones it had
    before the call, so that a later [commit], from any store, completes
    the same way, leaves the same store and performs the same effects as
    if the call had not been made. *)
Theorem tx_update_invalid_rejected st tx A atom (v : Value) :
  JsMap.get A (atoms st) = Some atom →
  atom_validate atom v = None →
  completion_of (tx_update A v (st, tx)) = Throw ZodError
  ∧ fst (state_of (tx_update A v (st, tx))) = st
  ∧ changes (snd (state_of (tx_update A v (st, tx)))) = changes tx
  ∧ ∀ st',
      completion_of (tx_commit (st', snd (state_of (tx_update A v (st, tx)))))
        = completion_of (tx_commit (st', tx))
      ∧ fst (state_of (tx_commit (st', snd (state_of (tx_update A v (st, tx))))))
        = fst (state_of (tx_commit (st', tx)))
      ∧ trace_of (tx_commit (st', snd (state_of (tx_update A v (st, tx)))))
        = trace_of (tx_commit (st', tx)).
Proof.
  intros Hatom Hraw.
  assert (∃ tx', tx_update A v (st, tx) = (Throw ZodError, (st, tx'), [])
                 ∧ changes tx' = changes tx) as (tx' & -> & Hpending).
  { unfold tx_update, bind at 1, get_state. cbn [fst snd].
    destruct (JsMap.has A (previousValues tx)); cbn [negb when];
      js_run; rewrite (validate_rejects _ _ atom) by done; eauto. }
  unfold completion_of, state_of; cbn [fst snd].
  repeat split; try done; by apply tx_commit_pending.
Qed.

End Validation.

Section Updates.
Context {Value : Type} `{!JsRuntime Value}.

Implicit Types (st : Store Value) (tx : Transaction Value).

Lemma createChangeEvent_run st F (v : Value) optimistic :
  createChangeEvent F v optimistic st
  = (Normal (created_event st F v optimistic), stamped st, []).
Proof. reflexivity. Qed.

(** [updateAtom] on an accepted value: the change is created and handed
    to [applyChange]; an exception of [applyChange] is logged as an
    invalid value and thrown again. *)
Lemma updateAtom_accepted st F atom (value : UpdateArg Value) (v : Value) optimistic :
  JsMap.get F (atoms st) = Some atom →
  atom_validate atom (proposed value (js_get (state st) F)) = Some v →
  updateAtom F value optimistic st
  = match applyChange (created_event st F v optimistic) (stamped st) with
    | (Normal _, st', t) => (Normal tt, st', t)
    | (Throw e, st', t) =>
        (Throw e, st',
         t ++ [Console console_error ("Invalid value for atom " +:+ F +:+ ":")])
    end.
Proof.
  intros Hatom Hraw.
  unfold updateAtom, bind at 1, get_state, try_catch, bind at 1.
  rewrite (validate_accepts _ _ atom _ v) by done.
  unfold bind at 1. rewrite createChangeEvent_run.
  destruct (applyChange _ (stamped st)) as [[[[]|e] st1] t1]; done.
Qed.

Lemma runs_clean_stamped st : runs_clean st → runs_clean (stamped st).
Proof. done. Qed.

Lemma runs_clean_applied st (change currentChange : StateChangeEvent Value) :
  runs_clean st → runs_clean (applied_store st change currentChange).
Proof. unfold applied_store. by destruct (timeTravel st). Qed.

Lemma applyChange_clean st (change : StateChangeEvent Value) :
  runs_clean st →
  js_in (state st) (atomId change) = true →
  applyChange change st
  = (Normal tt, applied_store st change change, applied_trace st change change).
Proof.
  intros (Hrun & Hpipe & Hstorage & Hsync) Hin.
  rewrite (applyChange_delivered _ change) by done.
  apply applyFinal_run; [done|]. split; [done|by right].
Qed.

Lemma updateAtom_clean st F atom (value : UpdateArg Value) (v : Value) optimistic :
  JsMap.get F (atoms st) = Some atom →
  atom_validate atom (proposed value (js_get (state st) F)) = Some v →
  runs_clean st →
  js_in (state st) F = true →
  updateAtom F value optimistic st
  = (Normal tt,
     applied_store (stamped st) (created_event st F v optimistic)
       (created_event st F v optimistic),
     applied_trace (stamped st) (created_event st F v optimistic)
       (created_event st F v optimistic)).
Proof.
  intros Hatom Hraw Hclean Hin.
  rewrite (updateAtom_accepted _ _ atom _ v) by done.
  by rewrite applyChange_clean.
Qed.

(** On every store whose storage adapter's [set] returns nothing, an
    accepted update of a field of the snapshot replaces the snapshot entry,
    calls [set], and ends in a [TypeError] that is logged as an invalid
    value: no subscriber is notified and nothing is sent. *)
Lemma updateAtom_void_storage st F atom (value : UpdateArg Value) (v : Value) optimistic :
  JsMap.get F (atoms st) = Some atom →
  atom_validate atom (proposed value (js_get (state st) F)) = Some v →
  isPaused st = false →
  (∀ change, pipeline (middlewares st) change = [change]) →
  js_in (state st) F = true →
  storage st = Some ReturnsVoid →
  updateAtom F value optimistic st
  = (Throw TypeError,
     set_state (<[F := v]> (state st)) (stamped st),
     [StorageSet ("state:" +:+ F) v;
      Console console_error ("Invalid value for atom " +:+ F +:+ ":")]).
Proof.
  intros Hatom Hraw Hrun Hpipe Hin Hstorage.
  rewrite (updateAtom_accepted _ _ atom _ v) by done.
  rewrite (applyChange_delivered _ (created_event st F v optimistic)) by done.
  by rewrite applyFinal_storage_void.
Qed.

Lemma js_in_insert (obj : gmap string Value) (k k' : string) (v : Value) :
  js_in obj k' = true → js_in (<[k := v]> obj) k' = true.
Proof.
  unfold js_in. destruct (decide (k = k')) as [->|Hne].
  - by rewrite lookup_insert_eq.
  - by rewrite lookup_insert_ne.
Qed.

Lemma js_get_insert_ne (obj : gmap string Value) (k k' : string) (v : Value) :
  k ≠ k' → js_get (<[k := v]> obj) k' = js_get obj k'.
Proof. intros Hne. unfold js_get. by rewrite lookup_insert_ne. Qed.

(** *** Transactions on accepted values *)

Lemma tx_update_accepted st tx A atom (v validated : Value) :
  JsMap.get A (atoms st) = Some atom →
  atom_validate atom v = Some validated →
  tx_update A v (st, tx)
  = (Normal tt,
     (st, {| changes := JsMap.set A validated (changes tx);
             previousValues :=
               if JsMap.has A (previousValues tx) then previousValues tx
               else JsMap.set A (js_get (state st) A) (previousValues tx) |}),
     []).
Proof.
  intros Hatom Hraw. unfold tx_update, bind at 1, get_state. cbn [fst snd].
  destruct (JsMap.has A (previousValues tx)); cbn [negb when];
    js_run; by rewrite (validate_accepts _ _ atom _ validated).
Qed.

End Updates.

Section Transactions.
Context {Value : Type} `{!JsRuntime Value}.

Implicit Types (st : Store Value) (tx : Transaction Value).

Lemma bind_normal {S A B} (m : Js Value S A) (f : A → Js Value S B) s a s1 t1 :
  m s = (Normal a, s1, t1) →
  bind m f s = match f a s1 with (r, s2, t2) => (r, s2, t1 ++ t2) end.
Proof. intros Hm. unfold bind. by rewrite Hm. Qed.

Lemma validate_reads st F (raw : Value) :
  ∃ r, validate F raw st = (r, st, []).
Proof.
  unfold validate, bind, get_state.
  destruct (JsMap.get F (atoms st)) as [atom|]; [|by eexists].
  destruct (atom_validate atom raw); by eexists.
Qed.

(** [update] reads the store and never writes it. *)
Lemma tx_update_reads st tx A (v : Value) :
  fst (state_of (tx_update A v (st, tx))) = st
  ∧ trace_of (tx_update A v (st, tx)) = [].
Proof.
  destruct (validate_reads st A v) as [r Hr].
  unfold tx_update. js_run.
  destruct (JsMap.has A (previousValues tx)); cbn; rewrite Hr; by destruct r.
Qed.

Lemma tx_updates_reads (updates : list (string * Value)) st tx :
  fst (state_of (tx_updates updates (st, tx))) = st
  ∧ trace_of (tx_updates updates (st, tx)) = [].
Proof.
  revert tx. induction updates as [|[k v] updates IH]; intros tx; [done|].
  unfold tx_updates. cbn [for_each fst snd]. unfold bind.
  destruct (tx_update_reads st tx k v) as [Hst Ht].
  destruct (tx_update k v (st, tx)) as [[[[]|e] [st1 tx1]] t1];
    unfold state_of, trace_of in Hst, Ht; cbn [fst snd] in Hst, Ht; subst; [|done].
  destruct (IH tx1) as [Hst Ht]. unfold tx_updates in Hst, Ht.
  destruct (for_each updates _ (st, tx1)) as [[r [st2 tx2]] t2].
  unfold state_of, trace_of in *; cbn [fst snd] in *. by subst.
Qed.

(** Whatever was staged, valid or not, [rollback] leaves the store as it
    was when the transaction began: every field keeps its value. *)
Lemma rollback_leaves_store (updates : list (string * Value)) st tx :
  fst (state_of ((tx_updates updates >> tx_rollback) (st, tx))) = st
  ∧ trace_of ((tx_updates updates >> tx_rollback) (st, tx)) = [].
Proof.
  destruct (tx_updates_reads updates st tx) as [Hst Ht]. unfold bind.
  destruct (tx_updates updates (st, tx)) as [[[[]|e] [st1 tx1]] t1];
    unfold state_of, trace_of in *; cbn [fst snd] in *; by subst.
Qed.

Lemma tx_updates_two_fields st A B atomA atomB (a a' b b' : Value) :
  A ≠ B →
  JsMap.get A (atoms st) = Some atomA →
  JsMap.get B (atoms st) = Some atomB →
  atom_validate atomA a = Some a' →
  atom_validate atomB b = Some b' →
  ∃ tx, tx_updates [(A, a); (B, b)] (st, createTransaction) = (Normal tt, (st, tx), [])
        ∧ changes tx = [(A, a'); (B, b')].
Proof.
  intros Hne HA HB Ha Hb. unfold tx_updates. cbn [for_each fst snd].
  erewrite bind_normal by (by apply (tx_update_accepted _ _ _ atomA _ a')).
  erewrite bind_normal by (by apply (tx_update_accepted _ _ _ atomB _ b')).
  cbn. rewrite bool_decide_eq_false_2 by done. eauto.
Qed.

Lemma tx_updates_same_field st A atom (v1 v1' v2 v2' : Value) :
  JsMap.get A (atoms st) = Some atom →
  atom_validate atom v1 = Some v1' →
  atom_validate atom v2 = Some v2' →
  ∃ tx, tx_updates [(A, v1); (A, v2)] (st, createTransaction) = (Normal tt, (st, tx), [])
        ∧ changes tx = [(A, v2')].
Proof.
  intros HA H1 H2. unfold tx_updates. cbn [for_each fst snd].
  erewrite bind_normal by (by apply (tx_update_accepted _ _ _ atom _ v1')).
  erewrite bind_normal by (by apply (tx_update_accepted _ _ _ atom _ v2')).
  cbn. rewrite bool_decide_eq_true_2 by done. eauto.
Qed.

Lemma applied_store_after st (change currentChange : StateChangeEvent Value) :
  atoms (applied_store st change currentChange) = atoms st
  ∧ atomSubscriptions (applied_store st change currentChange) = atomSubscriptions st
  ∧ clientId (applied_store st change currentChange) = clientId st.
Proof. unfold applied_store. by destruct (timeTravel st). Qed.

(** One committed entry, when the store runs clean. *)
Lemma commit_entry_clean st A atom (v : Value) :
  JsMap.get A (atoms st) = Some atom →
  atom_validate atom v = Some v →
  runs_clean st →
  js_in (state st) A = true →
  ∃ st' event,
    updateAtom A (Direct v) false st
      = (Normal tt, st', applied_trace (stamped st) event event)
    ∧ event = created_event st A v false
    ∧ state st' = <[A := v]> (state st)
    ∧ atoms st' = atoms st
    ∧ atomSubscriptions st' = atomSubscriptions st
    ∧ runs_clean st'.
Proof.
  intros Hatom Hv Hclean Hin.
  eexists _, _. split; [by apply (updateAtom_clean _ _ atom)|].
  split; [done|]. rewrite state_applied.
  destruct (applied_store_after (stamped st) (created_event st A v false)
              (created_event st A v false)) as (-> & -> & _).
  do 3 (split; [done|]). by apply runs_clean_applied.
Qed.

(** A transaction that staged distinct fields [A] then [B], on a store
    that runs clean: [commit] completes, both fields hold the committed
    values, and the subscribers are handed two events, the one for [A]
    to the subscribers of [A] first, then the one for [B] to those of
    [B]. The committed values [a'] and [b'] are what the validators made
    of the values given, and [commit] validates them a second time. *)
Theorem commit_two_fields st A B atomA atomB (a a' b b' : Value) :
  A ≠ B →
  JsMap.get A (atoms st) = Some atomA →
  JsMap.get B (atoms st) = Some atomB →
  atom_validate atomA a = Some a' → atom_validate atomA a' = Some a' →
  atom_validate atomB b = Some b' → atom_validate atomB b' = Some b' →
  runs_clean st →
  js_in (state st) A = true →
  js_in (state st) B = true →
  ∃ st' tx' t eventA eventB,
    (tx_updates [(A, a); (B, b)] >> tx_commit) (st, createTransaction)
      = (Normal tt, (st', tx'), t)
    ∧ state st' !! A = Some a'
    ∧ state st' !! B = Some b'
    ∧ atom_notifications t
      = ((λ s, (s, eventA)) <$> default [] (JsMap.get A (atomSubscriptions st)))
        ++ ((λ s, (s, eventB)) <$> default [] (JsMap.get B (atomSubscriptions st)))
    ∧ atomId eventA = A ∧ newValue eventA = a'
    ∧ prevValue eventA = js_get (state st) A
    ∧ atomId eventB = B ∧ newValue eventB = b'
    ∧ prevValue eventB = js_get (state st) B.
Proof.
  intros Hne HA HB Ha Ha' Hb Hb' Hclean HinA HinB.
  destruct (tx_updates_two_fields st A B atomA atomB a a' b b')
    as (tx & Hupdates & Hpending); try done.
  erewrite bind_normal by exact Hupdates.
  rewrite tx_commit_run, Hpending. cbn [for_each fst snd].
  destruct (commit_entry_clean st A atomA a')
    as (st1 & eventA & HrunA & HeA & Hstate1 & Hatoms1 & Hsubs1 & Hclean1);
    try done.
  erewrite bind_normal by exact HrunA.
  destruct (commit_entry_clean st1 B atomB b')
    as (st2 & eventB & HrunB & HeB & Hstate2 & Hatoms2 & Hsubs2 & Hclean2);
    try done.
  { by rewrite Hatoms1. }
  { rewrite Hstate1. by apply js_in_insert. }
  erewrite bind_normal by exact HrunB.
  cbn. eexists st2, _, _, (delivered_event (stamped st) eventA eventA),
    (delivered_event (stamped st1) eventB eventB).
  split; [reflexivity|].
  rewrite Hstate2, Hstate1.
  split; [by rewrite lookup_insert_ne, lookup_insert_eq|].
  split; [by rewrite lookup_insert_eq|].
  split.
  { unfold atom_notifications. rewrite !(right_id_L [] (++)), omap_app.
    fold (atom_notifications (applied_trace (stamped st) eventA eventA)).
    fold (atom_notifications (applied_trace (stamped st1) eventB eventB)).
    rewrite !atom_notifications_applied. subst eventA eventB. cbn [atomId created_event].
    change (atomSubscriptions (stamped st1)) with (atomSubscriptions st1).
    by rewrite Hsubs1. }
  subst eventA eventB. cbn. rewrite Hstate1.
  repeat split; try done. by rewrite js_get_insert_ne.
Qed.

(** A transaction that staged the same field twice, on a store that runs
    clean: [commit] applies the second value only, and the subscribers of
    the field are handed one event, whose [newValue] is that value. *)
Theorem commit_last_write_wins st A atom (v1 v1' v2 v2' : Value) :
  JsMap.get A (atoms st) = Some atom →
  atom_validate atom v1 = Some v1' →
  atom_validate atom v2 = Some v2' → atom_validate atom v2' = Some v2' →
  runs_clean st →
  js_in (state st) A = true →
  ∃ st' tx' t event,
    (tx_updates [(A, v1); (A, v2)] >> tx_commit) (st, createTransaction)
      = (Normal tt, (st', tx'), t)
    ∧ state st' = <[A := v2']> (state st)
    ∧ atom_notifications t
      = (λ s, (s, event)) <$> default [] (JsMap.get A (atomSubscriptions st))
    ∧ atomId event = A ∧ newValue event = v2'.
Proof.
  intros HA H1 H2 H2' Hclean Hin.
  destruct (tx_updates_same_field st A atom v1 v1' v2 v2')
    as (tx & Hupdates & Hpending); try done.
  erewrite bind_normal by exact Hupdates.
  rewrite tx_commit_run, Hpending. cbn [for_each fst snd].
  destruct (commit_entry_clean st A atom v2')
    as (st1 & event & Hrun & He & Hstate1 & _); try done.
  erewrite bind_normal by exact Hrun.
  cbn. eexists st1, _, _, (delivered_event (stamped st) event event).
  split; [reflexivity|]. split; [done|]. split.
  { rewrite !(right_id_L [] (++)), atom_notifications_applied. by subst event. }
  by subst event.
Qed.

End Transactions.

Section Invariants.
Context {Value : Type} `{!JsRuntime Value}.

Implicit Types (st : Store Value) (change : StateChangeEvent Value).

(** A loop keeps what each turn keeps: an invariant [I] of the state and a
    property [Q] of every effect performed. *)
Lemma for_each_preserves {S A} (xs : list A) (body : A → Js Value S unit)
    (I : S → Prop) (Q : Effect Value → Prop) :
  (∀ x s, I s → I (state_of (body x s)) ∧ Forall Q (trace_of (body x s))) →
  ∀ s, I s →
    I (state_of (for_each xs body s)) ∧ Forall Q (trace_of (for_each xs body s)).
Proof.
  intros Hbody. induction xs as [|x xs IH]; intros s Hs; [done|].
  cbn [for_each]. unfold bind.
  destruct (Hbody x s Hs) as [HI HQ].
  destruct (body x s) as [[[[]|e] s1] t1];
    unfold state_of, trace_of in *; cbn [fst snd] in *; [|done].
  destruct (IH s1 HI) as [HI' HQ'].
  destruct (for_each xs body s1) as [[r s2] t2]; cbn [fst snd] in *.
  split; [done|]. by apply Forall_app.
Qed.

(** However [applyFinal] ends, what it performed is the beginning of what
    it performs when it runs to its end, and it leaves the selector cache
    alone. *)
Lemma applyFinal_prefix (change currentChange : StateChangeEvent Value) st :
  trace_of (applyFinal change currentChange st)
    `prefix_of` applied_trace st change currentChange
  ∧ selectorCache (state_of (applyFinal change currentChange st)) = selectorCache st.
Proof.
  destruct (js_in (state st) (atomId change)) eqn:Hin.
  2: { rewrite applyFinal_unknown by done. split; [apply prefix_nil|done]. }
  destruct (decide (storage st = Some ReturnsVoid)) as [Hstorage|Hstorage].
  { rewrite applyFinal_storage_void by done.
    split; [|done]. unfold applied_trace, trace_of. rewrite Hstorage. cbn [snd].
    by eexists. }
  destruct (optimistic change) eqn:Hopt.
  { rewrite applyFinal_run by first [done | split; [done | by left]].
    split; [done|]. unfold state_of, applied_store; cbn [fst snd].
    by destruct (timeTravel st). }
  destruct (decide (sync st = Some ReturnsVoid)) as [Hsync|Hsync].
  { rewrite applyFinal_sync_void by done.
    split; [|done]. unfold applied_trace, trace_of. rewrite Hsync, Hopt. cbn [snd].
    rewrite (assoc_L (++)). by eexists. }
  rewrite applyFinal_run by first [done | split; [done | by right]].
  split; [done|]. unfold state_of, applied_store; cbn [fst snd].
  by destruct (timeTravel st).
Qed.

(** An invariant of the effects of a completed final branch is one of
    every call of [applyChange], whatever the middlewares deliver and
    however the call ends. *)
Lemma applyChange_effects (Q : Effect Value → Prop) change st :
  (∀ st' delivered,
     selectorCache st' = selectorCache st →
     Forall Q (applied_trace st' change delivered)) →
  Forall Q (trace_of (applyChange change st)).
Proof.
  intros HQ. unfold applyChange, bind, get_state.
  destruct (isPaused st); [done|].
  rewrite applyMiddlewares_pipeline.
  destruct (for_each_preserves (pipeline (middlewares st) change)
              (applyFinal change)
              (λ st', selectorCache st' = selectorCache st) Q) with (s := st)
    as [_ Htrace]; [|done|].
  - intros delivered st' Hcache.
    destruct (applyFinal_prefix change delivered st') as [[rest Hrest] Hcache'].
    split; [congruence|].
    specialize (HQ st' delivered Hcache). rewrite Hrest in HQ.
    by apply Forall_app in HQ as [? _].
  - destruct (for_each _ _ st) as [[r st1] t1].
    unfold trace_of in *; cbn [fst snd] in *. by rewrite (left_id_L [] (++)).
Qed.

End Invariants.

Section Selectors.
Context {Value : Type} `{!JsRuntime Value}.

Implicit Types (st : Store Value) (change : StateChangeEvent Value).

Lemma elem_of_add_string (x y : string) (s : list string) :
  y ∈ JsSet.add_string x s ↔ y = x ∨ y ∈ s.
Proof.
  induction s as [|z s IH]; cbn.
  - rewrite list_elem_of_singleton. set_solver.
  - case_bool_decide; set_solver.
Qed.

Lemma elem_of_affectedSelectors (atomKey id : string)
    (cache : JsMap.t (CachedSelector Value)) :
  id ∈ affectedSelectors atomKey cache
  ↔ ∃ cached, (id, cached) ∈ cache ∧ atomKey ∈ deps cached.
Proof.
  unfold affectedSelectors.
  assert (∀ acc,
    id ∈ foldl (λ affected entry,
                  if bool_decide (atomKey ∈ deps (snd entry))
                  then JsSet.add_string (fst entry) affected else affected)
               acc cache
    ↔ id ∈ acc ∨ ∃ cached, (id, cached) ∈ cache ∧ atomKey ∈ deps cached) as H.
  { induction cache as [|[k c] cache IH]; intros acc; cbn [foldl fst snd].
    - set_solver.
    - rewrite IH. case_bool_decide; rewrite ?elem_of_add_string; split.
      + intros [[->|?]|(c' & ? & ?)]; [right; exists c|by left|right; exists c'];
          set_solver.
      + intros [?|(c' & Hc' & ?)]; [by left; right|].
        apply elem_of_cons in Hc' as [[= -> ->]|?]; [by left; left|].
        right. by exists c'.
      + intros [?|(c' & ? & ?)]; [by left|right; exists c']; set_solver.
      + intros [?|(c' & Hc' & ?)]; [by left|].
        apply elem_of_cons in Hc' as [[= -> ->]|?]; [done|].
        right. by exists c'. }
  rewrite H. set_solver.
Qed.

Lemma JsMap_get_elem_of {V} (k : string) (v : V) (m : JsMap.t V) :
  JsMap.get k m = Some v → (k, v) ∈ m.
Proof.
  induction m as [|[k' v'] m IH]; cbn; [done|].
  case_bool_decide; [intros [= ->]; subst; by left|].
  intros ?. right. by apply IH.
Qed.

(** The effects of [updateSelectors atomKey] concern affected selectors
    only. *)
Lemma selector_effects_affected atomKey st (e : Effect Value) :
  e ∈ selector_effects atomKey st →
  match e with
  | SelectorCompute id _ _ | SelectorNotify id _ _ =>
      id ∈ affectedSelectors atomKey (selectorCache st)
  | _ => False
  end.
Proof.
  unfold selector_effects. rewrite list_elem_of_bind.
  intros (id & He & Hid).
  destruct (JsMap.get id (selectorCache st)) as [cached|]; [|set_solver].
  apply elem_of_cons in He as [->|He]; [done|].
  apply list_elem_of_bind in He as (s & He & _).
  by apply list_elem_of_singleton in He as ->.
Qed.

(** A selector that is affected is computed on the store's snapshot, and
    what it returns is handed to each of its subscribers. *)
Lemma selector_effects_computed atomKey st id cached :
  JsMap.get id (selectorCache st) = Some cached →
  atomKey ∈ deps cached →
  SelectorCompute id (state st) (select (compute cached) (state st))
    ∈ selector_effects atomKey st
  ∧ ∀ subscriber,
      subscriber ∈ default [] (JsMap.get id (selectorSubscriptions st)) →
      SelectorNotify id subscriber (select (compute cached) (state st))
        ∈ selector_effects atomKey st.
Proof.
  intros Hget Hdep.
  assert (id ∈ affectedSelectors atomKey (selectorCache st)) as Hid.
  { apply elem_of_affectedSelectors. exists cached.
    split; [by apply JsMap_get_elem_of|done]. }
  unfold selector_effects. split; [|intros subscriber Hsub];
    apply list_elem_of_bind; exists id; (split; [|done]); rewrite Hget.
  - by left.
  - right. apply list_elem_of_bind. exists subscriber. split; [by left|done].
Qed.

(** A selector whose dependency set is [{A}], on a store that runs clean:
    a change to [A] that is applied makes the store compute the selector
    on the new snapshot and hand the result to each of its subscribers. *)
Theorem selector_recomputed_on_dependency st change id selector A :
  JsMap.get id (selectorCache st) = Some {| deps := [A]; compute := selector |} →
  atomId change = A →
  runs_clean st →
  js_in (state st) A = true →
  let after := applyChange change st in
  completion_of after = Normal tt
  ∧ state (state_of after) = <[A := newValue change]> (state st)
  ∧ SelectorCompute id (state (state_of after))
      (select selector (state (state_of after))) ∈ trace_of after
  ∧ ∀ subscriber,
      subscriber ∈ default [] (JsMap.get id (selectorSubscriptions st)) →
      SelectorNotify id subscriber (select selector (state (state_of after)))
        ∈ trace_of after.
Proof.
  intros Hget <- Hclean Hin after. subst after.
  rewrite applyChange_clean by done.
  unfold completion_of, state_of, trace_of; cbn [fst snd].
  split; [done|]. split; [apply state_applied|].
  destruct (selector_effects_computed (atomId change)
              (applied_store st change change) id
              {| deps := [atomId change]; compute := selector |}) as [Hc Hn].
  { unfold applied_store. by destruct (timeTravel st). }
  { cbn. by left. }
  cbn [compute] in Hc, Hn. unfold applied_trace. split.
  - rewrite !elem_of_app. by do 3 right; left.
  - intros subscriber Hsub. rewrite !elem_of_app. do 3 right; left.
    apply Hn. unfold applied_store. by destruct (timeTravel st).
Qed.

(** A selector whose dependency set is [{A}] is not computed when a
    change to another field goes through [applyChange], on any store and
    however the call ends. *)
Theorem selector_not_recomputed_on_other_field st change id A :
  (∀ cached, (id, cached) ∈ selectorCache st → deps cached = [A]) →
  atomId change ≠ A →
  ∀ snapshot result,
    SelectorCompute id snapshot result ∉ trace_of (applyChange change st).
Proof.
  intros Hdeps Hother snapshot result Hcomputed.
  pose proof (applyChange_effects
    (λ e, match e with SelectorCompute id' _ _ => id' ≠ id | _ => True end)
    change st) as Heffects.
  rewrite Forall_forall in Heffects.
  apply (Heffects) in Hcomputed; [done|].
  intros st' delivered Hcache. apply Forall_forall. intros e He.
  unfold applied_trace in He. rewrite !elem_of_app in He.
  destruct He as [He|[He|[He|[He|He]]]].
  - destruct (storage st'); [|set_solver].
    by apply list_elem_of_singleton in He as ->.
  - destruct (sync st'), (optimistic change); try set_solver;
      by apply list_elem_of_singleton in He as ->.
  - unfold notified in He. apply list_elem_of_bind in He as (s & He & _).
    by apply list_elem_of_singleton in He as ->.
  - apply selector_effects_affected in He.
    destruct e as [| | | | | | |id' ? ?| |]; try done.
    intros ->. apply elem_of_affectedSelectors in He as (cached & Hin & Hdep).
    assert (selectorCache (applied_store st' change delivered) = selectorCache st)
      as Hsame.
    { unfold applied_store. by destruct (timeTravel st'). }
    rewrite Hsame in Hin. apply Hdeps in Hin. rewrite Hin in Hdep.
    by apply list_elem_of_singleton in Hdep.
  - destruct (logChanges st'); [|set_solver].
    repeat (apply elem_of_cons in He as [->|He]; [done|]). set_solver.
Qed.

(** *** Optimistic changes *)

(** A change marked optimistic is never handed to the transport, on any
    store and whatever the middlewares make of it. *)
Theorem optimistic_never_sent st change :
  optimistic change = true →
  sync_sends (trace_of (applyChange change st)) = [].
Proof.
  intros Hopt.
  pose proof (applyChange_effects
    (λ e, match e with SyncSend _ => False | _ => True end) change st) as Heffects.
  assert (∀ t : list (Effect Value),
    Forall (λ e, match e with SyncSend _ => False | _ => True end) t →
    sync_sends t = []) as Hnone.
  { induction 1 as [|e t He _ IH]; [done|]. by destruct e. }
  apply Hnone, Heffects. intros st' delivered _. apply Forall_forall. intros e He.
  unfold applied_trace in He. rewrite !elem_of_app in He.
  destruct He as [He|[He|[He|[He|He]]]].
  - destruct (storage st'); [|set_solver].
    by apply list_elem_of_singleton in He as ->.
  - rewrite Hopt in He. destruct (sync st'); set_solver.
  - unfold notified in He. apply list_elem_of_bind in He as (s & He & _).
    by apply list_elem_of_singleton in He as ->.
  - apply selector_effects_affected in He. by destruct e.
  - destruct (logChanges st'); [|set_solver].
    repeat (apply elem_of_cons in He as [->|He]; [done|]). set_solver.
Qed.

(** An optimistic change to a field of the snapshot, when the store is
    not paused, the pipeline delivers it once and the storage adapter, if
    any, hands back a promise: the snapshot takes the delivered value,
    each subscriber of the field is handed the event, and nothing is
    sent. *)
Theorem optimistic_applied_locally st change delivered :
  optimistic change = true →
  isPaused st = false →
  pipeline (middlewares st) change = [delivered] →
  js_in (state st) (atomId change) = true →
  storage st ≠ Some ReturnsVoid →
  let after := applyChange change st in
  completion_of after = Normal tt
  ∧ state (state_of after) = <[atomId change := newValue delivered]> (state st)
  ∧ atom_notifications (trace_of after)
    = (λ subscriber, (subscriber, delivered_event st change delivered))
      <$> default [] (JsMap.get (atomId change) (atomSubscriptions st))
  ∧ sync_sends (trace_of after) = [].
Proof.
  intros Hopt Hrun Hpipe Hin Hstorage after. subst after.
  split; [|split; [|split]]; [| | |by apply optimistic_never_sent].
  all: rewrite (applyChange_delivered _ delivered) by done.
  all: rewrite applyFinal_run by first [done | split; [done | by left]].
  all: unfold completion_of, state_of, trace_of; cbn [fst snd].
  - done.
  - apply state_applied.
  - apply atom_notifications_applied.
Qed.

End Selectors.

(** * Further properties of the store *)

Section Wiring.
Context {Value : Type} `{!JsRuntime Value}.

Implicit Types (st : Store Value) (change : StateChangeEvent Value).

Lemma wiring_applied_store st change delivered :
  wiring (applied_store st change delivered) = wiring st.
Proof. unfold applied_store. by destruct (timeTravel st). Qed.

(** [applyFinal] assigns the snapshot, the timeline and the counters, and
    nothing else, however it ends. *)
Lemma applyFinal_wiring change delivered st :
  wiring (state_of (applyFinal change delivered st)) = wiring st.
Proof.
  destruct (js_in (state st) (atomId change)) eqn:Hin.
  2: { by rewrite applyFinal_unknown. }
  destruct (decide (storage st = Some ReturnsVoid)) as [Hstorage|Hstorage].
  { by rewrite applyFinal_storage_void. }
  destruct (optimistic change) eqn:Hopt.
  { rewrite applyFinal_run by first [done | split; [done | by left]].
    apply wiring_applied_store. }
  destruct (decide (sync st = Some ReturnsVoid)) as [Hsync|Hsync].
  { by rewrite applyFinal_sync_void. }
  rewrite applyFinal_run by first [done | split; [done | by right]].
  apply wiring_applied_store.
Qed.

(** What holds of every effect of a completed final branch, on every store
    with the wiring of [st], holds of every effect of [applyChange] on
    [st]; and [applyChange] leaves the wiring alone. *)
Lemma applyChange_wiring (Q : Effect Value → Prop) change st :
  (∀ st' delivered,
     wiring st' = wiring st → Forall Q (applied_trace st' change delivered)) →
  wiring (state_of (applyChange change st)) = wiring st
  ∧ Forall Q (trace_of (applyChange change st)).
Proof.
  intros HQ. unfold applyChange, bind, get_state.
  destruct (isPaused st); [done|].
  rewrite applyMiddlewares_pipeline.
  destruct (for_each_preserves (pipeline (middlewares st) change)
              (applyFinal change)
              (λ st', wiring st' = wiring st) Q) with (s := st)
    as [Hwiring Htrace]; [|done|].
  - intros delivered st' Hst'. split.
    + by rewrite applyFinal_wiring.
    + destruct (applyFinal_prefix change delivered st') as [[rest Hrest] _].
      specialize (HQ st' delivered Hst'). rewrite Hrest in HQ.
      by apply Forall_app in HQ as [? _].
  - destruct (for_each _ _ st) as [[r st1] t1].
    unfold trace_of, state_of in *; cbn [fst snd] in *.
    by rewrite (left_id_L [] (++)).
Qed.

(** The subscriber invocations of a completed final branch are those of
    the subscribers of the field. *)
Lemma elem_of_applied_trace_notify st change delivered subscriber event :
  AtomNotify subscriber event ∈ applied_trace st change delivered →
  subscriber ∈ default [] (JsMap.get (atomId change) (atomSubscriptions st)).
Proof.
  unfold applied_trace. rewrite !elem_of_app.
  intros [He|[He|[He|[He|He]]]].
  - destruct (storage st); [|set_solver]. by apply list_elem_of_singleton in He.
  - destruct (sync st), (optimistic change); try set_solver;
      by apply list_elem_of_singleton in He.
  - unfold notified in He. apply list_elem_of_bind in He as (s & He & Hs).
    apply list_elem_of_singleton in He. by injection He as -> _.
  - by apply selector_effects_affected in He.
  - destruct (logChanges st); [|set_solver].
    repeat (apply elem_of_cons in He as [?|He]; [done|]). set_solver.
Qed.

(** The selector callbacks of a completed final branch are those of the
    subscribers of the selector. *)
Lemma elem_of_applied_trace_selector_notify st change delivered id subscriber v :
  SelectorNotify id subscriber v ∈ applied_trace st change delivered →
  subscriber ∈ default [] (JsMap.get id (selectorSubscriptions st)).
Proof.
  unfold applied_trace. rewrite !elem_of_app.
  intros [He|[He|[He|[He|He]]]].
  - destruct (storage st); [|set_solver]. by apply list_elem_of_singleton in He.
  - destruct (sync st), (optimistic change); try set_solver;
      by apply list_elem_of_singleton in He.
  - unfold notified in He. apply list_elem_of_bind in He as (s & He & Hs).
    by apply list_elem_of_singleton in He.
  - unfold selector_effects in He. apply list_elem_of_bind in He as (id' & He & _).
    assert (selectorSubscriptions (applied_store st change delivered)
            = selectorSubscriptions st) as Hsubs.
    { unfold applied_store. by destruct (timeTravel st). }
    rewrite Hsubs in He.
    destruct (JsMap.get id' (selectorCache _)); [|set_solver].
    apply elem_of_cons in He as [?|He]; [done|].
    apply list_elem_of_bind in He as (s & He & Hs).
    apply list_elem_of_singleton in He. by injection He as -> -> _.
  - destruct (logChanges st); [|set_solver].
    repeat (apply elem_of_cons in He as [?|He]; [done|]). set_solver.
Qed.

Lemma omap_selector_effects {B} (p : Effect Value → option B) atomKey st :
  (∀ id snapshot v, p (SelectorCompute id snapshot v) = None) →
  (∀ id s v, p (SelectorNotify id s v) = None) →
  omap p (selector_effects atomKey st) = [].
Proof.
  intros Hc Hn. unfold selector_effects. apply omap_bind_nil. intros id.
  destruct (JsMap.get id (selectorCache st)); [|done].
  cbn. rewrite Hc. apply omap_bind_nil. intros s. cbn. by rewrite Hn.
Qed.

End Wiring.


Section Subscriptions.
Context {Value : Type} `{!JsRuntime Value}.

Implicit Types (st : Store Value) (change : StateChangeEvent Value).

Lemma JsSet_delete_elem (x y : nat) (s : list nat) :
  y ∈ JsSet.delete x s ↔ y ∈ s ∧ y ≠ x.
Proof. unfold JsSet.delete. rewrite list_elem_of_filter. tauto. Qed.

(** X1. Once a callback is unsubscribed from a field, no change to that
    field invokes it again: on every store, whatever the middlewares
    deliver and however [applyChange] ends. *)
Theorem unsubscribed_never_notified st change callback :
  ∀ event,
    AtomNotify callback event
      ∉ trace_of (applyChange change
                    (state_of (unsubscribe (atomId change) callback st))).
Proof.
  intros event Hnotified.
  set (st1 := state_of (unsubscribe (atomId change) callback st)) in *.
  destruct (applyChange_wiring
    (λ e, match e with AtomNotify s _ => s ≠ callback | _ => True end)
    change st1) as [_ Heffects].
  - intros st' delivered Hst'. apply Forall_forall. intros e He.
    destruct e as [| | | | | |s ev| | |]; try done.
    apply elem_of_applied_trace_notify in He.
    assert (atomSubscriptions st' = atomSubscriptions st1) as Hsame
      by (by injection Hst').
    rewrite Hsame in He. clear Hsame.
    intros ->. subst st1. unfold unsubscribe, bind, get_state, state_of in He.
    destruct (JsMap.get (atomId change) (atomSubscriptions st)) as [subscribers|] eqn:Hsubs;
      cbn in He.
    + rewrite JsMap_get_set, bool_decide_eq_true_2 in He by done.
      cbn in He. apply JsSet_delete_elem in He. by destruct He.
    + rewrite Hsubs in He. cbn in He. set_solver.
  - rewrite Forall_forall in Heffects. by apply Heffects in Hnotified.
Qed.

(** X2. After [dispose] the store still applies changes, but it invokes no
    subscriber of a field and no subscriber of a selector any more, on
    every store and however [applyChange] ends; [dispose] itself leaves
    the snapshot and the selector cache as they are. *)
Theorem disposed_store_notifies_nobody st change :
  state (state_of (dispose st)) = state st
  ∧ selectorCache (state_of (dispose st)) = selectorCache st
  ∧ ∀ e, e ∈ trace_of (applyChange change (state_of (dispose st))) →
         match e with
         | AtomNotify _ _ | SelectorNotify _ _ _ => False
         | _ => True
         end.
Proof.
  assert (∃ t, dispose st
               = (Normal tt, set_selectorSubscriptions [] (set_atomSubscriptions [] st), t))
    as [t Hdispose].
  { unfold dispose. js_run. cbn [sync set_selectorSubscriptions set_atomSubscriptions].
    destruct (sync st); eexists; reflexivity. }
  rewrite Hdispose. unfold state_of; cbn [fst snd].
  split; [done|]. split; [done|].
  set (st1 := set_selectorSubscriptions [] (set_atomSubscriptions [] st)).
  destruct (applyChange_wiring
    (λ e, match e with
          | AtomNotify _ _ | SelectorNotify _ _ _ => False
          | _ => True
          end) change st1) as [_ Heffects].
  - intros st' delivered Hst'. apply Forall_forall. intros e He.
    destruct e as [| | | | | |s ev| |id s v|]; try done.
    + apply elem_of_applied_trace_notify in He.
      assert (atomSubscriptions st' = []) as Hnone by (by injection Hst').
      rewrite Hnone in He. cbn in He. set_solver.
    + apply elem_of_applied_trace_selector_notify in He.
      assert (selectorSubscriptions st' = []) as Hnone by (by injection Hst').
      rewrite Hnone in He. cbn in He. set_solver.
  - by rewrite Forall_forall in Heffects.
Qed.

End Subscriptions.


Section PauseAndMiddlewares.
Context {Value : Type} `{!JsRuntime Value}.

Implicit Types (st : Store Value) (change : StateChangeEvent Value)
  (tx : Transaction Value).

Lemma applyChange_paused st change :
  isPaused st = true → applyChange change st = (Normal tt, st, []).
Proof. intros Hpaused. unfold applyChange, bind, get_state. by rewrite Hpaused. Qed.

(** An accepted update on a paused store: the change is created and
    dropped. *)
Lemma updateAtom_paused st F atom (value : UpdateArg Value) (v : Value) optimistic :
  isPaused st = true →
  JsMap.get F (atoms st) = Some atom →
  atom_validate atom (proposed value (js_get (state st) F)) = Some v →
  updateAtom F value optimistic st = (Normal tt, stamped st, []).
Proof.
  intros Hpaused Hatom Hraw.
  rewrite (updateAtom_accepted _ _ atom _ v) by done.
  by rewrite applyChange_paused.
Qed.

(** X3. On a paused store, [commit] of a transaction whose staged values
    the validators accept completes normally and empties the
    transaction, yet applies nothing: snapshot and timeline are unchanged
    and no subscriber, adapter or selector is called. The staged changes
    are lost. *)
Theorem commit_while_paused_loses_changes st tx :
  isPaused st = true →
  Forall (λ entry, is_Some (JsMap.get (fst entry) (atoms st)
                            ≫= λ atom, atom_validate atom (snd entry)))
         (changes tx) →
  completion_of (tx_commit (st, tx)) = Normal tt
  ∧ snd (state_of (tx_commit (st, tx))) = createTransaction
  ∧ state (fst (state_of (tx_commit (st, tx)))) = state st
  ∧ timeline (fst (state_of (tx_commit (st, tx)))) = timeline st
  ∧ trace_of (tx_commit (st, tx)) = [].
Proof.
  intros Hpaused Hvalid. rewrite tx_commit_run.
  assert (∃ st', for_each (changes tx)
                   (λ entry, updateAtom (fst entry) (Direct (snd entry)) false) st
                 = (Normal tt, st', [])
                 ∧ state st' = state st ∧ timeline st' = timeline st)
    as (st' & -> & Hstate & Htimeline); [|done].
  revert st Hpaused Hvalid. induction (changes tx) as [|[k v] pending IH];
    intros st Hpaused Hvalid.
  { by exists st. }
  apply Forall_cons in Hvalid as [Hentry Hrest]. cbn [fst snd] in Hentry.
  destruct (JsMap.get k (atoms st)) as [atom|] eqn:Hatom; [|by destruct Hentry].
  destruct Hentry as [validated Hvalidated]. cbn in Hvalidated.
  cbn [for_each fst snd]. unfold bind.
  rewrite (updateAtom_paused _ _ atom _ validated) by done.
  destruct (IH (stamped st)) as (st' & Hloop & Hstate & Htimeline); [done|done|].
  rewrite Hloop. by exists st'.
Qed.

Lemma bind_bind {A B C} (f : A → list B) (g : B → list C) (l : list A) :
  (l ≫= f) ≫= g = l ≫= λ x, f x ≫= g.
Proof.
  induction l as [|x l IH]; [done|]. by rewrite !bind_cons, bind_app, IH.
Qed.

Lemma pipeline_app (mws1 mws2 : list (Middleware Value)) change :
  pipeline (mws1 ++ mws2) change = pipeline mws1 change ≫= pipeline mws2.
Proof.
  revert change. induction mws1 as [|mw mws1 IH]; intros change; cbn [app pipeline].
  - by rewrite bind_singleton.
  - rewrite bind_bind. apply list_bind_ext; [|done]. intros c. apply IH.
Qed.

Lemma pipeline_veto (mws : list (Middleware Value)) mw change :
  mw ∈ mws → (∀ c, mw_run mw c = []) → pipeline mws change = [].
Proof.
  intros Hmw Hveto. apply list_elem_of_split in Hmw as (mws1 & mws2 & ->).
  rewrite pipeline_app.
  induction (pipeline mws1 change) as [|c cs IH]; [done|].
  rewrite bind_cons, IH. cbn [pipeline]. by rewrite Hveto.
Qed.

(** X4. A middleware that never calls [next] vetoes every change,
    wherever it stands among the middlewares: [applyChange] leaves the
    store as it is and calls nothing. *)
Theorem vetoing_middleware_drops_change st change mw :
  mw ∈ middlewares st →
  (∀ c, mw_run mw c = []) →
  applyChange change st = (Normal tt, st, []).
Proof.
  intros Hmw Hveto. unfold applyChange, bind, get_state.
  destruct (isPaused st); [done|].
  by rewrite applyMiddlewares_pipeline, (pipeline_veto _ mw).
Qed.

Lemma remove_first_app_fresh (mws : list (Middleware Value)) mw :
  mw_id mw ∉ mw_id <$> mws → remove_first (mw_id mw) (mws ++ [mw]) = mws.
Proof.
  induction mws as [|mw' mws IH]; intros Hfresh; cbn.
  - by rewrite bool_decide_eq_true_2.
  - rewrite fmap_cons, not_elem_of_cons in Hfresh. destruct Hfresh as [Hne Hfresh].
    rewrite bool_decide_eq_false_2 by done. by rewrite IH.
Qed.

(** X5. The function [addMiddleware] returns undoes the registration:
    calling it right away gives back the store as it was, provided the
    middleware was not registered before. *)
Theorem remove_added_middleware st mw :
  mw_id mw ∉ mw_id <$> middlewares st →
  state_of (removeMiddleware mw (state_of (addMiddleware mw st))) = st.
Proof.
  intros Hfresh. unfold removeMiddleware, addMiddleware, modify, state_of.
  cbn [fst snd middlewares set_middlewares]. rewrite remove_first_app_fresh by done.
  by destruct st.
Qed.

End PauseAndMiddlewares.


Section TimeTravel.
Context {Value : Type} `{!JsRuntime Value}.

Implicit Types (st : Store Value) (change : StateChangeEvent Value).

(** A loop whose turns all complete: what each turn keeps and shows, the
    loop keeps and shows in order. *)
Lemma for_each_completes {S A B} (xs : list A) (body : A → Js Value S unit)
    (I : S → Prop) (Q : Effect Value → Prop)
    (proj : Effect Value → option B) (g : A → list B) :
  (∀ x s, I s →
     completion_of (body x s) = Normal tt
     ∧ I (state_of (body x s))
     ∧ Forall Q (trace_of (body x s))
     ∧ omap proj (trace_of (body x s)) = g x) →
  ∀ s, I s →
    completion_of (for_each xs body s) = Normal tt
    ∧ I (state_of (for_each xs body s))
    ∧ Forall Q (trace_of (for_each xs body s))
    ∧ omap proj (trace_of (for_each xs body s)) = xs ≫= g.
Proof.
  intros Hbody. induction xs as [|x xs IH]; intros s Hs; [done|].
  cbn [for_each]. unfold bind.
  destruct (Hbody x s Hs) as (Hc & HI & HQ & Hproj).
  destruct (body x s) as [[c s1] t1].
  unfold completion_of, state_of, trace_of in *; cbn [fst snd] in *. subst c.
  destruct (IH s1 HI) as (Hc' & HI' & HQ' & Hproj').
  destruct (for_each xs body s1) as [[c s2] t2]; cbn [fst snd] in *.
  split; [done|]. split; [done|]. split; [by apply Forall_app|].
  by rewrite omap_app, Hproj, Hproj', bind_cons.
Qed.

Lemma find_entry_Some entryId (entries : list (TimelineEntry Value)) entry :
  find_entry entryId entries = Some entry →
  ∃ i, list_find (λ e, entry_id e = entryId) entries = Some (i, entry).
Proof.
  unfold find_entry. destruct (list_find _ entries) as [[i e]|]; [|done].
  intros [= ->]. by exists i.
Qed.

(** X6. Take a store with time travel enabled that is not paused, a
    change to a field the snapshot has that the middlewares deliver once,
    and adapters whose [set] and [sendChange], where [applyChange] calls
    them for this change, do not return [undefined]. Then [applyChange]
    appends one entry to the timeline: it holds the snapshot after the
    change and the change the middlewares delivered, and [travelTo] finds
    it under its id unless an older entry has the same id. *)
Theorem applied_change_recorded st change delivered :
  timeTravel st = true →
  isPaused st = false →
  pipeline (middlewares st) change = [delivered] →
  js_in (state st) (atomId change) = true →
  catch_safe st change →
  let after := state_of (applyChange change st) in
  let entry := {| entry_timestamp := date_now (clockReads st);
                  entry_snapshot := state after;
                  entry_change := delivered;
                  entry_id := nanoid (idsDrawn st) |} in
  timeline after = timeline st ++ [entry]
  ∧ (Forall (λ e, entry_id e ≠ nanoid (idsDrawn st)) (timeline st) →
     find_entry (nanoid (idsDrawn st)) (timeline after) = Some entry).
Proof.
  intros Htravel Hrun Hpipe Hin Hsafe after entry. subst after entry.
  rewrite (applyChange_delivered _ delivered), applyFinal_run by done.
  unfold state_of, applied_store; cbn [fst snd]. rewrite Htravel.
  cbn [timeline set_timeline state set_idsDrawn set_clockReads set_state].
  split; [done|]. intros Hfresh. unfold find_entry.
  set (entry := {| entry_timestamp := _ |}).
  assert (list_find (λ e, entry_id e = nanoid (idsDrawn st)) (timeline st ++ [entry])
          = Some (length (timeline st), entry)) as ->; [|done].
  apply list_find_Some. split; [|split].
  - by rewrite lookup_app_r, Nat.sub_diag by lia.
  - done.
  - intros j e Hj Hlt. rewrite lookup_app_l in Hj by done.
    rewrite Forall_forall in Hfresh. apply Hfresh. by eapply list_elem_of_lookup_2.
Qed.

Lemma travelTo_found_run st entryId i entry :
  list_find (λ e, entry_id e = entryId) (timeline st) = Some (i, entry) →
  travelTo entryId st
  = match notify_all_subscribers st (set_state (entry_snapshot entry) st) with
    | (Normal _, st2, t2) => (Normal tt, st2, t2 ++ selector_effects "*" st2)
    | (Throw e, st2, t2) => (Throw e, st2, t2)
    end.
Proof.
  intros Hfind. unfold travelTo, notify_all_subscribers.
  unfold bind at 1. unfold get_state at 1. rewrite Hfind.
  unfold bind at 1, modify. cbn [fst snd]. unfold bind at 1.
  destruct (for_each (atomSubscriptions st) _ _) as [[[[]|e] st2] t2]; [|done].
  by rewrite updateSelectors_run.
Qed.

(** The loop of [travelTo] completes, invokes subscribers only, and
    touches the two counters only. *)
Lemma notify_all_subscribers_run st0 st :
  let after := notify_all_subscribers st0 st in
  completion_of after = Normal tt
  ∧ state (state_of after) = state st
  ∧ timeline (state_of after) = timeline st
  ∧ wiring (state_of after) = wiring st
  ∧ Forall (λ e, match e with AtomNotify _ _ => True | _ => False end)
           (trace_of after)
  ∧ atom_deliveries (trace_of after)
    = (atomSubscriptions st0 ≫= λ subscription,
         snd subscription ≫= λ subscriber,
           [(subscriber, fst subscription, undefined,
             js_get (state st) (fst subscription))]).
Proof.
  set (I := λ s : Store Value,
         state s = state st ∧ timeline s = timeline st ∧ wiring s = wiring st).
  destruct (for_each_completes (atomSubscriptions st0)
    (λ subscription, for_each (snd subscription) (λ subscriber,
       let! st := get_state in
       let value := js_get (state st) (fst subscription) in
       let! ts := now in
       let! id := fresh_id in
       emit (AtomNotify subscriber
               {| atomId := fst subscription; prevValue := undefined;
                  newValue := value; timestamp := ts; changeId := id;
                  source := clientId st; optimistic := false |})))
    I (λ e, match e with AtomNotify _ _ => True | _ => False end)
    (λ e, match e with
          | AtomNotify s c => Some (s, atomId c, prevValue c, newValue c)
          | _ => None
          end)
    (λ subscription, snd subscription ≫= λ subscriber,
       [(subscriber, fst subscription, undefined,
         js_get (state st) (fst subscription))])) with (s := st)
    as (Hc & (Hstate & Htimeline & Hwiring) & HQ & Hproj); [|done|done].
  intros subscription s Hs.
  apply (for_each_completes (snd subscription) _ I _ _
    (λ subscriber, [(subscriber, fst subscription, undefined,
                     js_get (state st) (fst subscription))])); [|done].
  intros subscriber s' (Hs1 & Hs2 & Hs3).
  unfold completion_of, state_of, trace_of. cbn.
  repeat split; try done. 2: by rewrite Hs1.
  by repeat constructor.
Qed.

(** X7. [travelTo] with the id of an entry replaces the snapshot by the
    entry's and leaves the timeline and the rest of the store as they are.
    Every subscriber of every field is invoked once, fields in the order of
    the subscription map, with [prevValue] undefined and the restored value
    of its field as [newValue]; nothing is persisted and nothing is sent. *)
Theorem travelTo_restores_snapshot st entryId entry :
  find_entry entryId (timeline st) = Some entry →
  let after := travelTo entryId st in
  completion_of after = Normal tt
  ∧ state (state_of after) = entry_snapshot entry
  ∧ timeline (state_of after) = timeline st
  ∧ wiring (state_of after) = wiring st
  ∧ atom_deliveries (trace_of after)
    = (atomSubscriptions st ≫= λ subscription,
         snd subscription ≫= λ subscriber,
           [(subscriber, fst subscription, undefined,
             js_get (entry_snapshot entry) (fst subscription))])
  ∧ storage_sets (trace_of after) = []
  ∧ sync_sends (trace_of after) = [].
Proof.
  intros Hfind after. subst after.
  apply find_entry_Some in Hfind as [i Hfind].
  rewrite (travelTo_found_run _ _ i entry) by done.
  destruct (notify_all_subscribers_run st (set_state (entry_snapshot entry) st))
    as (Hc & Hstate & Htimeline & Hwiring & HQ & Hproj).
  destruct (notify_all_subscribers st _) as [[c st2] t2].
  unfold completion_of, state_of, trace_of in *; cbn [fst snd] in *. subst c.
  cbn [fst snd]. do 4 (split; [done|]).
  assert (∀ {B} (p : Effect Value → option B),
            (∀ s c, p (AtomNotify s c) = None) → omap p t2 = []) as Hloop.
  { intros B p Hp. clear -HQ Hp. induction HQ as [|e t He _ IH]; [done|].
    destruct e; try done. cbn. by rewrite Hp, IH. }
  unfold storage_sets, sync_sends. unfold atom_deliveries at 1. rewrite !omap_app.
  rewrite !omap_selector_effects by done. fold (atom_deliveries t2).
  rewrite Hproj, (right_id_L [] (++)). split; [done|].
  split; by rewrite Hloop.
Qed.

(** [travelTo] with an id no entry of the timeline has does nothing
    at all: the store is unchanged and no subscriber is invoked. After
    [clearTimeline] that is the case for every id. *)
Lemma travelTo_unknown_entry st entryId :
  find_entry entryId (timeline st) = None →
  travelTo entryId st = (Normal tt, st, [])
  ∧ travelTo entryId (state_of (clearTimeline st))
    = (Normal tt, state_of (clearTimeline st), []).
Proof.
  intros Hfind. unfold find_entry in Hfind. split.
  - unfold travelTo, bind, get_state.
    by destruct (list_find _ (timeline st)) as [[i e]|].
  - reflexivity.
Qed.

(** X8. [travelTo] does not recompute the selectors: it calls
    [updateSelectors] with ["*"], which concerns the selectors that have
    that very name among their dependencies and no others. A selector
    whose dependencies are field names is not computed, and its
    subscribers keep the value from before the jump. *)
Theorem travelTo_leaves_selectors_stale st entryId id :
  (∀ cached, (id, cached) ∈ selectorCache st → "*" ∉ deps cached) →
  ∀ e, e ∈ trace_of (travelTo entryId st) →
       match e with
       | SelectorCompute id' _ _ | SelectorNotify id' _ _ => id' ≠ id
       | _ => True
       end.
Proof.
  intros Hdeps e He.
  destruct (find_entry entryId (timeline st)) as [entry|] eqn:Hfind.
  2: { apply travelTo_unknown_entry in Hfind as [Hnone _].
       rewrite Hnone in He. cbn in He. set_solver. }
  apply find_entry_Some in Hfind as [i Hfind].
  rewrite (travelTo_found_run _ _ i entry) in He by done.
  destruct (notify_all_subscribers_run st (set_state (entry_snapshot entry) st))
    as (Hc & _ & _ & Hwiring & HQ & _).
  destruct (notify_all_subscribers st _) as [[c st2] t2].
  unfold completion_of, state_of, trace_of in *; cbn [fst snd] in *. subst c.
  cbn [fst snd] in He. apply elem_of_app in He as [He|He].
  - rewrite Forall_forall in HQ. apply HQ in He. by destruct e.
  - apply selector_effects_affected in He.
    assert (selectorCache st2 = selectorCache st) as Hcache by (by injection Hwiring).
    assert (id ∉ affectedSelectors "*" (selectorCache st2)) as Hnot.
    { rewrite elem_of_affectedSelectors, Hcache. intros (cached & Hin & Hstar).
      by apply (Hdeps cached). }
    destruct e; try done; by intros ->.
Qed.

End TimeTravel.


Section SelectorRegistry.
Context {Value : Type} `{!JsRuntime Value}.

Implicit Types (st : Store Value) (change : StateChangeEvent Value).

Lemma elem_of_of_strings (k : string) (l : list string) :
  k ∈ JsSet.of_strings l ↔ k ∈ l.
Proof.
  unfold JsSet.of_strings.
  assert (∀ acc, k ∈ foldl (λ s x, JsSet.add_string x s) acc l ↔ k ∈ acc ∨ k ∈ l)
    as Hfold.
  { induction l as [|x l IH]; intros acc; cbn; [set_solver|].
    rewrite IH, elem_of_add_string. set_solver. }
  rewrite Hfold. set_solver.
Qed.

Lemma elem_of_select_tracked (sel : Selector Value) target (k : string) :
  ∀ deps0, k ∈ select_tracked sel target deps0 ↔ k ∈ deps0 ∨ k ∈ reads sel target.
Proof.
  induction sel as [r|prop cont IH]; intros deps0; cbn; [set_solver|].
  rewrite IH, elem_of_add_string. set_solver.
Qed.

Lemma createSelector_run st selector explicitDeps :
  createSelector selector explicitDeps st
  = (Normal (Created (nanoid (idsDrawn st)) selector),
     set_selectorCache
       (JsMap.set (nanoid (idsDrawn st))
          {| deps := match explicitDeps with
                     | Some (_ :: _) => JsSet.of_strings (default [] explicitDeps)
                     | _ => select_tracked selector (state st)
                              (JsSet.of_strings (default [] explicitDeps))
                     end;
             compute := selector |}
          (selectorCache st))
       (set_idsDrawn (S (idsDrawn st)) st),
     []).
Proof. reflexivity. Qed.

(** X9. [createSelector] registers the selector under a fresh id, with
    the declared dependencies when a non-empty list is given, and otherwise
    with exactly the fields the selector reads on the snapshot of that
    moment. It computes nothing that anyone observes and leaves the
    snapshot alone. *)
Theorem createSelector_dependencies st selector explicitDeps :
  let after := createSelector selector explicitDeps st in
  let id := nanoid (idsDrawn st) in
  completion_of after = Normal (Created id selector)
  ∧ trace_of after = []
  ∧ state (state_of after) = state st
  ∧ ∃ cached,
      JsMap.get id (selectorCache (state_of after)) = Some cached
      ∧ compute cached = selector
      ∧ ∀ k, k ∈ deps cached
             ↔ match explicitDeps with
               | Some (d :: ds) => k ∈ d :: ds
               | _ => k ∈ reads selector (state st)
               end.
Proof.
  intros after id. subst after id. rewrite createSelector_run.
  unfold completion_of, state_of, trace_of. cbn [fst snd].
  do 3 (split; [done|]). eexists. split.
  { cbn [selectorCache set_selectorCache].
    by rewrite JsMap_get_set, bool_decide_eq_true_2. }
  split; [done|]. intros k. cbn [deps].
  destruct explicitDeps as [[|d ds]|].
  - rewrite elem_of_select_tracked. cbn. set_solver.
  - apply elem_of_of_strings.
  - rewrite elem_of_select_tracked. cbn. set_solver.
Qed.

Lemma JsMap_get_None_not_elem {V} (k : string) (v : V) (m : JsMap.t V) :
  JsMap.get k m = None → (k, v) ∉ m.
Proof.
  induction m as [|[k' v'] m IH]; cbn; [set_solver|].
  case_bool_decide; [done|]. intros Hget [Heq|Hin]%elem_of_cons.
  - by injection Heq as -> _.
  - by apply IH.
Qed.

Lemma JsMap_set_fresh {V} (k : string) (v : V) (m : JsMap.t V) :
  JsMap.get k m = None → JsMap.set k v m = m ++ [(k, v)].
Proof.
  induction m as [|[k' v'] m IH]; cbn; [done|].
  case_bool_decide; [done|]. intros Hget. by rewrite IH.
Qed.

(** What [applyChange] computes are selectors its field affects. *)
Lemma applyChange_computes st change id snapshot result :
  SelectorCompute id snapshot result ∈ trace_of (applyChange change st) →
  ∃ cached, (id, cached) ∈ selectorCache st ∧ atomId change ∈ deps cached.
Proof.
  intros Hcomputed.
  destruct (applyChange_wiring
    (λ e, match e with
          | SelectorCompute id' _ _ =>
              ∃ cached, (id', cached) ∈ selectorCache st ∧ atomId change ∈ deps cached
          | _ => True
          end) change st) as [_ Heffects].
  2: { rewrite Forall_forall in Heffects. by apply Heffects in Hcomputed. }
  intros st' delivered Hwiring. apply Forall_forall. intros e He.
  destruct e as [| | | | | | |id' ? ?| |]; try done.
  unfold applied_trace in He. rewrite !elem_of_app in He.
  destruct He as [He|[He|[He|[He|He]]]].
  - destruct (storage st'); [|set_solver]. by apply list_elem_of_singleton in He.
  - destruct (sync st'), (optimistic change); try set_solver;
      by apply list_elem_of_singleton in He.
  - unfold notified in He. apply list_elem_of_bind in He as (s & He & _).
    by apply list_elem_of_singleton in He.
  - apply selector_effects_affected in He.
    apply elem_of_affectedSelectors in He.
    assert (selectorCache (applied_store st' change delivered) = selectorCache st)
      as Hsame.
    { transitivity (selectorCache st').
      - unfold applied_store. by destruct (timeTravel st').
      - by injection Hwiring. }
    by rewrite Hsame in He.
  - destruct (logChanges st'); [|set_solver].
    repeat (apply elem_of_cons in He as [?|He]; [done|]). set_solver.
Qed.

(** [applyChange] never assigns the selector cache. *)
Lemma applyChanges_selectorCache (changes : list (StateChangeEvent Value)) st :
  selectorCache (applyChanges changes st) = selectorCache st.
Proof.
  revert st. induction changes as [|change changes IH]; intros st; [done|].
  unfold applyChanges in *. cbn [foldl]. rewrite IH.
  destruct (applyChange_wiring (λ _, True) change st) as [Hwiring _].
  { intros st' delivered _. by apply Forall_forall. }
  by injection Hwiring.
Qed.

(** X10. The dependencies inferred by [createSelector] are those of the
    snapshot at creation. Take a selector registered without declared
    dependencies, under an id the cache did not hold, that did not read
    field [A] on the snapshot of that moment. Whatever changes go through
    [applyChange] afterwards, and so whatever the snapshot has become and
    whatever the selector would read on it, a change to [A] never computes
    the selector. *)
Theorem inferred_dependencies_fixed_at_creation st selector
    (earlier : list (StateChangeEvent Value)) change :
  JsMap.get (nanoid (idsDrawn st)) (selectorCache st) = None →
  atomId change ∉ reads selector (state st) →
  let created := state_of (createSelector selector None st) in
  ∀ snapshot result,
    SelectorCompute (nanoid (idsDrawn st)) snapshot result
      ∉ trace_of (applyChange change (applyChanges earlier created)).
Proof.
  intros Hfresh Hunread created snapshot result Hcomputed.
  apply applyChange_computes in Hcomputed as (cached & Hin & Hdep).
  rewrite applyChanges_selectorCache in Hin. subst created.
  rewrite createSelector_run in Hin. unfold state_of in Hin.
  cbn [fst snd selectorCache set_selectorCache] in Hin.
  rewrite JsMap_set_fresh in Hin by done.
  apply elem_of_app in Hin as [Hin|Hin].
  { by apply JsMap_get_None_not_elem in Hin. }
  apply list_elem_of_singleton in Hin. injection Hin as ->. cbn [deps] in Hdep.
  apply elem_of_select_tracked in Hdep. cbn in Hdep. set_solver.
Qed.

Lemma JsMap_get_delete {V} (k k' : string) (m : JsMap.t V) :
  NoDup m.*1 →
  JsMap.get k (JsMap.delete k' m) = if bool_decide (k' = k) then None else JsMap.get k m.
Proof.
  induction m as [|[k0 v0] m IH]; cbn; intros Hnodup.
  { by case_bool_decide. }
  apply NoDup_cons in Hnodup as [Hk0 Hnodup].
  destruct (decide (k0 = k')) as [->|Hne].
  - rewrite bool_decide_eq_true_2 by done. case_bool_decide as Hk; [|done].
    subst k. destruct (JsMap.get k' m) as [v|] eqn:Hget; [|done].
    apply JsMap_get_elem_of in Hget. exfalso. apply Hk0.
    apply list_elem_of_fmap. by exists (k', v).
  - rewrite bool_decide_eq_false_2 by done. cbn.
    destruct (decide (k0 = k)) as [->|Hk0k].
    + by rewrite bool_decide_eq_true_2, bool_decide_eq_false_2 by done.
    + rewrite (bool_decide_eq_false_2 (k0 = k)) by done. by apply IH.
Qed.

Lemma unsubscribeFromSelector_run st id callback :
  unsubscribeFromSelector id callback st
  = (Normal tt,
     match JsMap.get id (selectorSubscriptions st) with
     | Some subscribers =>
         set_selectorSubscriptions
           (match JsSet.delete callback subscribers with
            | [] => JsMap.delete id (selectorSubscriptions st)
            | _ => JsMap.set id (JsSet.delete callback subscribers)
                     (selectorSubscriptions st)
            end) st
     | None => st
     end,
     []).
Proof.
  unfold unsubscribeFromSelector, bind, get_state.
  by destruct (JsMap.get id (selectorSubscriptions st)).
Qed.

(** X11. The function [subscribeToSelector] returns removes the callback
    but never the selector. On a store that runs clean and whose
    subscription map has distinct keys, after the function ran for a
    cached selector: the cache is as before, the callback is handed no
    value of that selector by a change to a field the selector depends on
    and the snapshot has, and that change still computes the selector, even
    when nobody is left to hear the result. *)
Theorem unsubscribed_selector_still_computed st id callback cached change :
  NoDup (selectorSubscriptions st).*1 →
  JsMap.get id (selectorCache st) = Some cached →
  atomId change ∈ deps cached →
  runs_clean st →
  js_in (state st) (atomId change) = true →
  let st' := state_of (unsubscribeFromSelector id callback st) in
  let after := applyChange change st' in
  selectorCache st' = selectorCache st
  ∧ (∀ v, SelectorNotify id callback v ∉ trace_of after)
  ∧ SelectorCompute id (state (state_of after))
      (select (compute cached) (state (state_of after))) ∈ trace_of after.
Proof.
  intros Hnodup Hcached Hdep Hclean Hin st' after.
  assert (wiring_but : selectorCache st' = selectorCache st
                       ∧ state st' = state st ∧ runs_clean st'
                       ∧ callback ∉ default [] (JsMap.get id (selectorSubscriptions st'))).
  { subst st'. rewrite unsubscribeFromSelector_run. unfold state_of. cbn [fst snd].
    destruct (JsMap.get id (selectorSubscriptions st)) as [subscribers|] eqn:Hsubs.
    2: { rewrite Hsubs. do 3 (split; [done|]). cbn. apply not_elem_of_nil. }
    do 2 (split; [done|]). split; [exact Hclean|].
    cbn [selectorSubscriptions set_selectorSubscriptions].
    destruct (JsSet.delete callback subscribers) as [|s rest] eqn:Hrest.
    - rewrite JsMap_get_delete, bool_decide_eq_true_2 by done. set_solver.
    - rewrite JsMap_get_set, bool_decide_eq_true_2 by done.
      change (callback ∉ s :: rest). rewrite <- Hrest, JsSet_delete_elem. tauto. }
  destruct wiring_but as (Hcache & Hstate & Hclean' & Hgone).
  split; [done|]. subst after.
  rewrite applyChange_clean by (by rewrite ?Hstate).
  unfold state_of, trace_of. cbn [fst snd]. split.
  - intros v Hnotified.
    by apply elem_of_applied_trace_selector_notify in Hnotified.
  - destruct (selector_effects_computed (atomId change)
                (applied_store st' change change) id cached) as [Hc _]; [| done |].
    { rewrite <- Hcached, <- Hcache. unfold applied_store. by destruct (timeTravel st'). }
    unfold applied_trace. rewrite !elem_of_app. by do 3 right; left.
Qed.

End SelectorRegistry.


Section Reset.
Context {Value : Type} `{!JsRuntime Value}.

Implicit Types (st : Store Value) (change : StateChangeEvent Value).

Lemma atom_deliveries_app (t1 t2 : list (Effect Value)) :
  atom_deliveries (t1 ++ t2) = atom_deliveries t1 ++ atom_deliveries t2.
Proof. apply omap_app. Qed.

Lemma atom_deliveries_applied st change delivered :
  atom_deliveries (applied_trace st change delivered)
  = (λ subscriber,
       (subscriber, atomId delivered, js_get (state st) (atomId change),
        newValue delivered))
    <$> default [] (JsMap.get (atomId change) (atomSubscriptions st)).
Proof.
  unfold applied_trace, atom_deliveries. rewrite !omap_app.
  rewrite omap_selector_effects by done.
  assert (omap (λ e : Effect Value,
                  match e with
                  | AtomNotify s c => Some (s, atomId c, prevValue c, newValue c)
                  | _ => None
                  end)
               (notified st (atomId change) (delivered_event st change delivered))
          = (λ subscriber,
               (subscriber, atomId delivered, js_get (state st) (atomId change),
                newValue delivered))
            <$> default [] (JsMap.get (atomId change) (atomSubscriptions st))) as ->.
  { unfold notified. by apply omap_bind_singleton. }
  destruct (storage st), (sync st), (optimistic change), (logChanges st); cbn;
    by rewrite ?(right_id_L [] (++)).
Qed.

(** The snapshot after the loop of [resetState] over the entries [entries]. *)
Lemma reset_loop (entries : list (string * Atom Value)) st0 :
  ∀ st,
    runs_clean st →
    atoms st = atoms st0 →
    atomSubscriptions st = atomSubscriptions st0 →
    NoDup entries.*1 →
    (∀ entry, entry ∈ entries →
       JsMap.get (fst entry) (atoms st0) = Some (snd entry)
       ∧ js_in (state st) (fst entry) = true
       ∧ is_Some (atom_validate (snd entry) (atom_default (snd entry)))) →
    let after :=
      for_each entries
        (λ entry, updateAtom (fst entry) (Direct (atom_default (snd entry))) false) st in
    completion_of after = Normal tt
    ∧ runs_clean (state_of after)
    ∧ atoms (state_of after) = atoms st0
    ∧ atomSubscriptions (state_of after) = atomSubscriptions st0
    ∧ (∀ entry, entry ∈ entries →
         state (state_of after) !! fst entry
         = atom_validate (snd entry) (atom_default (snd entry)))
    ∧ (∀ k, k ∉ entries.*1 → state (state_of after) !! k = state st !! k)
    ∧ atom_deliveries (trace_of after)
      = (entries ≫= λ entry,
           (λ subscriber,
              (subscriber, fst entry, js_get (state st) (fst entry),
               default undefined (atom_validate (snd entry) (atom_default (snd entry)))))
           <$> default [] (JsMap.get (fst entry) (atomSubscriptions st0))).
Proof.
  induction entries as [|[k atom] entries IH]; intros st Hclean Hatoms Hsubs Hnodup Hentries.
  { cbn. unfold completion_of, state_of, trace_of. cbn [fst snd].
    do 4 (split; [done|]).
    split; [intros entry Hentry; by apply not_elem_of_nil in Hentry|]. by split. }
  cbn [fmap list_fmap fst] in Hnodup. apply NoDup_cons in Hnodup as [Hk Hnodup].
  destruct (Hentries (k, atom)) as (Hatom & Hin & [v Hv]); [by left|].
  cbn [fst snd] in Hatom, Hin, Hv.
  cbn zeta. cbn [for_each fst snd].
  rewrite (bind_normal _ _ st tt
             (applied_store (stamped st) (created_event st k v false)
                (created_event st k v false))
             (applied_trace (stamped st) (created_event st k v false)
                (created_event st k v false))).
  2: { apply (updateAtom_clean _ _ atom); [by rewrite Hatoms|done..]. }
  set (st1 := applied_store (stamped st) (created_event st k v false)
                (created_event st k v false)).
  assert (state st1 = <[k := v]> (state st)) as Hstate1
    by exact (state_applied (stamped st) _ _).
  destruct (applied_store_after (stamped st) (created_event st k v false)
              (created_event st k v false)) as (Hatoms1 & Hsubs1 & _).
  fold st1 in Hatoms1, Hsubs1.
  destruct (IH st1) as (Hc & Hclean2 & Hatoms2 & Hsubs2 & Hset & Hkept & Hdelivered).
  { by apply runs_clean_applied, runs_clean_stamped. }
  { by rewrite Hatoms1. }
  { by rewrite Hsubs1. }
  { done. }
  { intros entry Hentry. destruct (Hentries entry) as (? & ? & ?); [by right|].
    split; [done|]. split; [|done]. rewrite Hstate1. by apply js_in_insert. }
  destruct (for_each entries _ st1) as [[c st2] t2].
  unfold completion_of, state_of, trace_of in *. cbn [fst snd] in *. subst c.
  do 4 (split; [done|]). split; [|split].
  - intros entry [->|Hentry]%elem_of_cons.
    + cbn [fst snd]. rewrite Hkept by done. rewrite Hstate1, Hv.
      apply lookup_insert_eq.
    + by apply Hset.
  - intros k' Hk'. cbn [fmap list_fmap fst] in Hk'.
    apply not_elem_of_cons in Hk' as [Hne Hk'].
    rewrite Hkept by done. rewrite Hstate1. by apply lookup_insert_ne.
  - rewrite atom_deliveries_app, Hdelivered, atom_deliveries_applied.
    cbn [bind_cons mbind list_bind fst snd atomId newValue created_event].
    rewrite Hv. cbn [default].
    change (atomSubscriptions (stamped st)) with (atomSubscriptions st).
    change (state (stamped st)) with (state st). rewrite Hsubs.
    f_equal. apply Forall_bind_ext, Forall_forall. intros entry Hentry.
    apply list_fmap_ext. intros _ subscriber _. do 2 f_equal.
    rewrite Hstate1. apply js_get_insert_ne. intros ->. apply Hk.
    apply list_elem_of_fmap. by exists entry.
Qed.

(** X12. On a store that runs clean, whose fields are all in the snapshot
    and whose defaults pass their validators, [resetState] completes and
    every field holds what its validator makes of its default; the
    subscribers of each field are handed one event per field, in schema
    order, whose previous value is the one replaced. *)
Theorem resetState_restores_defaults st :
  runs_clean st →
  NoDup (atoms st).*1 →
  (∀ entry, entry ∈ atoms st →
     js_in (state st) (fst entry) = true
     ∧ is_Some (atom_validate (snd entry) (atom_default (snd entry)))) →
  let after := resetState st in
  completion_of after = Normal tt
  ∧ (∀ entry, entry ∈ atoms st →
       state (state_of after) !! fst entry
       = atom_validate (snd entry) (atom_default (snd entry)))
  ∧ (∀ k, k ∉ (atoms st).*1 → state (state_of after) !! k = state st !! k)
  ∧ atom_deliveries (trace_of after)
    = (atoms st ≫= λ entry,
         (λ subscriber,
            (subscriber, fst entry, js_get (state st) (fst entry),
             default undefined (atom_validate (snd entry) (atom_default (snd entry)))))
         <$> default [] (JsMap.get (fst entry) (atomSubscriptions st))).
Proof.
  intros Hclean Hnodup Hentries after. subst after.
  unfold resetState, bind, get_state.
  destruct (reset_loop (atoms st) st st) as (Hc & _ & _ & _ & Hset & Hkept & Hdelivered);
    try done.
  { intros entry Hentry. destruct (Hentries entry Hentry) as [? ?].
    split; [|done]. destruct entry as [k atom]. cbn [fst snd].
    destruct (JsMap.get k (atoms st)) as [atom'|] eqn:Hget.
    - apply JsMap_get_elem_of in Hget. f_equal.
      assert (∀ (l : list (string * Atom Value)) a b,
                NoDup l.*1 → (k, a) ∈ l → (k, b) ∈ l → a = b) as Hfun.
      { clear. induction l as [|[k' c] l IH]; intros a b Hnd Ha Hb.
        { by apply not_elem_of_nil in Ha. }
        cbn in Hnd. apply NoDup_cons in Hnd as [Hk' Hnd].
        apply elem_of_cons in Ha as [Ha|Ha], Hb as [Hb|Hb].
        - congruence.
        - injection Ha as -> ->. exfalso. apply Hk'.
          apply list_elem_of_fmap. by exists (k', b).
        - injection Hb as -> ->. exfalso. apply Hk'.
          apply list_elem_of_fmap. by exists (k', a).
        - by apply IH. }
      by apply (Hfun (atoms st)).
    - by apply JsMap_get_None_not_elem with (v := atom) in Hget. }
  destruct (for_each (atoms st) _ st) as [[c st2] t2].
  unfold completion_of, state_of, trace_of in *. cbn [fst snd] in *.
  by rewrite (left_id_L [] (++)).
Qed.

Lemma updateAtom_rejected st F atom (value : UpdateArg Value) optimistic :
  JsMap.get F (atoms st) = Some atom →
  atom_validate atom (proposed value (js_get (state st) F)) = None →
  updateAtom F value optimistic st
  = (Throw ZodError, st,
     [Console console_error ("Invalid value for atom " +:+ F +:+ ":")]).
Proof.
  intros Hatom Hraw.
  unfold updateAtom, bind at 1, get_state, try_catch, bind at 1.
  by rewrite (validate_rejects _ _ atom).
Qed.

(** X13. [resetState] is not all or nothing. On a store that runs clean
    and whose atoms have distinct names, when the default of a field does
    not pass the field's own validator (a schema that transforms its input
    can return what it does not accept) while the fields before it in
    schema order are in the snapshot and have defaults that pass,
    [resetState] throws the validator's error at that field, after logging
    it: the fields before it are reset, every other key of the snapshot,
    the field and the ones after it among them, keeps its value. *)
Theorem resetState_stops_at_rejected_default st before k atom rest :
  atoms st = before ++ (k, atom) :: rest →
  atom_validate atom (atom_default atom) = None →
  runs_clean st →
  NoDup (atoms st).*1 →
  (∀ entry, entry ∈ before →
     js_in (state st) (fst entry) = true
     ∧ is_Some (atom_validate (snd entry) (atom_default (snd entry)))) →
  let after := resetState st in
  completion_of after = Throw ZodError
  ∧ (∀ entry, entry ∈ before →
       state (state_of after) !! fst entry
       = atom_validate (snd entry) (atom_default (snd entry)))
  ∧ (∀ k', k' ∉ before.*1 → state (state_of after) !! k' = state st !! k')
  ∧ ∃ t, trace_of after
         = t ++ [Console console_error ("Invalid value for atom " +:+ k +:+ ":")].
Proof.
  intros Hsplit Hrejected Hclean Hnodup Hbefore after. subst after.
  assert (∀ (l : list (string * Atom Value)) key a b,
            NoDup l.*1 → (key, a) ∈ l → JsMap.get key l = Some b → a = b) as Hfun.
  { clear. induction l as [|[k' c] l IH]; intros key a b Hnd Ha Hb.
    { by apply not_elem_of_nil in Ha. }
    cbn in Hnd. apply NoDup_cons in Hnd as [Hk' Hnd]. cbn in Hb.
    apply elem_of_cons in Ha as [Ha|Ha].
    - injection Ha as -> ->. rewrite bool_decide_eq_true_2 in Hb by done. congruence.
    - case_bool_decide as Hkey.
      + subst k'. exfalso. apply Hk'. apply list_elem_of_fmap. by exists (key, a).
      + by apply (IH key). }
  assert (∀ entry, entry ∈ atoms st → JsMap.get (fst entry) (atoms st) = Some (snd entry))
    as Hget.
  { intros [key a] Hentry. cbn [fst snd].
    destruct (JsMap.get key (atoms st)) as [b|] eqn:Hb.
    - f_equal. symmetry. by apply (Hfun (atoms st) key).
    - by apply JsMap_get_None_not_elem with (v := a) in Hb. }
  destruct (reset_loop before st st) as (Hc & Hclean1 & Hatoms1 & _ & Hset & Hkept & _);
    try done.
  { rewrite Hsplit, fmap_app in Hnodup. by apply NoDup_app in Hnodup as [? _]. }
  { intros entry Hentry. destruct (Hbefore entry Hentry) as [? ?].
    split; [|done]. apply Hget. rewrite Hsplit. apply elem_of_app. by left. }
  destruct (for_each before _ st) as [[c st1] t1] eqn:Hloop.
  unfold completion_of, state_of, trace_of in Hc, Hclean1, Hatoms1, Hset, Hkept.
  cbn [fst snd] in Hc, Hclean1, Hatoms1, Hset, Hkept. subst c.
  assert (resetState st
          = (Throw ZodError, st1,
             t1 ++ [Console console_error ("Invalid value for atom " +:+ k +:+ ":")]))
    as ->.
  { unfold resetState. unfold bind at 1. unfold get_state at 1. cbn [fst snd].
    rewrite Hsplit, for_each_app. unfold bind at 1. rewrite Hloop.
    cbn [for_each]. unfold bind at 1.
    rewrite (updateAtom_rejected st1 k atom); [by rewrite (left_id_L [] (++))| |done].
    rewrite Hatoms1. apply (Hget (k, atom)).
    rewrite Hsplit. apply elem_of_app. right. by left. }
  unfold completion_of, state_of, trace_of. cbn [fst snd].
  do 3 (split; [done|]). by exists t1.
Qed.

End Reset.


Section Loading.
Context {Value : Type} `{!JsRuntime Value}.

Implicit Types (st : Store Value) (change : StateChangeEvent Value).

(** X14. A value read back from storage never makes the loading code
    throw. A value the field's validator accepts replaces the snapshot
    entry in place: no subscriber and no selector is told, nothing is
    written or sent, and the timeline does not record it. Any other value
    is logged and leaves the store as it was. *)
Theorem storageLoaded_silent st key stored :
  let after := storageLoaded key stored st in
  let accepted :=
    stored ≫= λ value, JsMap.get key (atoms st) ≫= λ atom, atom_validate atom value in
  completion_of after = Normal tt
  ∧ state_of after
    = match accepted with
      | Some validated => set_state (<[key := validated]> (state st)) st
      | None => st
      end
  ∧ trace_of after
    = match stored, accepted with
      | Some _, None =>
          [Console console_error
             ("Failed to load state for " +:+ key +:+ " from storage:")]
      | _, _ => []
      end.
Proof.
  intros after accepted. subst after accepted.
  destruct stored as [value|]; [|done]. cbn [mbind option_bind].
  unfold storageLoaded, try_catch, bind.
  destruct (JsMap.get key (atoms st)) as [atom|] eqn:Hatom.
  - cbn [mbind option_bind].
    destruct (atom_validate atom value) as [validated|] eqn:Hvalue.
    + by rewrite (validate_accepts _ _ atom value validated).
    + by rewrite (validate_rejects _ _ atom).
  - unfold validate, bind, get_state. by rewrite Hatom.
Qed.

End Loading.

Section MoreCreation.
Context {Value : Type} `{!JsRuntime Value}.

Implicit Types (st : Store Value) (config : StateManagerConfig Value).

Lemma init_atoms_rejects (schema : list (string * (Value → option Value))) k parse :
  (k, parse) ∈ schema →
  parse undefined = None →
  ∀ atoms0 initialState0 subscriptions0,
    init_atoms schema atoms0 initialState0 subscriptions0 = None.
Proof.
  intros Hin Hparse.
  induction schema as [|[k' parse'] schema IH]; intros atoms0 initialState0 subscriptions0.
  { by apply not_elem_of_nil in Hin. }
  cbn. apply elem_of_cons in Hin as [Heq|Hin].
  - injection Heq as <- <-. by rewrite Hparse.
  - destruct (parse' undefined); [|done]. by apply IH.
Qed.

(** X15. Every schema of the configuration must accept [undefined], that
    is, carry a default: when one does not, [createStateManager] throws
    the validator's error and no store comes into being. *)
Theorem schema_without_default_rejected config k parse :
  (k, parse) ∈ config_schema config →
  parse undefined = None →
  createStateManager config = (Throw ZodError, []).
Proof.
  intros Hin Hparse. unfold createStateManager.
  by rewrite (init_atoms_rejects _ k parse).
Qed.

(** X16. Naming the websocket adapter in the configuration never yields a
    store: [createStateManager] calls the adapter factory with the name
    alone, and the factory throws for want of a URL. *)
Theorem websocket_by_name_never_creates config :
  config_syncAdapter config = Some (inl websocket) →
  fst (createStateManager config) = Throw ZodError
  ∨ fst (createStateManager config)
    = Throw (Error "URL is required for websocket sync adapter").
Proof.
  intros Hsync. unfold createStateManager.
  destruct (init_atoms _ _ _ _) as [[[registry initialState] subscriptions]|];
    [|by left].
  destruct (apply_overrides _ _ _) as [initialState' logged].
  rewrite Hsync. by right.
Qed.

Lemma init_atoms_values (schema : list (string * (Value → option Value))) :
  ∀ atoms0 initialState0 subscriptions0 registry initialState subscriptions,
    init_atoms schema atoms0 initialState0 subscriptions0
      = Some (registry, initialState, subscriptions) →
    NoDup schema.*1 →
    ∀ k,
      (k ∉ schema.*1 →
         JsMap.get k registry = JsMap.get k atoms0
         ∧ initialState !! k = initialState0 !! k
         ∧ JsMap.get k subscriptions = JsMap.get k subscriptions0)
      ∧ (∀ parse, (k, parse) ∈ schema →
           ∃ defaultValue,
             parse undefined = Some defaultValue
             ∧ JsMap.get k registry
               = Some {| atom_id := k; atom_default := defaultValue;
                         atom_validate := parse |}
             ∧ initialState !! k = Some defaultValue
             ∧ JsMap.get k subscriptions = Some []).
Proof.
  induction schema as [|[k' parse'] schema IH];
    intros atoms0 initialState0 subscriptions0 registry initialState subscriptions
           Hinit Hnodup k.
  { cbn in Hinit. injection Hinit as <- <- <-. split; [done|].
    intros parse Hin. by apply not_elem_of_nil in Hin. }
  cbn in Hinit, Hnodup. apply NoDup_cons in Hnodup as [Hk' Hnodup].
  destruct (parse' undefined) as [defaultValue|] eqn:Hdefault; [|done].
  destruct (IH _ _ _ _ _ _ Hinit Hnodup k) as [Hout Hin]. split.
  - cbn. intros [Hne Hk]%not_elem_of_cons.
    destruct (Hout Hk) as (-> & -> & ->).
    rewrite !JsMap_get_set, !bool_decide_eq_false_2 by done.
    by rewrite lookup_insert_ne.
  - intros parse [Heq|Hlater]%elem_of_cons; [|by apply Hin].
    injection Heq as -> ->. exists defaultValue. split; [done|].
    destruct (Hout Hk') as (-> & -> & ->).
    rewrite !JsMap_get_set, !bool_decide_eq_true_2 by done.
    by rewrite lookup_insert_eq.
Qed.

Lemma apply_overrides_values (registry : JsMap.t (Atom Value))
    (overrides : list (string * Value)) :
  NoDup overrides.*1 →
  ∀ (initialState : gmap string Value) k,
    (apply_overrides registry overrides initialState).1 !! k
    = match JsMap.get k overrides with
      | Some value =>
          if js_in initialState k then
            match JsMap.get k registry ≫= λ atom, atom_validate atom value with
            | Some validated => Some validated
            | None => initialState !! k
            end
          else initialState !! k
      | None => initialState !! k
      end.
Proof.
  induction overrides as [|[k' value'] overrides IH]; intros Hnodup initialState k;
    [done|].
  cbn in Hnodup. apply NoDup_cons in Hnodup as [Hk' Hnodup].
  assert (k' = k → JsMap.get k overrides = None) as Hfirst.
  { intros <-. destruct (JsMap.get k' overrides) as [v|] eqn:Hget; [|done].
    apply JsMap_get_elem_of in Hget. exfalso. apply Hk'.
    apply list_elem_of_fmap. by exists (k', v). }
  cbn [apply_overrides JsMap.get].
  destruct (js_in initialState k') eqn:Hin.
  2: { rewrite IH by done. case_bool_decide as Hk; [|done].
       subst k'. by rewrite Hfirst, Hin. }
  destruct (JsMap.get k' registry) as [atom|] eqn:Hatom.
  2: { destruct (apply_overrides registry overrides initialState) as [s t] eqn:Hrest.
       cbn [fst]. change s with (s, t).1. rewrite <- Hrest, IH by done.
       case_bool_decide as Hk; [|done]. subst k'. by rewrite Hfirst, Hin, Hatom. }
  destruct (atom_validate atom value') as [validated|] eqn:Hvalue.
  2: { destruct (apply_overrides registry overrides initialState) as [s t] eqn:Hrest.
       cbn [fst]. change s with (s, t).1. rewrite <- Hrest, IH by done.
       case_bool_decide as Hk; [|done].
       subst k'. rewrite Hfirst, Hin, Hatom by done. cbn. by rewrite Hvalue. }
  rewrite IH by done. case_bool_decide as Hk.
  - subst k'. rewrite Hfirst, Hin, Hatom by done. cbn. rewrite Hvalue.
    apply lookup_insert_eq.
  - rewrite lookup_insert_ne by done.
    destruct (JsMap.get k overrides) as [value|]; [|done].
    assert (js_in (<[k' := validated]> initialState) k = js_in initialState k) as ->;
      [|done].
    unfold js_in. by rewrite lookup_insert_ne.
Qed.

(** X17. The store [createStateManager] returns holds, for every field of
    the schema, an atom whose default is what the field's schema makes of
    [undefined], an empty set of subscribers, and as initial value the
    validated override from [initialState] when there is one and the
    validator accepts it, the default otherwise. *)
Theorem created_store_initial_values config st t k parse :
  createStateManager config = (Normal st, t) →
  NoDup (config_schema config).*1 →
  NoDup (default [] (config_initialState config)).*1 →
  (k, parse) ∈ config_schema config →
  ∃ defaultValue,
    parse undefined = Some defaultValue
    ∧ JsMap.get k (atoms st)
      = Some {| atom_id := k; atom_default := defaultValue; atom_validate := parse |}
    ∧ JsMap.get k (atomSubscriptions st) = Some []
    ∧ state st !! k
      = Some (default defaultValue
                (JsMap.get k (default [] (config_initialState config)) ≫= parse)).
Proof.
  intros Hcreated Hschema Hoverrides Hin. unfold createStateManager in Hcreated.
  destruct (init_atoms _ _ _ _) as [[[registry initialState] subscriptions]|] eqn:Hinit;
    [|done].
  destruct (init_atoms_values _ _ _ _ _ _ _ Hinit Hschema k) as [_ Hfield].
  destruct (Hfield parse Hin) as (defaultValue & Hdefault & Hatom & Hinitial & Hsubs).
  pose proof (apply_overrides_values registry _ Hoverrides initialState k) as Hvalue.
  destruct (apply_overrides _ _ _) as [initialState' logged].
  destruct (match config_syncAdapter config with
            | Some (inl type) => _ | Some (inr adapter) => _ | None => _ end)
    as [adapter|e]; [|done].
  injection Hcreated as <- _. cbn [atoms atomSubscriptions state].
  exists defaultValue. do 3 (split; [done|]).
  cbn [fst] in Hvalue. rewrite Hvalue.
  destruct (JsMap.get k (default [] (config_initialState config))) as [value|];
    [|done].
  unfold js_in. rewrite Hinitial, Hatom. cbn.
  by destruct (parse value).
Qed.

End MoreCreation.


Section Revalidation.
Context {Value : Type} `{!JsRuntime Value}.

Implicit Types (st : Store Value) (change : StateChangeEvent Value)
  (tx : Transaction Value).

(** X18. [commit] validates again what [update] had validated. When the
    validator does not accept its own output (a schema that transforms),
    a transaction whose update was accepted fails at [commit]: the error
    is logged and thrown, the store is as it was, and the change stays
    staged in the transaction. *)
Theorem commit_revalidates st A atom (v v' : Value) :
  JsMap.get A (atoms st) = Some atom →
  atom_validate atom v = Some v' →
  atom_validate atom v' = None →
  let after := (tx_update A v >> tx_commit) (st, createTransaction) in
  completion_of after = Throw ZodError
  ∧ fst (state_of after) = st
  ∧ changes (snd (state_of after)) = [(A, v')]
  ∧ trace_of after = [Console console_error ("Invalid value for atom " +:+ A +:+ ":")].
Proof.
  intros Hatom Hv Hv' after. subst after.
  assert ((tx_update A v >> tx_commit) (st, createTransaction)
          = (Throw ZodError,
             (st, {| changes := [(A, v')];
                     previousValues := [(A, js_get (state st) A)] |}),
             [Console console_error ("Invalid value for atom " +:+ A +:+ ":")]))
    as ->; [|done].
  rewrite (bind_normal _ _ _ tt _ _
             (tx_update_accepted st createTransaction A atom v v' Hatom Hv)).
  rewrite tx_commit_run.
  cbn [changes previousValues createTransaction JsMap.has JsMap.get JsMap.set
       for_each fst snd].
  unfold bind at 1. by rewrite (updateAtom_rejected st A atom) by done.
Qed.

(** X19. [update] on a field the schema does not have throws a
    [TypeError] (there is no atom to validate with): the store is not
    touched and nothing is staged. *)
Theorem tx_update_unknown_field st tx A (v : Value) :
  JsMap.get A (atoms st) = None →
  let after := tx_update A v (st, tx) in
  completion_of after = Throw TypeError
  ∧ fst (state_of after) = st
  ∧ changes (snd (state_of after)) = changes tx
  ∧ trace_of after = [].
Proof.
  intros Hatom after. subst after.
  assert (∃ tx', tx_update A v (st, tx) = (Throw TypeError, (st, tx'), [])
                 ∧ changes tx' = changes tx) as (tx' & -> & Hpending).
  { unfold tx_update, bind at 1, get_state. cbn [fst snd].
    assert (validate A v st = (Throw TypeError, st, [])) as Hvalidate.
    { unfold validate, bind, get_state. by rewrite Hatom. }
    destruct (JsMap.has A (previousValues tx)); cbn [negb when];
      js_run; rewrite Hvalidate; eauto. }
  done.
Qed.

(** X20. A change that arrives from the transport is applied as it is:
    [applyChange] never consults the validator of the field, so whatever
    value a peer sends becomes the snapshot entry and is handed to the
    subscribers. *)
Theorem remote_change_applied_unvalidated st change :
  source change ≠ clientId st →
  runs_clean st →
  js_in (state st) (atomId change) = true →
  let after := onSyncChange change st in
  completion_of after = Normal tt
  ∧ state (state_of after) = <[atomId change := newValue change]> (state st)
  ∧ atoms (state_of after) = atoms st
  ∧ atom_deliveries (trace_of after)
    = (λ subscriber,
         (subscriber, atomId change, js_get (state st) (atomId change),
          newValue change))
      <$> default [] (JsMap.get (atomId change) (atomSubscriptions st)).
Proof.
  intros Hremote Hclean Hin after. subst after.
  rewrite onSyncChange_remote, applyChange_clean by done.
  unfold completion_of, state_of, trace_of. cbn [fst snd].
  split; [done|]. split; [apply state_applied|].
  split; [apply applied_store_after|]. apply atom_deliveries_applied.
Qed.

(** X21. A change to a name every object inherits ([toString],
    [constructor], ...) passes the test [atomKey in state] although the
    schema has no such field: the change is applied, the snapshot gains a
    key the schema does not have, and the previous value reported is the
    inherited member. *)
Theorem inherited_name_change_applied st change inherited :
  state st !! atomId change = None →
  object_prototype (atomId change) = Some inherited →
  runs_clean st →
  let after := applyChange change st in
  completion_of after = Normal tt
  ∧ state (state_of after) !! atomId change = Some (newValue change)
  ∧ storage_sets (trace_of after)
    = match storage st with
      | Some _ => [("state:" +:+ atomId change, newValue change)]
      | None => []
      end
  ∧ atom_deliveries (trace_of after)
    = (λ subscriber, (subscriber, atomId change, inherited, newValue change))
      <$> default [] (JsMap.get (atomId change) (atomSubscriptions st)).
Proof.
  intros Hown Hinherited Hclean after. subst after.
  assert (js_in (state st) (atomId change) = true) as Hin.
  { unfold js_in. by rewrite Hown, Hinherited. }
  assert (js_get (state st) (atomId change) = inherited) as Hget.
  { unfold js_get. by rewrite Hown, Hinherited. }
  rewrite applyChange_clean by done.
  unfold completion_of, state_of, trace_of. cbn [fst snd].
  split; [done|]. split; [by rewrite state_applied, lookup_insert_eq|].
  split; [apply storage_sets_applied|].
  by rewrite atom_deliveries_applied, Hget.
Qed.

End Revalidation.

Section HookSetter.
Context {Value : Type} `{!JsRuntime Value}.

Implicit Types (st : Store Value) (change : StateChangeEvent Value).

(** X22. The setter of [useAtom], on a store that runs clean: the value
    given (or computed by the updater function from the current one) goes
    through the validator twice, once in [update] and once in [commit];
    what the second pass returns becomes the snapshot entry and is handed
    to the subscribers of the field. *)
Theorem useAtom_setter_applies st atom registered (newValue : UpdateArg Value)
    (v' v'' : Value) :
  JsMap.get (atom_id atom) (atoms st) = Some registered →
  atom_validate registered (proposed newValue (js_get (state st) (atom_id atom)))
    = Some v' →
  atom_validate registered v' = Some v'' →
  runs_clean st →
  js_in (state st) (atom_id atom) = true →
  let after := useAtom_updateAtom atom newValue st in
  completion_of after = Normal tt
  ∧ state (state_of after) = <[atom_id atom := v'']> (state st)
  ∧ atom_deliveries (trace_of after)
    = (λ subscriber,
         (subscriber, atom_id atom, js_get (state st) (atom_id atom), v''))
      <$> default [] (JsMap.get (atom_id atom) (atomSubscriptions st)).
Proof.
  intros Hatom Hv' Hv'' Hclean Hin after. subst after.
  set (event := created_event st (atom_id atom) v'' false).
  assert (useAtom_updateAtom atom newValue st
          = (Normal tt, applied_store (stamped st) event event,
             applied_trace (stamped st) event event)) as ->.
  { unfold useAtom_updateAtom, bind at 1, get_state, with_transaction. cbn [fst snd].
    rewrite (bind_normal _ _ _ tt _ _
               (tx_update_accepted st createTransaction _ registered _ v' Hatom Hv')).
    rewrite tx_commit_run.
    cbn [changes previousValues createTransaction JsMap.has JsMap.get JsMap.set
         for_each fst snd].
    unfold bind at 1.
    rewrite (updateAtom_clean st _ registered (Direct v') v'' false) by done.
    cbn. by rewrite !(right_id_L [] (++)). }
  unfold completion_of, state_of, trace_of. cbn [fst snd].
  split; [done|]. split; [exact (state_applied (stamped st) _ _)|].
  exact (atom_deliveries_applied (stamped st) _ _).
Qed.

(** X23. The setter of [useAtom] with a value the validator rejects: the
    validator's error is thrown out of the setter from [update], before
    anything is committed, so the store is untouched and, unlike a
    rejected [commit], nothing is logged. *)
Theorem useAtom_setter_rejects st atom registered (newValue : UpdateArg Value) :
  JsMap.get (atom_id atom) (atoms st) = Some registered →
  atom_validate registered (proposed newValue (js_get (state st) (atom_id atom)))
    = None →
  useAtom_updateAtom atom newValue st = (Throw ZodError, st, []).
Proof.
  intros Hatom Hrejected.
  unfold useAtom_updateAtom, bind at 1, get_state, with_transaction. cbn [fst snd].
  unfold bind at 1.
  assert (∃ tx', tx_update (atom_id atom)
                   (proposed newValue (js_get (state st) (atom_id atom)))
                   (st, createTransaction)
                 = (Throw ZodError, (st, tx'), [])) as [tx' ->]; [|done].
  unfold tx_update, bind at 1, get_state. cbn [fst snd].
  destruct (JsMap.has _ _); cbn [negb when];
    js_run; rewrite (validate_rejects _ _ registered) by done; eauto.
Qed.

End HookSetter.


Section NamespaceProperties.
Context {Value : Type}.

Implicit Types (change : StateChangeEvent Value) (namespace inner : string).

Lemma append_cons (a : Ascii.ascii) (p q : string) :
  String a p +:+ q = String a (p +:+ q).
Proof. reflexivity. Qed.

Lemma append_empty (q : string) : "" +:+ q = q.
Proof. reflexivity. Qed.

Lemma startsWith_app (p q r : string) :
  startsWith (p +:+ q) (p +:+ r) = startsWith q r.
Proof.
  induction p as [|a p IH]; [done|].
  rewrite !append_cons. cbn [startsWith]. by rewrite bool_decide_eq_true_2.
Qed.

Lemma substring_app (p r : string) (n : nat) :
  substring (String.length p + n) (p +:+ r) = substring n r.
Proof. induction p as [|a p IH]; [done|]. rewrite append_cons. by cbn. Qed.

Lemma string_app_assoc (p q r : string) : (p +:+ q) +:+ r = p +:+ (q +:+ r).
Proof. induction p as [|a p IH]; [done|]. rewrite !append_cons. by rewrite IH. Qed.

Lemma with_atomId_twice change (id : string) :
  with_atomId (with_atomId change id) (atomId change) = change.
Proof. by destruct change. Qed.

(** X24. What a namespaced store sends comes back to a store of the same
    namespace as it was: the prefix [sendChange] puts before the field is
    the one the subscription strips. *)
Theorem namespaced_round_trip namespace change :
  namespaced_onChange namespace (namespaced_sendChange namespace change)
  = Some change.
Proof.
  unfold namespaced_onChange, namespaced_sendChange. cbn [atomId with_atomId].
  rewrite startsWith_app, append_cons, append_empty. cbn [startsWith].
  rewrite bool_decide_eq_true_2 by done. cbn [andb]. f_equal.
  rewrite substring_app. cbn [substring]. by destruct change.
Qed.

(** X25. Namespaces are told apart by prefix only: a store whose
    namespace is [n] also receives what a store of the namespace [n:m]
    sends, as a change to the field [m:field]. *)
Theorem nested_namespace_received namespace inner change :
  namespaced_onChange namespace
    (namespaced_sendChange (namespace +:+ ":" +:+ inner) change)
  = Some (with_atomId change (inner +:+ ":" +:+ atomId change)).
Proof.
  unfold namespaced_onChange, namespaced_sendChange. cbn [atomId with_atomId].
  rewrite !string_app_assoc, startsWith_app, !append_cons, !append_empty.
  cbn [startsWith]. rewrite bool_decide_eq_true_2 by done. cbn [andb]. f_equal.
  rewrite substring_app. cbn [substring]. by destruct change.
Qed.

Lemma startsWith_colon_free (n1 n2 r : string) :
  (∀ p q, n1 ≠ p +:+ ":" +:+ q) →
  (∀ p q, n2 ≠ p +:+ ":" +:+ q) →
  startsWith (n1 +:+ ":") (n2 +:+ ":" +:+ r) = true →
  n1 = n2.
Proof.
  revert n2. induction n1 as [|a n1 IH]; intros [|b n2] H1 H2 Hstarts; [done|..].
  - rewrite !append_cons, append_empty in Hstarts. cbn in Hstarts.
    apply andb_prop in Hstarts as [Hb _].
    apply bool_decide_eq_true in Hb as <-. by destruct (H2 "" n2).
  - rewrite !append_cons, append_empty in Hstarts. cbn in Hstarts.
    apply andb_prop in Hstarts as [Ha _].
    apply bool_decide_eq_true in Ha as ->. by destruct (H1 "" n1).
  - rewrite !append_cons in Hstarts. cbn in Hstarts.
    apply andb_prop in Hstarts as [Hab Hstarts].
    apply bool_decide_eq_true in Hab as ->. f_equal. apply IH; [| |done].
    + intros p q ->. by destruct (H1 (String b p) q).
    + intros p q ->. by destruct (H2 (String b p) q).
Qed.

(** X26. Two namespaces without a colon that differ do not hear each
    other: what a store of one sends is filtered out by a store of the
    other. *)
Theorem namespaces_isolated (n1 n2 : string) change :
  (∀ p q, n1 ≠ p +:+ ":" +:+ q) →
  (∀ p q, n2 ≠ p +:+ ":" +:+ q) →
  n1 ≠ n2 →
  namespaced_onChange n1 (namespaced_sendChange n2 change) = None.
Proof.
  intros H1 H2 Hne. unfold namespaced_onChange, namespaced_sendChange.
  cbn [atomId with_atomId].
  destruct (startsWith _ _) eqn:Hstarts; [|done].
  by apply startsWith_colon_free in Hstarts.
Qed.

End NamespaceProperties.

Section MemoryStorageProperties.
Context {Value : Type}.

Variable null : Value.
Variable JSON_stringify : Value → Completion (option string).
Variable JSON_parse : string → Completion Value.

(** X27. What [set] stored under a key, [get] reads back, when
    [JSON.parse] undoes [JSON.stringify] on the value. *)
Theorem memory_get_after_set key (value : Value) item storage :
  JSON_stringify value = Normal (Some item) →
  item ≠ "" →
  JSON_parse item = Normal value →
  memory_get null JSON_parse key (memory_set JSON_stringify key value storage).1
  = (value, []).
Proof.
  intros Hstringify Hitem Hparse. unfold memory_get, memory_set.
  rewrite Hstringify. cbn [fst]. rewrite JsMap_get_set, bool_decide_eq_true_2 by done.
  destruct item as [|a item]; [done|]. by rewrite Hparse.
Qed.

End MemoryStorageProperties.

Section MemoryClear.

Lemma filter_ext_in {A} (P Q : A → Prop) `{∀ x, Decision (P x)} `{∀ x, Decision (Q x)}
    (l : list A) :
  (∀ x, x ∈ l → P x ↔ Q x) → filter P l = filter Q l.
Proof.
  induction l as [|x l IH]; intros Hext; [done|].
  rewrite !filter_cons.
  destruct (decide (P x)) as [HP|HP], (decide (Q x)) as [HQ|HQ].
  - f_equal. apply IH. intros y Hy. apply Hext. by right.
  - exfalso. apply HQ, Hext; [by left|done].
  - exfalso. apply HP, Hext; [by left|done].
  - apply IH. intros y Hy. apply Hext. by right.
Qed.

Lemma filter_all {A} (P : A → Prop) `{∀ x, Decision (P x)} (l : list A) :
  (∀ x, x ∈ l → P x) → filter P l = l.
Proof.
  induction l as [|x l IH]; intros Hall; [done|].
  rewrite filter_cons_True by (apply Hall; by left).
  f_equal. apply IH. intros y Hy. apply Hall. by right.
Qed.

Lemma JsMap_delete_filter {V} (k : string) (m : list (string * V)) :
  NoDup m.*1 → JsMap.delete k m = filter (λ e, e.1 ≠ k) m.
Proof.
  induction m as [|[k' v'] m IH]; intros Hnodup; [done|].
  cbn [fmap list_fmap fst] in Hnodup. apply NoDup_cons in Hnodup as [Hk' Hnodup].
  cbn [JsMap.delete]. case_bool_decide as Hk.
  - subst k'. rewrite filter_cons_False by (cbn; naive_solver).
    symmetry. apply filter_all. intros [k'' v''] Hin. cbn. intros ->.
    apply Hk'. apply list_elem_of_fmap. by exists (k, v'').
  - rewrite filter_cons_True by done. f_equal. by apply IH.
Qed.

Lemma NoDup_keys_filter {V} (P : string * V → Prop) `{∀ x, Decision (P x)}
    (m : list (string * V)) :
  NoDup m.*1 → NoDup (filter P m).*1.
Proof.
  induction m as [|[k v] m IH]; intros Hnodup; [done|].
  cbn [fmap list_fmap fst] in Hnodup. apply NoDup_cons in Hnodup as [Hk Hnodup].
  rewrite filter_cons. destruct (decide (P (k, v))); [|by apply IH].
  cbn [fmap list_fmap fst]. apply NoDup_cons. split; [|by apply IH].
  intros Hin. apply Hk. apply list_elem_of_fmap in Hin as ([k' v'] & -> & Hin).
  apply list_elem_of_filter in Hin as [_ Hin]. apply list_elem_of_fmap.
  by exists (k', v').
Qed.

Lemma clear_loop (keys : list string) :
  ∀ remaining : list (string * option string),
    NoDup remaining.*1 →
    foldl (λ remaining key,
             if startsWith "state:" key then JsMap.delete key remaining
             else remaining) remaining keys
    = filter (λ entry, ¬ (startsWith "state:" entry.1 = true ∧ entry.1 ∈ keys))
        remaining.
Proof.
  induction keys as [|key keys IH]; intros remaining Hnodup.
  { cbn [foldl]. symmetry. apply filter_all. intros entry _ [_ Hin].
    by apply not_elem_of_nil in Hin. }
  cbn [foldl]. destruct (startsWith "state:" key) eqn:Hkey.
  - rewrite JsMap_delete_filter by done.
    rewrite IH by (by apply NoDup_keys_filter).
    rewrite list_filter_filter. apply list_filter_iff. intros [k v]. cbn [fst].
    rewrite elem_of_cons. split.
    + intros [Hrest Hne] [Hstate [->|Hin]]; tauto.
    + intros Hnot. split; [|intros ->]; tauto.
  - rewrite IH by done. apply list_filter_iff. intros [k v]. cbn [fst].
    rewrite elem_of_cons. split.
    + intros Hnot [Hstate [->|Hin]]; [congruence|tauto].
    + tauto.
Qed.

(** X28. On a map, whose keys are distinct, [clear] removes the entries
    whose key starts with [state:] and keeps all others, in their
    order. *)
Theorem memory_clear_keeps_other_keys (storage : list (string * option string)) :
  NoDup storage.*1 →
  memory_clear storage
  = filter (λ entry, startsWith "state:" entry.1 = false) storage.
Proof.
  intros Hnodup. unfold memory_clear. rewrite clear_loop by done.
  apply filter_ext_in. intros [k v] Hin. cbn [fst]. split.
  - intros Hnot. destruct (startsWith "state:" k); [|done].
    exfalso. apply Hnot. split; [done|]. apply list_elem_of_fmap. by exists (k, v).
  - intros Hfalse [Htrue _]. congruence.
Qed.

End MemoryClear.


Section WebSocketQueue.
Context {Value : Type}.

Variable serializable : StateChangeEvent Value → bool.

Implicit Types (a : WebSocketAdapter Value) (change : StateChangeEvent Value).

Lemma ws_sendChanges_disconnected (changes : list (StateChangeEvent Value)) a :
  ws_isConnected a = false →
  ws_sendChanges serializable changes a
  = ({| ws_socket := ws_socket a; ws_isConnected := false;
        ws_pendingMessages := ws_pendingMessages a ++ changes |}, []).
Proof.
  intros Hdisconnected. unfold ws_sendChanges.
  assert (∀ a', ws_isConnected a' = false →
            foldl (λ r change,
                     let '(a1, t1) := ws_sendChange serializable change r.1 in
                     (a1, r.2 ++ t1)) (a', []) changes
            = ({| ws_socket := ws_socket a'; ws_isConnected := false;
                  ws_pendingMessages := ws_pendingMessages a' ++ changes |}, []))
    as Hloop; [|by apply Hloop].
  clear. induction changes as [|change changes IH]; intros a' Hdisconnected.
  { cbn. rewrite (right_id_L [] (++)). destruct a'. by cbn in *; subst. }
  assert (ws_sendChange serializable change a' = (ws_push change a', [])) as Hstep.
  { unfold ws_sendChange. by rewrite Hdisconnected, orb_true_r. }
  cbn [foldl fst snd]. rewrite Hstep. cbn [app].
  rewrite IH by done. cbn [ws_push ws_socket ws_pendingMessages].
  by rewrite <- (assoc_L (++)).
Qed.

Lemma ws_flush_serializable (pending : list (StateChangeEvent Value)) :
  ∀ fuel a,
    ws_socket a = true →
    ws_isConnected a = true →
    ws_pendingMessages a = pending →
    Forall (λ change, serializable change = true) pending →
    length pending ≤ fuel →
    ws_flush serializable fuel a
    = Some ({| ws_socket := true; ws_isConnected := true; ws_pendingMessages := [] |},
            SocketSend <$> pending).
Proof.
  induction pending as [|message rest IH]; intros fuel a Hsocket Hconnected Hpending
    Hall Hfuel.
  { destruct fuel; cbn; rewrite Hpending; destruct a; by cbn in *; subst. }
  destruct fuel as [|fuel]; [cbn in Hfuel; lia|].
  apply Forall_cons in Hall as [Hmessage Hall].
  cbn [ws_flush]. rewrite Hpending. unfold ws_sendChange.
  cbn [ws_socket ws_isConnected]. rewrite Hsocket, Hconnected, Hmessage. cbn [negb orb].
  rewrite (IH fuel); try done. cbn in Hfuel. lia.
Qed.

(** X29. What [sendChange] is given while the socket is not connected is
    queued, and when the socket opens the whole queue is sent in the order
    of the calls and left empty, provided every queued change can be
    serialised. *)
Theorem websocket_queue_flushed_in_order a changes fuel :
  ws_socket a = true →
  ws_isConnected a = false →
  Forall (λ change, serializable change = true) (ws_pendingMessages a ++ changes) →
  length (ws_pendingMessages a ++ changes) ≤ fuel →
  let queued := ws_sendChanges serializable changes a in
  snd queued = []
  ∧ ws_pendingMessages (fst queued) = ws_pendingMessages a ++ changes
  ∧ ws_onopen serializable fuel (fst queued)
    = Some ({| ws_socket := true; ws_isConnected := true; ws_pendingMessages := [] |},
            SocketSend <$> (ws_pendingMessages a ++ changes)).
Proof.
  intros Hsocket Hdisconnected Hall Hfuel queued. subst queued.
  rewrite ws_sendChanges_disconnected by done. cbn [fst snd ws_pendingMessages].
  do 2 (split; [done|]). unfold ws_onopen. by apply ws_flush_serializable.
Qed.

Lemma ws_flush_stuck (fuel : nat) :
  ∀ a message,
    ws_socket a = true →
    ws_isConnected a = true →
    message ∈ ws_pendingMessages a →
    serializable message = false →
    ws_flush serializable fuel a = None.
Proof.
  induction fuel as [|fuel IH]; intros a message Hsocket Hconnected Hin Hmessage.
  { cbn. destruct (ws_pendingMessages a); [by apply not_elem_of_nil in Hin|done]. }
  cbn [ws_flush]. destruct (ws_pendingMessages a) as [|first rest] eqn:Hpending.
  { by apply not_elem_of_nil in Hin. }
  unfold ws_sendChange. cbn [ws_socket ws_isConnected].
  rewrite Hsocket, Hconnected. cbn [negb orb].
  destruct (serializable first) eqn:Hfirst.
  - rewrite (IH _ message); try done. cbn [ws_pendingMessages].
    apply elem_of_cons in Hin as [->|Hin]; [congruence|done].
  - rewrite (IH _ first); try done. cbn [ws_push ws_pendingMessages].
    apply elem_of_app. right. by left.
Qed.

(** X30. One queued change that cannot be serialised is enough for the
    loop of [onopen] never to end: [sendChange] puts the change back at
    the end of the queue the loop is emptying, so the queue never gets
    empty, whatever the number of turns. *)
Theorem websocket_flush_never_ends a message :
  ws_socket a = true →
  message ∈ ws_pendingMessages a →
  serializable message = false →
  ∀ fuel, ws_onopen serializable fuel a = None.
Proof.
  intros Hsocket Hin Hmessage fuel. unfold ws_onopen.
  by apply (ws_flush_stuck fuel _ message).
Qed.

End WebSocketQueue.

(** * The theorems at concrete stores *)

Import Demo.

(** The README's configuration yields a store, after the first read of the
    storage and the subscription to the transport. *)
Example readme_configuration_creates :
  createStateManager (config (Some (inl localStorage)) (Some (inl broadcastChannel)))
  = (Normal (create (Some (inl localStorage)) (Some (inl broadcastChannel))),
     [StorageGet "state:count"; SyncInitialize; SyncSubscribe]).
Proof. reflexivity. Qed.

(** ** Loopback suppression *)

Lemma loopback_discarded_witness :
  source (echoed_change async_store) = clientId async_store
  ∧ onSyncChange (echoed_change async_store) async_store
    = (Normal tt, async_store, []).
Proof.
  assert (source (echoed_change async_store) = clientId async_store) as Hsource
    by reflexivity.
  split; [exact Hsource|].
  exact (proj1 (loopback_discarded async_store (echoed_change async_store) Hsource)).
Defined.

(** ** Remote changes are sent on *)

(** The remote change "count := 9" reaches [sendChange] of the store that
    received it. *)
Lemma remote_change_is_rebroadcast :
  ¬ never_rebroadcast async_store (peer_change "count" (JsNumber 9) false).
Proof.
  intros Hnever. apply Hnever; [discriminate|].
  vm_compute. apply list_elem_of_here.
Qed.

Lemma remote_change_forwarded_witness :
  let change := peer_change "count" (JsNumber 9) false in
  source change ≠ clientId async_store
  ∧ isPaused async_store = false
  ∧ pipeline (middlewares async_store) change = [change]
  ∧ js_in (state async_store) (atomId change) = true
  ∧ sync async_store = Some ReturnsPromise
  ∧ state (state_of (onSyncChange change async_store))
    = <["count" := JsNumber 9]> (state async_store)
  ∧ sync_sends (trace_of (onSyncChange change async_store)) = [change].
Proof.
  intros change.
  assert (source change ≠ clientId async_store) as H1 by discriminate.
  assert (isPaused async_store = false) as H2 by reflexivity.
  assert (pipeline (middlewares async_store) change = [change]) as H3 by reflexivity.
  assert (js_in (state async_store) (atomId change) = true) as H4
    by (vm_compute; reflexivity).
  assert (sync async_store = Some ReturnsPromise) as H5 by reflexivity.
  do 5 (split; [assumption|]).
  exact (remote_change_forwarded_unless_optimistic async_store change change
           ReturnsPromise H1 H2 H3 H4 H5).
Defined.

(** ** Persistence *)

(** The optimistic change "count := 5" is applied and persisted. *)
Lemma optimistic_change_is_persisted :
  state (state_of (applyChange (peer_change "count" (JsNumber 5) true) async_store))
    !! "count" = Some (JsNumber 5)
  ∧ ¬ persisted_unless_optimistic async_store (peer_change "count" (JsNumber 5) true).
Proof.
  split; [vm_compute; reflexivity|].
  unfold persisted_unless_optimistic. vm_compute. discriminate.
Qed.

Lemma persisted_on_every_applied_change_witness :
  let change := peer_change "count" (JsNumber 5) true in
  storage async_store = Some ReturnsPromise
  ∧ pipeline (middlewares async_store) change = [change]
  ∧ storage_sets (trace_of (applyChange change async_store))
    = [("state:count", JsNumber 5)].
Proof.
  intros change.
  assert (storage async_store = Some ReturnsPromise) as H1 by reflexivity.
  assert (pipeline (middlewares async_store) change = [change]) as H2 by reflexivity.
  do 2 (split; [assumption|]).
  exact (persisted_on_every_applied_change async_store change change
           ReturnsPromise H1 H2).
Defined.

(** ** Unknown fields *)

(** The change to "ghost", a field the schema does not have, is dropped
    without a word on the console. *)
Lemma unknown_field_is_not_logged :
  ¬ dropped_and_logged async_store (peer_change "ghost" (JsNumber 1) false).
Proof.
  intros Hlogged.
  destruct Hlogged as (_ & _ & _ & _ & _ & _ & Hconsole); [reflexivity|].
  apply Hconsole. vm_compute. reflexivity.
Qed.

Lemma unknown_field_dropped_witness :
  let change := peer_change "ghost" (JsNumber 1) false in
  state async_store !! atomId change = None
  ∧ object_prototype (atomId change) = None
  ∧ applyChange change async_store = (Normal tt, async_store, [])
  ∧ console_calls (trace_of (applyChange change async_store)) = [].
Proof.
  intros change.
  assert (state async_store !! atomId change = None) as H1
    by (vm_compute; reflexivity).
  assert (object_prototype (atomId change) = None) as H2
    by (vm_compute; reflexivity).
  do 2 (split; [assumption|]).
  exact (unknown_field_dropped_silently async_store change H1 H2).
Defined.

(** ** Rejected values *)

Lemma invalid_update_rejected_witness :
  JsMap.get "count" (atoms plain_store) = Some count_atom
  ∧ atom_validate count_atom
      (proposed (Direct (JsNumber (-5))) (js_get (state plain_store) "count")) = None
  ∧ updateAtom "count" (Direct (JsNumber (-5))) false plain_store
    = (Throw ZodError, plain_store,
       [Console console_error "Invalid value for atom count:"]).
Proof.
  assert (JsMap.get "count" (atoms plain_store) = Some count_atom) as H1
    by reflexivity.
  assert (atom_validate count_atom
            (proposed (Direct (JsNumber (-5))) (js_get (state plain_store) "count"))
          = None) as H2 by reflexivity.
  do 2 (split; [assumption|]).
  exact (proj1 (invalid_update_rejected plain_store "count" count_atom
                  (Direct (JsNumber (-5))) false H1 H2)).
Defined.

Lemma tx_update_invalid_rejected_witness :
  JsMap.get "count" (atoms plain_store) = Some count_atom
  ∧ atom_validate count_atom (JsNumber (-5)) = None
  ∧ completion_of (tx_update "count" (JsNumber (-5)) (plain_store, createTransaction))
    = Throw ZodError
  ∧ changes (snd (state_of
      (tx_update "count" (JsNumber (-5)) (plain_store, createTransaction)))) = [].
Proof.
  assert (JsMap.get "count" (atoms plain_store) = Some count_atom) as H1
    by reflexivity.
  assert (atom_validate count_atom (JsNumber (-5)) = None) as H2 by reflexivity.
  do 2 (split; [assumption|]).
  pose proof (tx_update_invalid_rejected plain_store createTransaction "count"
                count_atom (JsNumber (-5)) H1 H2) as (Hthrow & _ & Hpending & _).
  split; [exact Hthrow|exact Hpending].
Defined.

(** ** The stores on which [.catch] is called on [undefined]

    [set] of the localStorage, sessionStorage and memory adapters and
    [sendChange] of all three sync adapters return nothing, while
    [applyChange] calls [.catch] on what they return (lines 151 and 158;
    [persistState] in [src/utils/state-utils.ts] awaits the same call
    instead). On a store configured as in the README the final branch of
    [applyChange] therefore throws a [TypeError] right after the snapshot
    was replaced and [set] was called, before the timeline, the subscribers
    and the selectors are reached. *)

Lemma runs_clean_plain_store : runs_clean plain_store.
Proof. by repeat split. Qed.

(** C2, at the failing input. On the store of the README's configuration,
    with callback 7 subscribed to [count], the optimistic change
    "count := 5" (a value the validator accepts) replaces the snapshot entry
    and is not sent, but the call throws a [TypeError] and the subscriber is
    never handed the change. *)
Theorem optimistic_change_undelivered_readme_store :
  let change := peer_change "count" (JsNumber 5) true in
  let after := onSyncChange change readme_store in
  atom_validate count_atom (newValue change) = Some (newValue change)
  ∧ JsMap.get "count" (atomSubscriptions readme_store) = Some [7]
  ∧ completion_of after = Throw TypeError
  ∧ state (state_of after) !! "count" = Some (JsNumber 5)
  ∧ trace_of after = [StorageSet "state:count" (JsNumber 5)]
  ∧ atom_notifications (trace_of after) = []
  ∧ sync_sends (trace_of after) = [].
Proof. vm_compute. by repeat split. Qed.

(** The same change on a store whose adapters are [async]: applied,
    delivered to the subscriber, not sent. *)
Example optimistic_change_async_store :
  let change := peer_change "count" (JsNumber 5) true in
  let after := applyChange change async_store in
  completion_of after = Normal tt
  ∧ state (state_of after) = <["count" := JsNumber 5]> (state async_store)
  ∧ atom_notifications (trace_of after)
    = [(7, delivered_event async_store change change)]
  ∧ sync_sends (trace_of after) = [].
Proof.
  intros change after.
  by apply (optimistic_applied_locally async_store change change).
Qed.

(** C5, at the failing input. On the store of the README's configuration,
    a transaction stages "count := 5" then "name := x", both accepted by
    the validators. [rollback] would leave the store alone, but [commit]
    throws a [TypeError] while applying the first entry: [count] is
    replaced, [name] keeps its value from before the transaction, and no
    subscriber observes any change event. *)
Theorem commit_two_fields_aborts_readme_store :
  let staged := tx_updates [("count", JsNumber 5); ("name", JsString "x")] in
  let committed := (staged >> tx_commit) (readme_store, createTransaction) in
  let rolled_back := (staged >> tx_rollback) (readme_store, createTransaction) in
  fst (state_of rolled_back) = readme_store
  ∧ completion_of committed = Throw TypeError
  ∧ state (fst (state_of committed)) !! "count" = Some (JsNumber 5)
  ∧ state (fst (state_of committed)) !! "name" = Some (JsString "")
  ∧ atom_notifications (trace_of committed) = [].
Proof.
  intros staged committed rolled_back.
  split; [apply rollback_leaves_store|].
  vm_compute. by repeat split.
Qed.

(** The same transaction on a store without adapters: both fields are set,
    and the subscribers are handed the event for [count], then the one for
    [name]. *)
Example commit_two_fields_plain_store :
  ∃ st' tx' t eventA eventB,
    (tx_updates [("count", JsNumber 5); ("name", JsString "x")] >> tx_commit)
      (plain_store, createTransaction) = (Normal tt, (st', tx'), t)
    ∧ state st' !! "count" = Some (JsNumber 5)
    ∧ state st' !! "name" = Some (JsString "x")
    ∧ atom_notifications t = [(7, eventA); (8, eventB)]
    ∧ atomId eventA = "count" ∧ newValue eventA = JsNumber 5
    ∧ prevValue eventA = JsNumber 0
    ∧ atomId eventB = "name" ∧ newValue eventB = JsString "x"
    ∧ prevValue eventB = JsString "".
Proof.
  apply (commit_two_fields plain_store "count" "name" count_atom name_atom
           (JsNumber 5) (JsNumber 5) (JsString "x") (JsString "x"));
    first [done | apply runs_clean_plain_store].
Qed.

(** C6, at the failing input. On the store of the README's configuration,
    a transaction stages "count := 1" then "count := 2". [commit] takes the
    second value only, but throws a [TypeError] while applying it: the
    subscriber of [count] observes no change event where the claim has
    one. *)
Theorem commit_last_write_aborts_readme_store :
  let committed :=
    (tx_updates [("count", JsNumber 1); ("count", JsNumber 2)] >> tx_commit)
      (readme_store, createTransaction) in
  JsMap.get "count" (atomSubscriptions readme_store) = Some [7]
  ∧ completion_of committed = Throw TypeError
  ∧ state (fst (state_of committed)) !! "count" = Some (JsNumber 2)
  ∧ storage_sets (trace_of committed) = [("state:count", JsNumber 2)]
  ∧ atom_notifications (trace_of committed) = [].
Proof. vm_compute. by repeat split. Qed.

(** The same transaction on a store without adapters: one event, whose
    [newValue] is the second value. *)
Example commit_last_write_plain_store :
  ∃ st' tx' t event,
    (tx_updates [("count", JsNumber 1); ("count", JsNumber 2)] >> tx_commit)
      (plain_store, createTransaction) = (Normal tt, (st', tx'), t)
    ∧ state st' = <["count" := JsNumber 2]> (state plain_store)
    ∧ atom_notifications t = [(7, event)]
    ∧ atomId event = "count" ∧ newValue event = JsNumber 2.
Proof.
  apply (commit_last_write_wins plain_store "count" count_atom
           (JsNumber 1) (JsNumber 1) (JsNumber 2) (JsNumber 2));
    first [done | apply runs_clean_plain_store].
Qed.

(** C9, at the failing input. On the store of the README's configuration,
    the selector [state => state.count] is registered with the dependency
    set [{count}] and callback 9 subscribes to it. Committing "count := 5"
    replaces the snapshot entry of [count], but the [TypeError] is thrown
    before [updateSelectors] is reached: the selector is not computed on the
    new snapshot and its subscriber is handed nothing. *)
Theorem selector_not_recomputed_readme_store :
  let st := with_count_selector readme_store in
  let committed :=
    (tx_updates [("count", JsNumber 5)] >> tx_commit) (st, createTransaction) in
  JsMap.get "id1" (selectorCache st)
    = Some {| deps := ["count"]; compute := count_selector |}
  ∧ JsMap.get "id1" (selectorSubscriptions st) = Some [9]
  ∧ completion_of committed = Throw TypeError
  ∧ state (fst (state_of committed)) !! "count" = Some (JsNumber 5)
  ∧ selector_computes (trace_of committed) = []
  ∧ selector_notifications (trace_of committed) = [].
Proof. vm_compute. by repeat split. Qed.

(** The same selector on a store without adapters: computed on the new
    snapshot and delivered when [count] changes, not computed when [name]
    changes. *)
Example selector_follows_count_plain_store :
  let st := with_count_selector plain_store in
  let change := created_event st "count" (JsNumber 5) false in
  let after := applyChange change st in
  SelectorCompute "id1" (state (state_of after)) (JsNumber 5) ∈ trace_of after
  ∧ SelectorNotify "id1" 9 (JsNumber 5) ∈ trace_of after
  ∧ ∀ snapshot result,
      SelectorCompute "id1" snapshot result
        ∉ trace_of (applyChange (created_event st "name" (JsString "x") false) st).
Proof.
  intros st change after.
  destruct (selector_recomputed_on_dependency st change "id1" count_selector "count")
    as (_ & Hstate & Hcomputed & Hnotified);
    [reflexivity | reflexivity | by repeat split | reflexivity |].
  split; [|split].
  - subst after. rewrite Hstate in Hcomputed |- *.
    replace (JsNumber 5)
      with (select count_selector (<["count" := newValue change]> (state st)))
      by (vm_compute; reflexivity).
    exact Hcomputed.
  - subst after. rewrite Hstate in Hnotified.
    replace (JsNumber 5)
      with (select count_selector (<["count" := newValue change]> (state st)))
      by (vm_compute; reflexivity).
    apply Hnotified. vm_compute. apply list_elem_of_here.
  - apply (selector_not_recomputed_on_other_field st _ "id1" "count"); [|done].
    intros cached Hcached. apply list_elem_of_singleton in Hcached.
    injection Hcached as ->. reflexivity.
Qed.

(** ** Order of the pending changes *)

(** Staging [count], then [name], then [count] again keeps [count] first:
    a [Map] entry that is overwritten keeps its place. *)
Example pending_changes_first_touched_order :
  changes (snd (state_of
    (tx_updates [("count", JsNumber 1); ("name", JsString "x"); ("count", JsNumber 2)]
       (plain_store, createTransaction))))
  = [("count", JsNumber 2); ("name", JsString "x")].
Proof. reflexivity. Qed.

(** * The further properties at concrete stores *)

(** ** Pause and middlewares *)

Lemma commit_while_paused_witness :
  let st := after togglePause plain_store in
  let tx := {| changes := [("count", JsNumber 5)];
               previousValues := [("count", JsNumber 0)] |} in
  isPaused st = true
  ∧ Forall (λ entry, is_Some (JsMap.get (fst entry) (atoms st)
                              ≫= λ atom, atom_validate atom (snd entry)))
           (changes tx)
  ∧ completion_of (tx_commit (st, tx)) = Normal tt
  ∧ snd (state_of (tx_commit (st, tx))) = createTransaction
  ∧ state (fst (state_of (tx_commit (st, tx)))) = state st
  ∧ timeline (fst (state_of (tx_commit (st, tx)))) = timeline st
  ∧ trace_of (tx_commit (st, tx)) = [].
Proof.
  intros st tx.
  assert (isPaused st = true) as H1 by reflexivity.
  assert (Forall (λ entry, is_Some (JsMap.get (fst entry) (atoms st)
                                    ≫= λ atom, atom_validate atom (snd entry)))
                 (changes tx)) as H2.
  { constructor; [|constructor]. exists (JsNumber 5). reflexivity. }
  do 2 (split; [assumption|]).
  exact (commit_while_paused_loses_changes st tx H1 H2).
Defined.

Lemma vetoing_middleware_witness :
  let st := after (addMiddleware veto) plain_store in
  let change := peer_change "count" (JsNumber 5) false in
  veto ∈ middlewares st
  ∧ (∀ c, mw_run veto c = [])
  ∧ applyChange change st = (Normal tt, st, []).
Proof.
  intros st change.
  assert (veto ∈ middlewares st) as H1 by apply list_elem_of_here.
  assert (∀ c, mw_run veto c = []) as H2 by (intros c; reflexivity).
  do 2 (split; [assumption|]).
  exact (vetoing_middleware_drops_change st change veto H1 H2).
Defined.

Lemma remove_added_middleware_witness :
  (mw_id veto ∉ mw_id <$> middlewares plain_store)
  ∧ state_of (removeMiddleware veto (state_of (addMiddleware veto plain_store)))
    = plain_store.
Proof.
  assert (mw_id veto ∉ mw_id <$> middlewares plain_store) as H1
    by apply not_elem_of_nil.
  split; [assumption|].
  exact (remove_added_middleware plain_store veto H1).
Defined.

(** ** The timeline *)

Lemma applied_change_recorded_witness :
  let change := peer_change "count" (JsNumber 5) false in
  let after := state_of (applyChange change debug_store) in
  timeTravel debug_store = true
  ∧ isPaused debug_store = false
  ∧ pipeline (middlewares debug_store) change = [change]
  ∧ js_in (state debug_store) (atomId change) = true
  ∧ catch_safe debug_store change
  ∧ timeline after
    = timeline debug_store
      ++ [{| entry_timestamp := date_now (clockReads debug_store);
             entry_snapshot := state after;
             entry_change := change;
             entry_id := nanoid (idsDrawn debug_store) |}].
Proof.
  intros change after.
  assert (timeTravel debug_store = true) as H1 by reflexivity.
  assert (isPaused debug_store = false) as H2 by reflexivity.
  assert (pipeline (middlewares debug_store) change = [change]) as H3 by reflexivity.
  assert (js_in (state debug_store) (atomId change) = true) as H4
    by (vm_compute; reflexivity).
  assert (catch_safe debug_store change) as H5
    by (split; [discriminate|right; discriminate]).
  do 5 (split; [assumption|]).
  exact (proj1 (applied_change_recorded debug_store change change H1 H2 H3 H4 H5)).
Defined.

Lemma travelTo_restores_snapshot_witness :
  let entry :=
    {| entry_timestamp := 1700000000001;
       entry_snapshot := <["count" := JsNumber 5]> (state debug_store);
       entry_change := created_event debug_store "count" (JsNumber 5) false;
       entry_id := "id2" |} in
  let after := travelTo "id2" travelled_store in
  find_entry "id2" (timeline travelled_store) = Some entry
  ∧ state travelled_store !! "count" = Some (JsNumber 8)
  ∧ completion_of after = Normal tt
  ∧ state (state_of after) = entry_snapshot entry
  ∧ timeline (state_of after) = timeline travelled_store.
Proof.
  intros entry after.
  assert (find_entry "id2" (timeline travelled_store) = Some entry) as H1
    by (vm_compute; reflexivity).
  split; [assumption|]. split; [vm_compute; reflexivity|].
  pose proof (travelTo_restores_snapshot travelled_store "id2" entry H1)
    as (Hc & Hstate & Htimeline & _).
  split; [exact Hc|]. split; [exact Hstate|exact Htimeline].
Defined.

Lemma travelTo_leaves_selectors_stale_witness :
  let st := with_count_selector travelled_store in
  (∀ cached, ("id5", cached) ∈ selectorCache st → "*" ∉ deps cached)
  ∧ ∀ e, e ∈ trace_of (travelTo "id2" st) →
         match e with
         | SelectorCompute id' _ _ | SelectorNotify id' _ _ => id' ≠ "id5"
         | _ => True
         end.
Proof.
  intros st.
  assert (∀ cached, ("id5", cached) ∈ selectorCache st → "*" ∉ deps cached) as H1.
  { assert (selectorCache st
            = [("id5", {| deps := ["count"]; compute := count_selector |})]) as Hcache
      by reflexivity.
    intros cached Hin. rewrite Hcache in Hin.
    apply list_elem_of_singleton in Hin. injection Hin as ->. cbn.
    intros Hstar. apply list_elem_of_singleton in Hstar. discriminate. }
  split; [assumption|].
  exact (travelTo_leaves_selectors_stale st "id2" "id5" H1).
Defined.

(** ** Selectors *)

Lemma inferred_dependencies_witness :
  let earlier := [peer_change "count" (JsNumber 5) false] in
  let change := peer_change "name" (JsString "x") false in
  let created := state_of (createSelector conditional_selector None plain_store) in
  JsMap.get (nanoid (idsDrawn plain_store)) (selectorCache plain_store) = None
  ∧ (atomId change ∉ reads conditional_selector (state plain_store))
  ∧ reads conditional_selector (state (applyChanges earlier created))
    = ["count"; "name"]
  ∧ ∀ snapshot result,
      SelectorCompute (nanoid (idsDrawn plain_store)) snapshot result
        ∉ trace_of (applyChange change (applyChanges earlier created)).
Proof.
  intros earlier change created.
  assert (JsMap.get (nanoid (idsDrawn plain_store)) (selectorCache plain_store) = None)
    as H1 by reflexivity.
  assert (atomId change ∉ reads conditional_selector (state plain_store)) as H2.
  { assert (reads conditional_selector (state plain_store) = ["count"]) as Hreads
      by (vm_compute; reflexivity).
    rewrite Hreads. intros Hin. apply list_elem_of_singleton in Hin. discriminate. }
  do 2 (split; [assumption|]). split; [vm_compute; reflexivity|].
  exact (inferred_dependencies_fixed_at_creation plain_store conditional_selector
           earlier change H1 H2).
Defined.

Lemma unsubscribed_selector_witness :
  let st := with_count_selector plain_store in
  let cached := {| deps := ["count"]; compute := count_selector |} in
  let change := peer_change "count" (JsNumber 5) false in
  let st' := state_of (unsubscribeFromSelector "id1" 9 st) in
  let after := applyChange change st' in
  NoDup (selectorSubscriptions st).*1
  ∧ JsMap.get "id1" (selectorCache st) = Some cached
  ∧ atomId change ∈ deps cached
  ∧ runs_clean st
  ∧ js_in (state st) (atomId change) = true
  ∧ selectorCache st' = selectorCache st
  ∧ (∀ v, SelectorNotify "id1" 9 v ∉ trace_of after)
  ∧ SelectorCompute "id1" (state (state_of after))
      (select (compute cached) (state (state_of after))) ∈ trace_of after.
Proof.
  intros st cached change st' after.
  assert (NoDup (selectorSubscriptions st).*1) as H1.
  { assert ((selectorSubscriptions st).*1 = ["id1"]) as Hkeys by reflexivity.
    rewrite Hkeys. apply NoDup_singleton. }
  assert (JsMap.get "id1" (selectorCache st) = Some cached) as H2 by reflexivity.
  assert (atomId change ∈ deps cached) as H3 by apply list_elem_of_here.
  assert (runs_clean st) as H4
    by (split; [reflexivity|split; [intros c; reflexivity|split; discriminate]]).
  assert (js_in (state st) (atomId change) = true) as H5 by (vm_compute; reflexivity).
  do 5 (split; [assumption|]).
  exact (unsubscribed_selector_still_computed st "id1" 9 cached change H1 H2 H3 H4 H5).
Defined.

(** ** Reset *)

Lemma resetState_restores_defaults_witness :
  runs_clean plain_store
  ∧ NoDup (atoms plain_store).*1
  ∧ (∀ entry, entry ∈ atoms plain_store →
       js_in (state plain_store) (fst entry) = true
       ∧ is_Some (atom_validate (snd entry) (atom_default (snd entry))))
  ∧ completion_of (resetState plain_store) = Normal tt
  ∧ ∀ entry, entry ∈ atoms plain_store →
      state (state_of (resetState plain_store)) !! fst entry
      = atom_validate (snd entry) (atom_default (snd entry)).
Proof.
  assert (atoms plain_store = [("count", count_atom); ("name", name_atom)]) as Hatoms
    by reflexivity.
  assert (runs_clean plain_store) as H1
    by (split; [reflexivity|split; [intros c; reflexivity|split; discriminate]]).
  assert (NoDup (atoms plain_store).*1) as H2.
  { rewrite Hatoms. apply NoDup_cons. split; [|apply NoDup_singleton].
    intros Hin. apply list_elem_of_singleton in Hin. discriminate. }
  assert (∀ entry, entry ∈ atoms plain_store →
            js_in (state plain_store) (fst entry) = true
            ∧ is_Some (atom_validate (snd entry) (atom_default (snd entry)))) as H3.
  { intros entry Hin. rewrite Hatoms in Hin.
    apply elem_of_cons in Hin as [->|Hin].
    - split; [vm_compute; reflexivity|]. exists (JsNumber 0). reflexivity.
    - apply list_elem_of_singleton in Hin as ->.
      split; [vm_compute; reflexivity|]. exists (JsString ""). reflexivity. }
  do 3 (split; [assumption|]).
  pose proof (resetState_restores_defaults plain_store H1 H2 H3) as (Hc & Hset & _).
  split; [exact Hc|exact Hset].
Defined.

Lemma resetState_stops_witness :
  atoms level_store = [("count", count_atom)] ++ ("level", level_atom) :: []
  ∧ atom_validate level_atom (atom_default level_atom) = None
  ∧ runs_clean level_store
  ∧ NoDup (atoms level_store).*1
  ∧ (∀ entry, entry ∈ [("count", count_atom)] →
       js_in (state level_store) (fst entry) = true
       ∧ is_Some (atom_validate (snd entry) (atom_default (snd entry))))
  ∧ completion_of (resetState level_store) = Throw ZodError.
Proof.
  assert (atoms level_store = [("count", count_atom)] ++ ("level", level_atom) :: [])
    as H1 by reflexivity.
  assert (atom_validate level_atom (atom_default level_atom) = None) as H2
    by reflexivity.
  assert (runs_clean level_store) as H3
    by (split; [reflexivity|split; [intros c; reflexivity|split; discriminate]]).
  assert (NoDup (atoms level_store).*1) as H4.
  { rewrite H1. apply NoDup_cons. split; [|apply NoDup_singleton].
    intros Hin. apply list_elem_of_singleton in Hin. discriminate. }
  assert (∀ entry, entry ∈ [("count", count_atom)] →
            js_in (state level_store) (fst entry) = true
            ∧ is_Some (atom_validate (snd entry) (atom_default (snd entry)))) as H5.
  { intros entry Hin. apply list_elem_of_singleton in Hin as ->.
    split; [vm_compute; reflexivity|]. exists (JsNumber 0). reflexivity. }
  do 5 (split; [assumption|]).
  exact (proj1 (resetState_stops_at_rejected_default level_store
                  [("count", count_atom)] "level" level_atom [] H1 H2 H3 H4 H5)).
Defined.

(** ** Creation *)

Lemma schema_without_default_witness :
  ("total", required_schema) ∈ config_schema required_config
  ∧ required_schema undefined = None
  ∧ createStateManager required_config = (Throw ZodError, []).
Proof.
  assert (("total", required_schema) ∈ config_schema required_config) as H1
    by (apply elem_of_cons; right; apply list_elem_of_here).
  assert (required_schema undefined = None) as H2 by reflexivity.
  do 2 (split; [assumption|]).
  exact (schema_without_default_rejected required_config "total" required_schema H1 H2).
Defined.

Lemma websocket_by_name_witness :
  config_syncAdapter (config None (Some (inl websocket))) = Some (inl websocket)
  ∧ (fst (createStateManager (config None (Some (inl websocket)))) = Throw ZodError
     ∨ fst (createStateManager (config None (Some (inl websocket))))
       = Throw (Error "URL is required for websocket sync adapter")).
Proof.
  assert (config_syncAdapter (config None (Some (inl websocket)))
          = Some (inl websocket)) as H1 by reflexivity.
  split; [assumption|].
  exact (websocket_by_name_never_creates (config None (Some (inl websocket))) H1).
Defined.

Lemma created_store_initial_values_witness :
  ∃ st t,
    createStateManager overriding_config = (Normal st, t)
    ∧ NoDup (config_schema overriding_config).*1
    ∧ NoDup (default [] (config_initialState overriding_config)).*1
    ∧ ("count", count_schema) ∈ config_schema overriding_config
    ∧ ∃ defaultValue,
        count_schema undefined = Some defaultValue
        ∧ JsMap.get "count" (atoms st)
          = Some {| atom_id := "count"; atom_default := defaultValue;
                    atom_validate := count_schema |}
        ∧ JsMap.get "count" (atomSubscriptions st) = Some []
        ∧ state st !! "count"
          = Some (default defaultValue
                    (JsMap.get "count"
                       (default [] (config_initialState overriding_config))
                     ≫= count_schema)).
Proof.
  destruct (createStateManager overriding_config) as [[st|e] t] eqn:Hcreated;
    [|discriminate Hcreated].
  exists st, t.
  assert (NoDup (config_schema overriding_config).*1) as H2.
  { apply NoDup_cons. split; [|apply NoDup_singleton].
    intros Hin. apply list_elem_of_singleton in Hin. discriminate. }
  assert (NoDup (default [] (config_initialState overriding_config)).*1) as H3.
  { apply NoDup_cons. split; [|apply NoDup_singleton].
    intros Hin. apply list_elem_of_singleton in Hin. discriminate. }
  assert (("count", count_schema) ∈ config_schema overriding_config) as H4
    by apply list_elem_of_here.
  split; [reflexivity|]. do 3 (split; [assumption|]).
  exact (created_store_initial_values overriding_config st t "count" count_schema
           Hcreated H2 H3 H4).
Defined.

(** ** Validation *)

Lemma commit_revalidates_witness :
  let after := (tx_update "level" (JsNumber 3) >> tx_commit)
                 (level_store, createTransaction) in
  JsMap.get "level" (atoms level_store) = Some level_atom
  ∧ atom_validate level_atom (JsNumber 3) = Some (JsNumber 13)
  ∧ atom_validate level_atom (JsNumber 13) = None
  ∧ completion_of after = Throw ZodError
  ∧ fst (state_of after) = level_store
  ∧ changes (snd (state_of after)) = [("level", JsNumber 13)]
  ∧ trace_of after = [Console console_error "Invalid value for atom level:"].
Proof.
  intros after.
  assert (JsMap.get "level" (atoms level_store) = Some level_atom) as H1
    by reflexivity.
  assert (atom_validate level_atom (JsNumber 3) = Some (JsNumber 13)) as H2
    by reflexivity.
  assert (atom_validate level_atom (JsNumber 13) = None) as H3 by reflexivity.
  do 3 (split; [assumption|]).
  exact (commit_revalidates level_store "level" level_atom (JsNumber 3) (JsNumber 13)
           H1 H2 H3).
Defined.

Lemma tx_update_unknown_field_witness :
  let after := tx_update "ghost" (JsNumber 1) (plain_store, createTransaction) in
  JsMap.get "ghost" (atoms plain_store) = None
  ∧ completion_of after = Throw TypeError
  ∧ fst (state_of after) = plain_store
  ∧ changes (snd (state_of after)) = []
  ∧ trace_of after = [].
Proof.
  intros after.
  assert (JsMap.get "ghost" (atoms plain_store) = None) as H1 by reflexivity.
  split; [assumption|].
  exact (tx_update_unknown_field plain_store createTransaction "ghost" (JsNumber 1) H1).
Defined.

Lemma remote_change_unvalidated_witness :
  let change := peer_change "count" (JsNumber (-5)) false in
  let after := onSyncChange change async_store in
  source change ≠ clientId async_store
  ∧ runs_clean async_store
  ∧ js_in (state async_store) (atomId change) = true
  ∧ atom_validate count_atom (newValue change) = None
  ∧ completion_of after = Normal tt
  ∧ state (state_of after) = <["count" := JsNumber (-5)]> (state async_store).
Proof.
  intros change after.
  assert (source change ≠ clientId async_store) as H1 by discriminate.
  assert (runs_clean async_store) as H2
    by (split; [reflexivity|split; [intros c; reflexivity|split; discriminate]]).
  assert (js_in (state async_store) (atomId change) = true) as H3
    by (vm_compute; reflexivity).
  do 3 (split; [assumption|]). split; [reflexivity|].
  pose proof (remote_change_applied_unvalidated async_store change H1 H2 H3)
    as (Hc & Hstate & _).
  split; [exact Hc|exact Hstate].
Defined.

Lemma inherited_name_change_witness :
  let change := peer_change "toString" (JsNumber 1) false in
  let after := applyChange change plain_store in
  state plain_store !! atomId change = None
  ∧ object_prototype (atomId change) = Some (JsNative "toString")
  ∧ runs_clean plain_store
  ∧ completion_of after = Normal tt
  ∧ state (state_of after) !! "toString" = Some (JsNumber 1).
Proof.
  intros change after.
  assert (state plain_store !! atomId change = None) as H1
    by (vm_compute; reflexivity).
  assert (object_prototype (atomId change) = Some (JsNative "toString")) as H2
    by (vm_compute; reflexivity).
  assert (runs_clean plain_store) as H3
    by (split; [reflexivity|split; [intros c; reflexivity|split; discriminate]]).
  do 3 (split; [assumption|]).
  pose proof (inherited_name_change_applied plain_store change (JsNative "toString")
                H1 H2 H3) as (Hc & Hstate & _).
  split; [exact Hc|exact Hstate].
Defined.

(** ** The setter of [useAtom] *)

Lemma useAtom_setter_applies_witness :
  let increment :=
    Updater (λ v, match v with JsNumber n => JsNumber (n + 1) | _ => v end) in
  let after := useAtom_updateAtom count_atom increment plain_store in
  JsMap.get (atom_id count_atom) (atoms plain_store) = Some count_atom
  ∧ atom_validate count_atom
      (proposed increment (js_get (state plain_store) (atom_id count_atom)))
    = Some (JsNumber 1)
  ∧ atom_validate count_atom (JsNumber 1) = Some (JsNumber 1)
  ∧ runs_clean plain_store
  ∧ js_in (state plain_store) (atom_id count_atom) = true
  ∧ completion_of after = Normal tt
  ∧ state (state_of after) = <["count" := JsNumber 1]> (state plain_store).
Proof.
  intros increment after.
  assert (JsMap.get (atom_id count_atom) (atoms plain_store) = Some count_atom) as H1
    by reflexivity.
  assert (atom_validate count_atom
            (proposed increment (js_get (state plain_store) (atom_id count_atom)))
          = Some (JsNumber 1)) as H2 by (vm_compute; reflexivity).
  assert (atom_validate count_atom (JsNumber 1) = Some (JsNumber 1)) as H3
    by reflexivity.
  assert (runs_clean plain_store) as H4
    by (split; [reflexivity|split; [intros c; reflexivity|split; discriminate]]).
  assert (js_in (state plain_store) (atom_id count_atom) = true) as H5
    by (vm_compute; reflexivity).
  do 5 (split; [assumption|]).
  pose proof (useAtom_setter_applies plain_store count_atom count_atom increment
                (JsNumber 1) (JsNumber 1) H1 H2 H3 H4 H5) as (Hc & Hstate & _).
  split; [exact Hc|exact Hstate].
Defined.

Lemma useAtom_setter_rejects_witness :
  JsMap.get (atom_id count_atom) (atoms plain_store) = Some count_atom
  ∧ atom_validate count_atom
      (proposed (Direct (JsNumber (-5)))
         (js_get (state plain_store) (atom_id count_atom))) = None
  ∧ useAtom_updateAtom count_atom (Direct (JsNumber (-5))) plain_store
    = (Throw ZodError, plain_store, []).
Proof.
  assert (JsMap.get (atom_id count_atom) (atoms plain_store) = Some count_atom) as H1
    by reflexivity.
  assert (atom_validate count_atom
            (proposed (Direct (JsNumber (-5)))
               (js_get (state plain_store) (atom_id count_atom))) = None) as H2
    by reflexivity.
  do 2 (split; [assumption|]).
  exact (useAtom_setter_rejects plain_store count_atom count_atom
           (Direct (JsNumber (-5))) H1 H2).
Defined.

(** ** Namespaces, the in-memory storage and the WebSocket queue *)

Lemma namespaces_isolated_witness :
  let change := peer_change "count" (JsNumber 1) false in
  (∀ p q, "cart" ≠ p +:+ ":" +:+ q)
  ∧ (∀ p q, "user" ≠ p +:+ ":" +:+ q)
  ∧ "cart" ≠ "user"
  ∧ namespaced_onChange "cart" (namespaced_sendChange "user" change) = None.
Proof.
  intros change.
  assert (∀ p q, "cart" ≠ p +:+ ":" +:+ q) as H1.
  { intros p q Heq. destruct p as [|a1 [|a2 [|a3 [|a4 [|a5 p]]]]];
      vm_compute in Heq; discriminate Heq. }
  assert (∀ p q, "user" ≠ p +:+ ":" +:+ q) as H2.
  { intros p q Heq. destruct p as [|a1 [|a2 [|a3 [|a4 [|a5 p]]]]];
      vm_compute in Heq; discriminate Heq. }
  assert ("cart" ≠ "user") as H3 by discriminate.
  do 3 (split; [assumption|]).
  exact (namespaces_isolated "cart" "user" change H1 H2 H3).
Defined.

Lemma memory_get_after_set_witness :
  json_stringify (Some 5%Z) = Normal (Some "5")
  ∧ "5" ≠ ""
  ∧ json_parse "5" = Normal (Some 5%Z)
  ∧ memory_get None json_parse "state:count"
      (memory_set json_stringify "state:count" (Some 5%Z) []).1
    = (Some 5%Z, []).
Proof.
  assert (json_stringify (Some 5%Z) = Normal (Some "5")) as H1
    by (vm_compute; reflexivity).
  assert ("5" ≠ "") as H2 by discriminate.
  assert (json_parse "5" = Normal (Some 5%Z)) as H3 by (vm_compute; reflexivity).
  do 3 (split; [assumption|]).
  exact (memory_get_after_set None json_stringify json_parse "state:count"
           (Some 5%Z) "5" [] H1 H2 H3).
Defined.

Lemma memory_clear_witness :
  let storage := [("state:count", Some "5"); ("cart:state:total", Some "7");
                  ("session", Some "1")] in
  NoDup storage.*1
  ∧ memory_clear storage
    = filter (λ entry, startsWith "state:" entry.1 = false) storage.
Proof.
  intros storage.
  assert (NoDup storage.*1) as H1.
  { apply NoDup_cons. split.
    { intros Hin. apply elem_of_cons in Hin as [Hin|Hin]; [discriminate|].
      apply list_elem_of_singleton in Hin. discriminate. }
    apply NoDup_cons. split; [|apply NoDup_singleton].
    intros Hin. apply list_elem_of_singleton in Hin. discriminate. }
  split; [assumption|].
  exact (memory_clear_keeps_other_keys storage H1).
Defined.

Lemma websocket_queue_witness :
  let a := {| ws_socket := true; ws_isConnected := false;
              ws_pendingMessages := [] |} in
  let changes := [peer_change "count" (JsNumber 1) false;
                  peer_change "count" (JsNumber 2) false] in
  let queued := ws_sendChanges (λ _, true) changes a in
  ws_socket a = true
  ∧ ws_isConnected a = false
  ∧ Forall (λ change, (λ _ : StateChangeEvent JsValue, true) change = true)
           (ws_pendingMessages a ++ changes)
  ∧ length (ws_pendingMessages a ++ changes) ≤ 2
  ∧ snd queued = []
  ∧ ws_pendingMessages (fst queued) = ws_pendingMessages a ++ changes
  ∧ ws_onopen (λ _, true) 2 (fst queued)
    = Some ({| ws_socket := true; ws_isConnected := true; ws_pendingMessages := [] |},
            SocketSend <$> (ws_pendingMessages a ++ changes)).
Proof.
  intros a changes queued.
  assert (ws_socket a = true) as H1 by reflexivity.
  assert (ws_isConnected a = false) as H2 by reflexivity.
  assert (Forall (λ change, (λ _ : StateChangeEvent JsValue, true) change = true)
                 (ws_pendingMessages a ++ changes)) as H3
    by (repeat constructor).
  assert (length (ws_pendingMessages a ++ changes) ≤ 2) as H4 by (cbn; lia).
  do 4 (split; [assumption|]).
  exact (websocket_queue_flushed_in_order (λ _, true) a changes 2 H1 H2 H3 H4).
Defined.

Lemma websocket_flush_never_ends_witness :
  let a := {| ws_socket := true; ws_isConnected := false;
              ws_pendingMessages := [bigint_change 1] |} in
  ws_socket a = true
  ∧ bigint_change 1 ∈ ws_pendingMessages a
  ∧ (λ _ : StateChangeEvent Z, false) (bigint_change 1) = false
  ∧ ∀ fuel, ws_onopen (λ _, false) fuel a = None.
Proof.
  intros a.
  assert (ws_socket a = true) as H1 by reflexivity.
  assert (bigint_change 1 ∈ ws_pendingMessages a) as H2 by apply list_elem_of_here.
  assert ((λ _ : StateChangeEvent Z, false) (bigint_change 1) = false) as H3
    by reflexivity.
  do 3 (split; [assumption|]).
  exact (websocket_flush_never_ends (λ _, false) a (bigint_change 1) H1 H2 H3).
Defined.
